(** * Flight search engine: gateway client, route validation, filter/sort engine

    A shallow embedding of the TypeScript sources

      - [lib/utils/flight-utils.ts]   (duration codec, filters, sort),
      - [app/api/airports/route.ts]   (fuzzy matcher),
      - [app/api/flights/route.ts]    (query validation, GET handler),
      - [lib/api/amadeus.ts]          (token cache, rate limiter, request
                                       cache, retrying request, airport lookup),

    and the properties of the specification that concern them.

    Conventions.  A JavaScript [number] that the code only uses as an integer
    (hours, minutes, stop counts, epoch milliseconds, HTTP statuses) is a [Z];
    a price or a score is a rational [Q]; a number that may be [NaN] is an
    [option] whose [None] is [NaN], and every comparison with [NaN] is false.
    Strings are Rocq strings, so the embedding covers the 8-bit characters;
    case conversion acts on the ASCII letters.  What the host platform
    provides ([Date], [fetch], [JSON.stringify]) is a parameter of the
    development. *)

From Stdlib Require Import ZArith QArith Lqa Lia Ascii String List Permutation Sorted.
From stdpp Require Import base list strings gmap sorting pretty.

Local Open Scope string_scope.
Local Open Scope Z_scope.

(* ===================================================================== *)
(** * JavaScript primitives used by the sources *)
(* ===================================================================== *)

Module Js.

Definition code (c : ascii) : Z := Z.of_nat (nat_of_ascii c).

Definition isDigit (c : ascii) : bool := (48 <=? code c) && (code c <=? 57).
Definition isUpper (c : ascii) : bool := (65 <=? code c) && (code c <=? 90).
Definition isLower (c : ascii) : bool := (97 <=? code c) && (code c <=? 122).

Definition lowerChar (c : ascii) : ascii :=
  if isUpper c then ascii_of_nat (nat_of_ascii c + 32) else c.
Definition upperChar (c : ascii) : ascii :=
  if isLower c then ascii_of_nat (nat_of_ascii c - 32) else c.

Fixpoint mapString (f : ascii -> ascii) (s : string) : string :=
  match s with
  | EmptyString => EmptyString
  | String c r => String (f c) (mapString f r)
  end.

(** [String.prototype.toLowerCase] / [toUpperCase]. *)
Definition toLowerCase : string -> string := mapString lowerChar.
Definition toUpperCase : string -> string := mapString upperChar.

(** [s.length] *)
Definition len (s : string) : Z := Z.of_nat (String.length s).

(** [haystack.startsWith(needle)] *)
Fixpoint startsWith (haystack needle : string) : bool :=
  match needle, haystack with
  | EmptyString, _ => true
  | String _ _, EmptyString => false
  | String a n, String b h => Ascii.eqb a b && startsWith h n
  end.

(** [haystack.includes(needle)] *)
Fixpoint includes (haystack needle : string) : bool :=
  startsWith haystack needle ||
  match haystack with
  | EmptyString => false
  | String _ h => includes h needle
  end.

(** Longest prefix of characters satisfying [p], and the rest. *)
Fixpoint span (p : ascii -> bool) (s : string) : string * string :=
  match s with
  | EmptyString => (EmptyString, EmptyString)
  | String c r =>
      if p c then let '(d, t) := span p r in (String c d, t)
      else (EmptyString, s)
  end.

Definition isWhite (c : ascii) : bool :=
  ((9 <=? code c) && (code c <=? 13)) || (code c =? 32).

Fixpoint trimStart (s : string) : string :=
  match s with
  | String c r => if isWhite c then trimStart r else s
  | EmptyString => EmptyString
  end.

Definition digitValue (c : ascii) : option Z :=
  if isDigit c then Some (code c - 48)
  else if (97 <=? code c) && (code c <=? 102) then Some (code c - 87)
  else if (65 <=? code c) && (code c <=? 70) then Some (code c - 55)
  else None.

Definition isRadixDigit (radix : Z) (c : ascii) : bool :=
  match digitValue c with
  | Some v => v <? radix
  | None => false
  end.

Fixpoint digitsValue (radix : Z) (acc : Z) (s : string) : Z :=
  match s with
  | EmptyString => acc
  | String c r =>
      digitsValue radix (acc * radix + default 0 (digitValue c)) r
  end.

(** [parseInt(s)] with no radix argument: leading white space, a sign, a
    [0x] prefix selecting base 16, then the longest run of digits; [None]
    is [NaN]. *)
Definition parseInt (s : string) : option Z :=
  let s1 := trimStart s in
  let '(sign, s2) :=
    match s1 with
    | String "-" r => (-1, r)
    | String "+" r => (1, r)
    | _ => (1, s1)
    end in
  let '(radix, s3) :=
    match s2 with
    | String "0" (String "x" r) => (16, r)
    | String "0" (String "X" r) => (16, r)
    | _ => (10, s2)
    end in
  match span (isRadixDigit radix) s3 with
  | (EmptyString, _) => None
  | (ds, _) => Some (sign * digitsValue radix 0 ds)
  end.

(** [x || d] on a number: [NaN] and [0] are falsy. *)
Definition numOr (x : option Z) (d : Z) : Z :=
  match x with
  | Some v => if v =? 0 then d else v
  | None => d
  end.

(** [s || d] on a string: the empty string is falsy. *)
Definition strOr (s d : string) : string :=
  match s with EmptyString => d | _ => s end.

(** Numeric comparisons against a possibly-[NaN] left operand. *)
Definition geN (x : option Z) (y : Z) : bool :=
  match x with Some v => y <=? v | None => false end.
Definition ltN (x : option Z) (y : Z) : bool :=
  match x with Some v => v <? y | None => false end.

End Js.

(* ===================================================================== *)
(** * lib/types/flight.ts: the data model *)
(* ===================================================================== *)

Inductive Cabin := ECONOMY | PREMIUM_ECONOMY | BUSINESS | FIRST.

Global Instance Cabin_eq_dec : EqDecision Cabin.
Proof. solve_decision. Defined.

Record SegmentPoint := {
  iataCode : string;
  at_ : string;                       (* ISO 8601 datetime *)
  sp_terminal : option string
}.

Record FlightSegment := {
  seg_id : string;
  seg_departure : SegmentPoint;
  seg_arrival : SegmentPoint;
  carrierCode : string;
  number : string;
  seg_duration : string;              (* ISO 8601 duration, as in PT10H30M *)
  numberOfStops : Z
}.

Record FlightPoint := {
  airport : string;
  time : string;
  terminal : option string
}.

(** [ProcessedFlight]; the retained upstream offer ([rawOffer]) and the
    display label ([bestAtTime]) are not read by any function below and are
    left out. *)
Record ProcessedFlight := {
  flight_id : string;
  departure : FlightPoint;
  arrival : FlightPoint;
  duration : string;                  (* total duration of the itinerary *)
  stops : Z;
  airlines : list string;
  price : Q;
  currency : string;
  cabin : Cabin;
  departureDate : string;
  segments : list FlightSegment
}.

Inductive SortKey := ByPrice | ByDuration | ByDeparture | ByArrival | ByStops.
Inductive SortOrder := Asc | Desc.

Record TimeRange := { start : Z; end_ : Z }.

(** [Partial<FilterState>]: every field may be [undefined]. *)
Record FilterState := {
  maxPrice : option Q;
  minPrice : option Q;
  selectedAirlines : option (list string);
  departureTimeRange : option TimeRange;
  arrivalTimeRange : option TimeRange;
  maxStops : option Z;
  maxDuration : option Z;
  sortBy : option SortKey;
  sortOrder : option SortOrder;
  cabins : option (list Cabin)
}.

(* ===================================================================== *)
(** * lib/utils/flight-utils.ts *)
(* ===================================================================== *)

Module FlightUtils.

(** ** Duration codec *)

(** One optional group [(\d+U)?] of the pattern, tried at the head of [s]:
    the captured text, if the group takes part in the match, and the rest
    of the input.  The digits are matched greedily; giving some of them
    back cannot help, since the unit letter is not a digit. *)
Definition optGroup (u : ascii) (s : string) : option string * string :=
  match Js.span Js.isDigit s with
  | (String d ds, String c rest) =>
      if Ascii.eqb c u
      then (Some (String d ds ++ String u EmptyString)%string, rest)
      else (None, s)
  | _ => (None, s)
  end.

(** [duration.match(/PT(\d+H)?(\d+M)?/)]: the groups of the leftmost
    match, [None] when the pattern matches nowhere ([null]). *)
Fixpoint matchDuration (s : string) : option (option string * option string) :=
  match s with
  | EmptyString => None
  | String c r =>
      if Js.startsWith s "PT"
      then
        let after := match r with String _ t => t | EmptyString => EmptyString end in
        let '(g1, rest) := optGroup "H" after in
        let '(g2, _) := optGroup "M" rest in
        Some (g1, g2)
      else matchDuration r
  end.

(** [durationToMinutes]: "PT10H30M" gives 630.  The result is given as an
    integer.  It is the number of the engine as long as the hours times
    60 plus the minutes stay below [2 ^ 53], as they do when no group
    has more than 14 digits; beyond that the engine's numbers are
    rounded, and the properties of the codec are stated within the
    bound. *)
Definition durationToMinutes (duration : string) : Z :=
  let m := matchDuration duration in
  let hours :=
    Js.numOr (Js.parseInt (default "0" (m ≫= fst))) 0 in
  let minutes :=
    Js.numOr (Js.parseInt (default "0" (m ≫= snd))) 0 in
  hours * 60 + minutes.

Section WithDate.

(** The host's [Date]: [new Date(s).getHours()] and
    [new Date(s).getTime()], [None] for an invalid date ([NaN]). *)
Variable getHours : string -> option Z.
Variable getTime : string -> option Z.

(** [extractHour] *)
Definition extractHour (isoDateTime : string) : option Z :=
  getHours isoDateTime.

(** ** Filters *)

Definition filterByPrice (flights : list ProcessedFlight)
    (minPrice maxPrice : Q) : list ProcessedFlight :=
  List.filter
    (fun flight => Qle_bool minPrice (price flight)
                   && Qle_bool (price flight) maxPrice)
    flights.

Definition filterByStops (flights : list ProcessedFlight)
    (maxStops : Z) : list ProcessedFlight :=
  List.filter (fun flight => stops flight <=? maxStops) flights.

(** [xs.includes(x)] on an array of strings. *)
Definition includesStr (xs : list string) (x : string) : bool :=
  existsb (String.eqb x) xs.

Definition filterByAirlines (flights : list ProcessedFlight)
    (airlines_ : list string) : list ProcessedFlight :=
  match airlines_ with
  | [] => flights
  | _ =>
      List.filter
        (fun flight => existsb (fun airline => includesStr airlines_ airline)
                               (airlines flight))
        flights
  end.

Definition hourInRange (hour : option Z) (startHour endHour : Z) : bool :=
  if startHour <=? endHour
  then Js.geN hour startHour && Js.ltN hour endHour
  else (* ranges that cross midnight *)
    Js.geN hour startHour || Js.ltN hour endHour.

Definition filterByDepartureTime (flights : list ProcessedFlight)
    (startHour endHour : Z) : list ProcessedFlight :=
  List.filter
    (fun flight =>
       hourInRange (extractHour (time (departure flight))) startHour endHour)
    flights.

Definition filterByArrivalTime (flights : list ProcessedFlight)
    (startHour endHour : Z) : list ProcessedFlight :=
  List.filter
    (fun flight =>
       hourInRange (extractHour (time (arrival flight))) startHour endHour)
    flights.

Definition includesCabin (xs : list Cabin) (x : Cabin) : bool :=
  existsb (fun y => bool_decide (y = x)) xs.

Definition filterByCabin (flights : list ProcessedFlight)
    (cabins_ : list Cabin) : list ProcessedFlight :=
  match cabins_ with
  | [] => flights
  | _ => List.filter (fun flight => includesCabin cabins_ (cabin flight)) flights
  end.

(** [flight.segments[0]?.duration || "PT0M"] *)
Definition firstSegmentDuration (flight : ProcessedFlight) : string :=
  Js.strOr (default EmptyString (seg_duration <$> head (segments flight))) "PT0M".

Definition filterByDuration (flights : list ProcessedFlight)
    (maxDuration : Z) : list ProcessedFlight :=
  List.filter
    (fun flight =>
       let minutes := durationToMinutes (firstSegmentDuration flight) in
       minutes <=? maxDuration)
    flights.

(** [applyFilters]: each [if] of the source is one step of the chain; a
    step whose guard fails leaves [filtered] as it is. *)
Definition applyFilters (flights : list ProcessedFlight)
    (filters : FilterState) : list ProcessedFlight :=
  let filtered := flights in                       (* [...flights] *)
  let filtered :=
    match minPrice filters, maxPrice filters with
    | Some lo, Some hi => filterByPrice filtered lo hi
    | _, _ => filtered
    end in
  let filtered :=
    match maxStops filters with
    | Some m => filterByStops filtered m
    | None => filtered
    end in
  let filtered :=
    match selectedAirlines filters with
    | Some (a :: l) => filterByAirlines filtered (a :: l)
    | _ => filtered
    end in
  let filtered :=
    match departureTimeRange filters with
    | Some r => filterByDepartureTime filtered (start r) (end_ r)
    | None => filtered
    end in
  let filtered :=
    match arrivalTimeRange filters with
    | Some r => filterByArrivalTime filtered (start r) (end_ r)
    | None => filtered
    end in
  let filtered :=
    match maxDuration filters with
    | Some d => filterByDuration filtered d
    | None => filtered
    end in
  let filtered :=
    match cabins filters with
    | Some (c :: l) => filterByCabin filtered (c :: l)
    | _ => filtered
    end in
  filtered.

(** ** Sorting *)

(** The comparator handed to [Array.prototype.sort]; [None] is [NaN]
    (a timestamp of an invalid date). *)
Definition compareFn (sortBy : SortKey) (factor : Z)
    (a b : ProcessedFlight) : option Q :=
  match sortBy with
  | ByPrice => Some ((price a - price b) * inject_Z factor)%Q
  | ByDuration =>
      let aDuration := durationToMinutes (firstSegmentDuration a) in
      let bDuration := durationToMinutes (firstSegmentDuration b) in
      Some (inject_Z ((aDuration - bDuration) * factor))
  | ByDeparture =>
      aTime ← getTime (time (departure a));
      bTime ← getTime (time (departure b));
      Some (inject_Z ((aTime - bTime) * factor))
  | ByArrival =>
      aArrival ← getTime (time (arrival a));
      bArrival ← getTime (time (arrival b));
      Some (inject_Z ((aArrival - bArrival) * factor))
  | ByStops => Some (inject_Z ((stops a - stops b) * factor))
  end.

(** [Array.prototype.sort] is specified as a stable sort that reads a
    [NaN] comparator result as [+0]; for a consistent comparator every
    conforming engine returns the list computed here, a stable insertion
    sort that puts [x] in front of the first element it precedes. *)
Section ArraySort.
Context {A : Type} (comparefn : A -> A -> option Q).

Definition precedes (x y : A) : bool :=
  match comparefn x y with
  | Some v => negb (Qle_bool 0 v)
  | None => false
  end.

Fixpoint insertSorted (x : A) (l : list A) : list A :=
  match l with
  | [] => [x]
  | y :: r => if precedes x y then x :: y :: r else y :: insertSorted x r
  end.

Definition arraySort (l : list A) : list A :=
  fold_left (fun acc x => insertSorted x acc) l [].
End ArraySort.

Definition sortFlights (flights : list ProcessedFlight)
    (sortBy : SortKey) (order : SortOrder) : list ProcessedFlight :=
  let sorted := flights in                         (* [...flights] *)
  let factor := match order with Asc => 1 | Desc => -1 end in
  arraySort (compareFn sortBy factor) sorted.

End WithDate.

End FlightUtils.

(* ===================================================================== *)
(** * A reference host for the worked examples *)
(* ===================================================================== *)

(** [Date] on a host whose local zone is UTC, for the two ISO forms the
    application handles: [YYYY-MM-DD] and [YYYY-MM-DDTHH:mm:ss]. *)
Module IsoDate.

Definition digitsAt (s : string) (pos n : nat) : option Z :=
  let t := String.substring pos n s in
  if (String.length t =? n)%nat && forallb Js.isDigit (list_ascii_of_string t)
  then Some (Js.digitsValue 10 0 t)
  else None.

Definition charAt (s : string) (pos : nat) : option ascii := String.get pos s.

(** Days since 1970-01-01 of a proleptic Gregorian date. *)
Definition daysFromCivil (y m d : Z) : Z :=
  let y' := if m <=? 2 then y - 1 else y in
  let era := y' / 400 in
  let yoe := y' - era * 400 in
  let mp := (m + 9) mod 12 in
  let doy := (153 * mp + 2) / 5 + d - 1 in
  let doe := yoe * 365 + yoe / 4 - yoe / 100 + doy in
  era * 146097 + doe - 719468.

Definition parseDay (s : string) : option Z :=
  y ← digitsAt s 0 4;
  m ← digitsAt s 5 2;
  d ← digitsAt s 8 2;
  if bool_decide (charAt s 4 = Some "-"%char) && bool_decide (charAt s 7 = Some "-"%char)
     && (1 <=? m) && (m <=? 12) && (1 <=? d) && (d <=? 31)
  then Some (daysFromCivil y m d)
  else None.

Definition parseClock (s : string) : option (Z * Z * Z) :=
  match String.length s with
  | 10%nat => Some (0, 0, 0)
  | 19%nat =>
      h ← digitsAt s 11 2;
      mi ← digitsAt s 14 2;
      se ← digitsAt s 17 2;
      if bool_decide (charAt s 10 = Some "T"%char)
         && bool_decide (charAt s 13 = Some ":"%char)
         && bool_decide (charAt s 16 = Some ":"%char)
         && (h <? 24) && (mi <? 60) && (se <? 60)
      then Some (h, mi, se)
      else None
  | _ => None
  end.

Definition getTime (s : string) : option Z :=
  day ← parseDay s;
  '(h, mi, se) ← parseClock s;
  Some (((day * 24 + h) * 60 + mi) * 60000 + se * 1000).

Definition getHours (s : string) : option Z :=
  _ ← parseDay s;
  '(h, _, _) ← parseClock s;
  Some h.

End IsoDate.

(* ===================================================================== *)
(** * Arrays as objects: [applyFilters] over a store *)
(* ===================================================================== *)

(** A JavaScript array is an object behind a reference.  To speak about
    mutation, the arrays of flights live in a store addressed by their
    position; [[...xs]] and [xs.filter(p)] allocate a fresh array, and no
    operation used by [applyFilters] writes to an existing one. *)
Module ArrayStore.
Import FlightUtils.

Abbreviation Ref := nat.
Abbreviation Store := (list (list ProcessedFlight)).

Definition read (h : Store) (r : Ref) : list ProcessedFlight :=
  default [] (h !! r).

Definition alloc (h : Store) (a : list ProcessedFlight) : Store * Ref :=
  ((h ++ [a])%list, length h).

Section WithDate.
Variable getHours : string -> option Z.

(** [[...flights]] *)
Definition spread (h : Store) (r : Ref) : Store * Ref := alloc h (read h r).

Definition filterByPrice (h : Store) (r : Ref) (lo hi : Q) : Store * Ref :=
  alloc h (FlightUtils.filterByPrice (read h r) lo hi).

Definition filterByStops (h : Store) (r : Ref) (m : Z) : Store * Ref :=
  alloc h (FlightUtils.filterByStops (read h r) m).

(** [if (airlines.length === 0) return flights;] hands back the argument
    itself, not a copy. *)
Definition filterByAirlines (h : Store) (r : Ref) (l : list string) : Store * Ref :=
  match l with
  | [] => (h, r)
  | _ => alloc h (FlightUtils.filterByAirlines (read h r) l)
  end.

Definition filterByDepartureTime (h : Store) (r : Ref) (s e : Z) : Store * Ref :=
  alloc h (FlightUtils.filterByDepartureTime getHours (read h r) s e).

Definition filterByArrivalTime (h : Store) (r : Ref) (s e : Z) : Store * Ref :=
  alloc h (FlightUtils.filterByArrivalTime getHours (read h r) s e).

Definition filterByDuration (h : Store) (r : Ref) (d : Z) : Store * Ref :=
  alloc h (FlightUtils.filterByDuration (read h r) d).

Definition filterByCabin (h : Store) (r : Ref) (l : list Cabin) : Store * Ref :=
  match l with
  | [] => (h, r)
  | _ => alloc h (FlightUtils.filterByCabin (read h r) l)
  end.

Definition applyFilters (h : Store) (flights : Ref) (filters : FilterState)
    : Store * Ref :=
  let '(h, filtered) := spread h flights in
  let '(h, filtered) :=
    match minPrice filters, maxPrice filters with
    | Some lo, Some hi => filterByPrice h filtered lo hi
    | _, _ => (h, filtered)
    end in
  let '(h, filtered) :=
    match maxStops filters with
    | Some m => filterByStops h filtered m
    | None => (h, filtered)
    end in
  let '(h, filtered) :=
    match selectedAirlines filters with
    | Some (a :: l) => filterByAirlines h filtered (a :: l)
    | _ => (h, filtered)
    end in
  let '(h, filtered) :=
    match departureTimeRange filters with
    | Some r => filterByDepartureTime h filtered (start r) (end_ r)
    | None => (h, filtered)
    end in
  let '(h, filtered) :=
    match arrivalTimeRange filters with
    | Some r => filterByArrivalTime h filtered (start r) (end_ r)
    | None => (h, filtered)
    end in
  let '(h, filtered) :=
    match maxDuration filters with
    | Some d => filterByDuration h filtered d
    | None => (h, filtered)
    end in
  let '(h, filtered) :=
    match cabins filters with
    | Some (c :: l) => filterByCabin h filtered (c :: l)
    | _ => (h, filtered)
    end in
  (h, filtered).

End WithDate.
End ArrayStore.

(* ===================================================================== *)
(** * app/api/airports/route.ts: the fuzzy matcher *)
(* ===================================================================== *)

Module AirportsRoute.

(** [Math.min(a, b, c)] and [Math.max(a, b)] *)
Definition min3 (a b c : Z) : Z := Z.min (Z.min a b) c.
Definition mathMax (a b : Q) : Q := if Qle_bool a b then b else a.

(** One pass of the inner loop: [prev] is the part of row [i-1] from column
    [j-1] on, [left] is [matrix[i][j-1]], [s1] the characters of [s1] from
    index [j-1] on; the result is row [i] from column [j] on. *)
Fixpoint fillRow (c2 : ascii) (s1 : string) (prev : list Z) (left : Z) : list Z :=
  match s1, prev with
  | String c1 s1', diag :: ((up :: _) as prev') =>
      let v :=
        if Ascii.eqb c2 c1 then diag
        else min3 (diag + 1)       (* substitution *)
                  (left + 1)       (* insertion *)
                  (up + 1)         (* deletion *) in
      v :: fillRow c2 s1' prev' v
  | _, _ => []
  end.

(** Row 0: [matrix[0][j] = j] for [j] from 0 to [s1.length]. *)
Fixpoint firstRow (j : Z) (s1 : string) : list Z :=
  match s1 with
  | EmptyString => [j]
  | String _ r => j :: firstRow (j + 1) r
  end.

(** Rows [i], [i+1], ... for the remaining characters of [s2], given row
    [i-1]; column 0 of row [i] is [i]. *)
Fixpoint fillRows (s1 : string) (prev : list Z) (i : Z) (s2 : string)
    : list (list Z) :=
  match s2 with
  | EmptyString => []
  | String c2 r =>
      let row := i :: fillRow c2 s1 prev i in
      row :: fillRows s1 row (i + 1) r
  end.

Definition buildMatrix (s1 s2 : string) : list (list Z) :=
  let row0 := firstRow 0 s1 in
  row0 :: fillRows s1 row0 1 s2.

(** [levenshteinDistance]: [matrix[s2.length][s1.length]]. *)
Definition levenshteinDistance (s1 s2 : string) : Z :=
  default 0 (buildMatrix s1 s2 !! String.length s2 ≫= (.!! String.length s1)).

(** [fuzzyScore] *)
Definition fuzzyScore (needle haystack : string) : Q :=
  let needle := Js.toLowerCase needle in
  let haystack := Js.toLowerCase haystack in
  if String.eqb needle haystack then 1                 (* exact match *)
  else if Js.startsWith haystack needle then 9 # 10    (* 0.9 *)
  else if Js.includes haystack needle then 7 # 10      (* 0.7 *)
  else
    let maxLen := Z.max (Js.len needle) (Js.len haystack) in
    let distance := levenshteinDistance needle haystack in
    let similarity := (1 - inject_Z distance / inject_Z maxLen)%Q in
    mathMax 0 (similarity * (1 # 2))%Q.

(** The text-book edit distance, for comparison with the matrix above:
    the least number of single-character insertions, deletions and
    substitutions turning one string into the other. *)
Fixpoint editDistance (s : string) : string -> Z :=
  fix inner (t : string) : Z :=
    match s, t with
    | EmptyString, _ => Js.len t
    | _, EmptyString => Js.len s
    | String a s', String b t' =>
        min3 (editDistance s' t' + (if Ascii.eqb a b then 0 else 1))
             (inner t' + 1)
             (editDistance s' t + 1)
    end.

End AirportsRoute.

(* ===================================================================== *)
(** * app/api/flights/route.ts: validation and the GET handler *)
(* ===================================================================== *)

Inductive Result (E A : Type) :=
| Ok (a : A)
| Throw (e : E).
Arguments Ok {E A} a.
Arguments Throw {E A} e.

Module FlightsRoute.

(** [/^[A-Z]{3}$/] *)
Definition isThreeUpper (s : string) : bool :=
  match s with
  | String a (String b (String c EmptyString)) =>
      Js.isUpper a && Js.isUpper b && Js.isUpper c
  | _ => false
  end.

(** [/^\d{4}-\d{2}-\d{2}$/] *)
Definition isDatePattern (s : string) : bool :=
  match list_ascii_of_string s with
  | [y1; y2; y3; y4; d1; m1; m2; d2; a1; a2] =>
      forallb Js.isDigit [y1; y2; y3; y4; m1; m2; a1; a2]
      && Ascii.eqb d1 "-" && Ascii.eqb d2 "-"
  | _ => false
  end.

(** The validated object, [z.infer<typeof flightSearchSchema>]. *)
Record FlightSearchInput := {
  departure : string;
  arrival : string;
  departDate : string;
  returnDate : option string;
  adults : Z;
  children : Z;
  max : Z
}.

(** [SearchParams] as built for the client. *)
Record SearchParams := {
  sp_departure : string;
  sp_arrival : string;
  sp_departDate : string;
  sp_adults : Z;
  sp_children : Z;
  sp_max : Z
}.

Record ParseResult := {
  valid : bool;
  data : option FlightSearchInput;
  errors : option (list (string * string))
}.

Inductive JsonBody :=
| Failure (error : string) (message : option string)
          (details : option (list (string * string)))
| Success (flights : list ProcessedFlight) (count : Z)
          (searchParams : FlightSearchInput) (timestamp : string).

Record HttpResponse := {
  status : Z;
  body : JsonBody;
  cacheControl : option string
}.

(** [queryParams.get(name)]: the first value under that name, or [null]. *)
Fixpoint get (queryParams : list (string * string)) (name : string) : option string :=
  match queryParams with
  | [] => None
  | (k, v) :: r => if String.eqb k name then Some v else get r name
  end.

Section Handler.

(** [new Date(s)] as a number ([None]: invalid date), the instant of
    today's local midnight, and the time stamp of the response. *)
Variable dateValue : string -> option Z.
Variable todayStart : Z.
Variable nowISO : string.

(** [getAmadeusClient()] and its [searchFlights]: [None] when the client
    cannot be constructed, otherwise the outcome of the search, an error
    being represented by its message. *)
Variable client : option (SearchParams -> Result string (list ProcessedFlight)).

(** The schema of an airport code: the length checks and the pattern are
    tested on the input as it was received, and the transform runs on an
    input that has passed them. *)
Definition codeSchema (val : string) : option string :=
  if (3 <=? Js.len val) && (Js.len val <=? 3) && isThreeUpper val
  then Some (Js.toUpperCase val)
  else None.

Definition notBeforeToday (date : string) : bool :=
  match dateValue date with
  | Some d => todayStart <=? d
  | None => false
  end.

Definition departDateSchema (val : string) : option string :=
  if isDatePattern val && notBeforeToday val then Some val else None.

(** A string turned into a number with [parseInt], then range-checked;
    [NaN] fails both comparisons. *)
Definition intSchema (lo hi : Z) (val : string) : option Z :=
  match Js.parseInt val with
  | Some n => if (lo <=? n) && (n <=? hi) then Some n else None
  | None => None
  end.

(** [flightSearchSchema.parse(rawData)]: [None] stands for the thrown
    [ZodError].  [rawData] carries no [returnDate], and the optional
    field accepts its absence. *)
Definition flightSearchSchema (rawDeparture rawArrival rawDepartDate
    rawAdults rawChildren rawMax : string) : option FlightSearchInput :=
  dep ← codeSchema rawDeparture;
  arr ← codeSchema rawArrival;
  dd ← departDateSchema rawDepartDate;
  ad ← intSchema 1 9 rawAdults;
  ch ← intSchema 0 8 rawChildren;
  mx ← intSchema 1 250 rawMax;
  Some {| departure := dep; arrival := arr; departDate := dd;
          returnDate := None; adults := ad; children := ch; max := mx |}.

Definition parseSearchParams (queryParams : list (string * string)) : ParseResult :=
  let raw name dflt := Js.strOr (default EmptyString (get queryParams name)) dflt in
  match flightSearchSchema (raw "departure" "") (raw "arrival" "")
          (raw "departDate" "") (raw "adults" "1") (raw "children" "0")
          (raw "max" "50") with
  | Some validated => {| valid := true; data := Some validated; errors := None |}
  | None => {| valid := false; data := None; errors := Some [] |}
  end.

Definition buildSearchParams (validated : FlightSearchInput) : SearchParams :=
  {| sp_departure := departure validated;
     sp_arrival := arrival validated;
     sp_departDate := departDate validated;
     sp_adults := adults validated;
     sp_children := children validated;
     sp_max := max validated |}.

Definition json (st : Z) (b : JsonBody) : HttpResponse :=
  {| status := st; body := b; cacheControl := None |}.

(** The GET handler. *)
Definition GET (queryParams : list (string * string)) : HttpResponse :=
  let parseResult := parseSearchParams queryParams in
  match valid parseResult, data parseResult with
  | true, Some validatedParams =>
      let searchParams_ := buildSearchParams validatedParams in
      match client with
      | None =>
          json 500 (Failure "API configuration error"
                      (Some "Failed to initialize flight search service") None)
      | Some searchFlights =>
          match searchFlights searchParams_ with
          | Throw errorMessage =>
              if Js.includes errorMessage "Rate limit" then
                json 429 (Failure "Rate limit exceeded"
                  (Some "Too many requests. Please try again in a few minutes.") None)
              else if Js.includes errorMessage "Authentication" then
                json 401 (Failure "Authentication failed"
                  (Some "Failed to authenticate with flight search service") None)
              else if Js.includes errorMessage "timeout" then
                json 504 (Failure "Request timeout"
                  (Some "Flight search service took too long to respond") None)
              else
                json 400 (Failure "Search failed" (Some errorMessage) None)
          | Ok flights =>
              {| status := 200;
                 body := Success flights (Z.of_nat (length flights))
                           validatedParams nowISO;
                 cacheControl :=
                   Some "public, s-maxage=300, stale-while-revalidate=600" |}
          end
      end
  | _, _ =>
      json 400 (Failure "Validation failed" None (errors parseResult))
  end.

End Handler.
End FlightsRoute.

(* ===================================================================== *)
(** * lib/api/amadeus.ts: the gateway client *)
(* ===================================================================== *)

Module Amadeus.

(** ** Values and errors *)

#[local] Set Warnings "-register-all".

(** What [JSON.parse] delivers, and [undefined]. *)
Inductive JsVal :=
| VUndefined
| VNull
| VBool (b : bool)
| VNum (n : Z)
| VStr (s : string)
| VArr (items : list JsVal)
| VObj (fields : list (string * JsVal)).

Record JsError := { name : string; message : string }.

Definition Error (msg : string) : JsError :=
  {| name := "Error"; message := msg |}.

(** Errors raised by the platform.  Their texts are those of the Node.js
    runtime; the development only relies on what kind of error is raised. *)
Definition bodyUsedError : JsError :=
  {| name := "TypeError";
     message := "Body is unusable: Body has already been read" |}.
Definition jsonSyntaxError : JsError :=
  {| name := "SyntaxError"; message := "Unexpected end of JSON input" |}.
Definition abortError : JsError :=
  {| name := "AbortError"; message := "This operation was aborted" |}.
Definition nullAccessError : JsError :=
  {| name := "TypeError"; message := "Cannot read properties of null" |}.
Definition notAFunctionError : JsError :=
  {| name := "TypeError"; message := "(intermediate value).filter is not a function" |}.

(** Truthiness. *)
Definition truthy (v : JsVal) : bool :=
  match v with
  | VUndefined | VNull => false
  | VBool b => b
  | VNum n => negb (n =? 0)
  | VStr s => negb (String.eqb s "")
  | VArr _ | VObj _ => true
  end.

Definition nullish (v : JsVal) : bool :=
  match v with VUndefined | VNull => true | _ => false end.

Fixpoint lookupField (fields : list (string * JsVal)) (key : string) : JsVal :=
  match fields with
  | [] => VUndefined
  | (k, v) :: r => if String.eqb k key then v else lookupField r key
  end.

(** [v.key] for one of the keys the client reads, on a value that is not
    [null] or [undefined]: only objects carry them. *)
Definition prop (v : JsVal) (key : string) : JsVal :=
  match v with
  | VObj fields => lookupField fields key
  | _ => VUndefined
  end.

(** [v?.key] *)
Definition optProp (v : JsVal) (key : string) : JsVal :=
  if nullish v then VUndefined else prop v key.

(** [v[0]] on a value that is not [null] or [undefined]. *)
Definition first (v : JsVal) : JsVal :=
  match v with
  | VArr (x :: _) => x
  | VStr (String c _) => VStr (String c EmptyString)
  | VObj fields => lookupField fields "0"
  | _ => VUndefined
  end.

(** [a || b] *)
Definition orElse (a b : JsVal) : JsVal := if truthy a then a else b.

Definition joinWith (sep : string) (parts : list string) : string :=
  match parts with
  | [] => ""
  | p :: r => fold_left (fun acc x => acc ++ sep ++ x)%string r p
  end.

(** [String(v)] *)
Fixpoint toString (v : JsVal) : string :=
  match v with
  | VUndefined => "undefined"
  | VNull => "null"
  | VBool true => "true"
  | VBool false => "false"
  | VNum n => pretty n
  | VStr s => s
  | VArr items =>
      joinWith ","
        (List.map (fun x => if nullish x then "" else toString x) items)
  | VObj _ => "[object Object]"
  end.

(** [formatError] *)
Definition formatError (error : JsVal) : string :=
  let fallback := "An error occurred with the Amadeus API" in
  match error with
  | VArr _ | VObj _ =>
      let err := error in
      let fromErrors :=
        match prop err "errors" with
        | VArr items =>
            let firstError := first (VArr items) in
            let detail := optProp firstError "detail" in
            if truthy detail then Some (toString detail) else None
        | _ => None
        end in
      match fromErrors with
      | Some s => s
      | None =>
          if truthy (prop err "title") then toString (prop err "title")
          else if truthy (prop err "message") then toString (prop err "message")
          else fallback
      end
  | _ => fallback
  end.

(** ** Configuration *)

Record Config := {
  TOKEN_BUFFER : Z;
  CACHE_TTL : Z;
  RATE_LIMIT : Z;
  RATE_LIMIT_WINDOW : Z;
  REQUEST_TIMEOUT : Z;
  MAX_RETRIES : Z
}.

(** The values of the class. *)
Definition defaultConfig : Config :=
  {| TOKEN_BUFFER := 60000;
     CACHE_TTL := 5 * 60 * 1000;
     RATE_LIMIT := 30;
     RATE_LIMIT_WINDOW := 60 * 1000;
     REQUEST_TIMEOUT := 30000;
     MAX_RETRIES := 3 |}.

(** ** The client's state and its environment *)

Record CachedToken := { token : string; expiresAt : Z }.
Record RateLimitInfo := { requestCount : Z; resetTime : Z }.
Record CacheEntry := { data : JsVal; timestamp : Z }.

(** What the identity endpoint answers to the credential exchange. *)
Inductive TokenReply :=
| TokenUnreachable (e : JsError)                 (* [fetch] rejects *)
| TokenRejected (status : Z) (error : option JsVal)
                                                 (* not ok; the body, if it parses *)
| TokenGarbled (e : JsError)                     (* ok, but [json()] rejects *)
| TokenGranted (access_token : string) (expires_in : Z).

Inductive Body := Unparsable | Parsed (v : JsVal).

(** What the API answers to one HTTP attempt. *)
Inductive FetchReply :=
| Rejects (e : JsError)                          (* transport failure *)
| Hangs                                          (* no answer at all *)
| Responds (status : Z) (body : Body).

(** Steps of a call that the properties below speak about. *)
Inductive Event :=
| CacheLookup (key : string) (hit : bool)
| RateLimitCheck (key : string) (granted : bool)
| TokenRequest
| ApiRequest (url : string)
| Backoff (delay : Z)
| CacheStore (key : string).

(** The client object together with the world it runs in: the clock read
    by [Date.now()], the two upstream services (the n-th call to each
    takes the given number of milliseconds and yields the given reply),
    and the log of the steps taken. *)
Record World := {
  clock : Z;
  cachedToken : option CachedToken;
  rateLimitMap : gmap string RateLimitInfo;
  requestCache : gmap string CacheEntry;
  authCalls : nat;
  apiCalls : nat;
  authServer : nat -> Z * TokenReply;
  apiServer : nat -> string -> Z * FetchReply;
  trace : list Event
}.

Definition setClock (t : Z) (w : World) : World :=
  {| clock := t; cachedToken := cachedToken w; rateLimitMap := rateLimitMap w;
     requestCache := requestCache w; authCalls := authCalls w;
     apiCalls := apiCalls w; authServer := authServer w;
     apiServer := apiServer w; trace := trace w |}.

Definition setCachedToken (c : option CachedToken) (w : World) : World :=
  {| clock := clock w; cachedToken := c; rateLimitMap := rateLimitMap w;
     requestCache := requestCache w; authCalls := authCalls w;
     apiCalls := apiCalls w; authServer := authServer w;
     apiServer := apiServer w; trace := trace w |}.

Definition setRateLimitMap (m : gmap string RateLimitInfo) (w : World) : World :=
  {| clock := clock w; cachedToken := cachedToken w; rateLimitMap := m;
     requestCache := requestCache w; authCalls := authCalls w;
     apiCalls := apiCalls w; authServer := authServer w;
     apiServer := apiServer w; trace := trace w |}.

Definition setRequestCache (m : gmap string CacheEntry) (w : World) : World :=
  {| clock := clock w; cachedToken := cachedToken w; rateLimitMap := rateLimitMap w;
     requestCache := m; authCalls := authCalls w;
     apiCalls := apiCalls w; authServer := authServer w;
     apiServer := apiServer w; trace := trace w |}.

Definition setCalls (a b : nat) (w : World) : World :=
  {| clock := clock w; cachedToken := cachedToken w; rateLimitMap := rateLimitMap w;
     requestCache := requestCache w; authCalls := a;
     apiCalls := b; authServer := authServer w;
     apiServer := apiServer w; trace := trace w |}.

Definition logEvent (e : Event) (w : World) : World :=
  {| clock := clock w; cachedToken := cachedToken w; rateLimitMap := rateLimitMap w;
     requestCache := requestCache w; authCalls := authCalls w;
     apiCalls := apiCalls w; authServer := authServer w;
     apiServer := apiServer w; trace := (trace w ++ [e])%list |}.

(** ** Computations: state and exceptions *)

Definition M (A : Type) : Type := World -> Result JsError A * World.

Definition ret {A} (a : A) : M A := fun w => (Ok a, w).

Definition throw {A} (e : JsError) : M A := fun w => (Throw e, w).

Definition bind {A B} (m : M A) (k : A -> M B) : M B :=
  fun w =>
    match m w with
    | (Ok a, w') => k a w'
    | (Throw e, w') => (Throw e, w')
    end.

(** [try { m } catch (e) { handler e }] *)
Definition tryCatch {A} (m : M A) (handler : JsError -> M A) : M A :=
  fun w =>
    match m w with
    | (Ok a, w') => (Ok a, w')
    | (Throw e, w') => handler e w'
    end.

Definition gets {A} (f : World -> A) : M A := fun w => (Ok (f w), w).
Definition modify (f : World -> World) : M unit := fun w => (Ok tt, f w).

Declare Scope client_scope.
Delimit Scope client_scope with client.
Notation "'let!' x ':=' m 'in' k" := (bind m (fun x => k))
  (at level 10, x name, m at level 100, k at level 200) : client_scope.
Notation "m ';;' k" := (bind m (fun _ => k))
  (at level 100, k at level 200, right associativity) : client_scope.

(** [Date.now()] *)
Definition dateNow : M Z := gets clock.

(** Waiting: the clock moves on. *)
Definition elapse (ms : Z) : M unit := modify (fun w => setClock (clock w + ms) w).

Definition log (e : Event) : M unit := modify (logEvent e).


Local Open Scope client_scope.

(** Characters that [encodeURIComponent] leaves alone. *)
Definition unreserved (c : ascii) : bool :=
  Js.isDigit c || Js.isUpper c || Js.isLower c
  || existsb (Ascii.eqb c) (list_ascii_of_string "-_.!~*'()").

Definition hexDigit (n : Z) : ascii :=
  ascii_of_nat (Z.to_nat (if n <? 10 then 48 + n else 55 + n)).

(** [encodeURIComponent], byte by byte. *)
Fixpoint encodeURIComponent (s : string) : string :=
  match s with
  | EmptyString => EmptyString
  | String c r =>
      if unreserved c then String c (encodeURIComponent r)
      else String "%" (String (hexDigit (Js.code c / 16))
             (String (hexDigit (Js.code c mod 16)) (encodeURIComponent r)))
  end.

(** A [Response]: status, body, and whether the body has been read. *)
Record Response := {
  status : Z;
  body : Body;
  bodyUsed : bool
}.

Definition ok (r : Response) : bool := (200 <=? status r) && (status r <=? 299).

(** [response.json()]: the body of a response can be read once; a second
    read is rejected. *)
Definition json (r : Response) : Result JsError JsVal * Response :=
  if bodyUsed r then (Throw bodyUsedError, r)
  else
    let r' := {| status := status r; body := body r; bodyUsed := true |} in
    match body r with
    | Parsed v => (Ok v, r')
    | Unparsable => (Throw jsonSyntaxError, r')
    end.

(** Options of a request; [undefined] is [None].  No caller in the
    repository passes a body, so the cache key is built from the endpoint
    and the serialisation of the empty string. *)
Record RequestOptions := {
  retries : option Z;
  timeout : option Z
}.

Definition noOptions : RequestOptions := {| retries := None; timeout := None |}.

Section Client.

Variable cfg : Config.

(** [JSON.stringify], used for the text of an authentication error. *)
Variable JSON_stringify : JsVal -> string.

(** *** Token manager *)

(** The credential exchange: one call to the identity endpoint. *)
Definition fetchToken : M TokenReply :=
  log TokenRequest ;;
  let! n := gets authCalls in
  let! server := gets authServer in
  let '(latency, reply) := server n in
  modify (fun w => setCalls (S n) (apiCalls w) w) ;;
  elapse latency ;;
  ret reply.

(** The [try] block of [getToken] with its [catch]. *)
Definition refreshToken : M string :=
  tryCatch
    (let! reply := fetchToken in
     match reply with
     | TokenUnreachable e => throw e
     | TokenRejected st error =>
         throw (Error ("Authentication failed: " ++ pretty st ++ " "
                       ++ JSON_stringify (default (VObj []) error)))
     | TokenGarbled e => throw e
     | TokenGranted access_token expires_in =>
         let! now := dateNow in
         modify (setCachedToken
                   (Some {| token := access_token;
                            expiresAt := now + expires_in * 1000 |})) ;;
         ret access_token
     end)
    (fun error => throw (Error ("Amadeus auth error: " ++ message error))).

Definition getToken : M string :=
  let! now := dateNow in
  let! cached := gets cachedToken in
  match cached with
  | Some c =>
      if now <? expiresAt c - TOKEN_BUFFER cfg
      then ret (token c)                 (* cached token still valid *)
      else refreshToken
  | None => refreshToken
  end.

(** *** Rate limiter *)

(** The first half of [checkRateLimit]: the record fetched from the map
    or created on the spot, after the reset test. *)
Definition currentWindow (now : Z) (stored : option RateLimitInfo) : RateLimitInfo :=
  let info :=
    default {| requestCount := 0; resetTime := now + RATE_LIMIT_WINDOW cfg |}
            stored in
  if resetTime info <=? now
  then {| requestCount := 0; resetTime := now + RATE_LIMIT_WINDOW cfg |}
  else info.

(** [checkRateLimit].  The record obtained from the map is the object
    stored there, so a reset is visible in the map at once, also when
    the call is then refused; a record created on the spot enters the
    map only with [set]. *)
Definition checkRateLimit (key : string) : M bool :=
  let! now := dateNow in
  let! limits := gets rateLimitMap in
  let stored := limits !! key in
  let info := currentWindow now stored in
  let limits' :=
    match stored with
    | Some _ => <[key := info]> limits
    | None => limits
    end in
  if RATE_LIMIT cfg <=? requestCount info then
    modify (setRateLimitMap limits') ;;
    log (RateLimitCheck key false) ;;
    ret false
  else
    modify (setRateLimitMap
              (<[key := {| requestCount := requestCount info + 1;
                           resetTime := resetTime info |}]> limits')) ;;
    log (RateLimitCheck key true) ;;
    ret true.

(** [getRateLimitStatus]: used count, quota, milliseconds until reset. *)
Definition getRateLimitStatus (key : string) : M (Z * Z * Z) :=
  let! now := dateNow in
  let! limits := gets rateLimitMap in
  match limits !! key with
  | Some info =>
      ret (requestCount info, RATE_LIMIT cfg, Z.max 0 (resetTime info - now))
  | None => ret (0, RATE_LIMIT cfg, 0)
  end.

(** *** Retrying request *)

(** [fetchWithTimeout]: the attempt is aborted when no response has
    arrived within the time allowed. *)
Definition fetchWithTimeout (url : string) (options : RequestOptions) : M Response :=
  let timeout_ := Js.numOr (timeout options) (REQUEST_TIMEOUT cfg) in
  log (ApiRequest url) ;;
  let! n := gets apiCalls in
  let! server := gets apiServer in
  let '(latency, reply) := server n url in
  modify (fun w => setCalls (authCalls w) (S n) w) ;;
  match reply with
  | Hangs => elapse timeout_ ;; throw abortError
  | Rejects e =>
      if latency <? timeout_ then elapse latency ;; throw e
      else elapse timeout_ ;; throw abortError
  | Responds st b =>
      if latency <? timeout_
      then elapse latency ;; ret {| status := st; body := b; bodyUsed := false |}
      else elapse timeout_ ;; throw abortError
  end.

(** [${endpoint}${JSON.stringify(options.body || "")}] *)
Definition cacheKeyOf (endpoint : string) : string :=
  endpoint ++ String "034" (String "034" EmptyString).

(** [Math.pow(2, attempt) * 1000] *)
Definition backoffDelay (attempt : Z) : Z := 2 ^ attempt * 1000.

(** How one turn of the retry loop ends, unless it throws. *)
Inductive Turn :=
| Continue (lastError : option JsError)
| Return (data_ : JsVal).

(** [const data = await response.json(); ... return data] *)
Definition readAndStore (cacheKey : string) (response : Response) : M Turn :=
  match fst (json response) with
  | Throw e => throw e
  | Ok data_ =>
      let! now := dateNow in
      modify (fun w =>
        setRequestCache
          (<[cacheKey := {| data := data_; timestamp := now |}]> (requestCache w)) w) ;;
      log (CacheStore cacheKey) ;;
      ret (Return data_)
  end.

(** The body of the [try] of one attempt. *)
Definition attemptTry (endpoint cacheKey : string) (options : RequestOptions)
    (retries_ attempt : Z) : M Turn :=
  let! response := fetchWithTimeout endpoint options in
  if negb (ok response) then
    (* [await response.json().catch(() => ({}))] reads the body *)
    let '(parsed, response) := json response in
    let error := match parsed with Ok v => v | Throw _ => VObj [] end in
    let errorMessage := formatError error in
    (* Don't retry on 4xx errors (except 429) *)
    if negb (status response =? 429) && (status response <? 500) then
      throw (Error errorMessage)
    else
      let lastError := Error errorMessage in
      if attempt <? retries_ - 1 then
        log (Backoff (backoffDelay attempt)) ;;
        elapse (backoffDelay attempt) ;;
        ret (Continue (Some lastError))
      else
        readAndStore cacheKey response
  else
    readAndStore cacheKey response.

(** One attempt: the [try] and its [catch]. *)
Definition attemptOnce (endpoint cacheKey : string) (options : RequestOptions)
    (retries_ attempt : Z) : M Turn :=
  tryCatch
    (attemptTry endpoint cacheKey options retries_ attempt)
    (fun error =>
       let lastError := error in
       if attempt =? retries_ - 1 then throw lastError
       else
         log (Backoff (backoffDelay attempt)) ;;
         elapse (backoffDelay attempt) ;;
         ret (Continue (Some lastError))).

(** The [for] loop, with [remaining] turns left to run, and the [throw]
    that follows it. *)
Fixpoint attemptLoop (endpoint cacheKey : string) (options : RequestOptions)
    (retries_ : Z) (remaining : nat) (attempt : Z)
    (lastError : option JsError) : M JsVal :=
  match remaining with
  | O => throw (default (Error "Request failed after retries") lastError)
  | S remaining' =>
      let! turn := attemptOnce endpoint cacheKey options retries_ attempt in
      match turn with
      | Return data_ => ret data_
      | Continue lastError' =>
          attemptLoop endpoint cacheKey options retries_ remaining'
                      (attempt + 1) lastError'
      end
  end.

(** [request] *)
Definition request (endpoint : string) (options : RequestOptions) : M JsVal :=
  (* Check cache *)
  let cacheKey := cacheKeyOf endpoint in
  let! cached := gets (fun w => requestCache w !! cacheKey) in
  let! now := dateNow in
  let hit :=
    match cached with
    | Some c => now - timestamp c <? CACHE_TTL cfg
    | None => false
    end in
  log (CacheLookup cacheKey hit) ;;
  match cached, hit with
  | Some c, true => ret (data c)
  | _, _ =>
      (* Rate limiting *)
      let! granted := checkRateLimit "global" in
      if negb granted then
        throw (Error "Rate limit exceeded. Please wait before making another request.")
      else
        let! token_ := getToken in
        let retries_ := Js.numOr (retries options) (MAX_RETRIES cfg) in
        attemptLoop endpoint cacheKey options retries_ (Z.to_nat retries_) 0 None
  end.

(** *** Airports *)

Record Airport := {
  ap_iataCode : JsVal;
  ap_name : JsVal;
  ap_city : JsVal;
  ap_countryCode : JsVal
}.

Definition toAirport (airport : JsVal) : Airport :=
  {| ap_iataCode := prop airport "iataCode";
     ap_name := prop airport "name";
     ap_city := orElse (optProp (prop airport "address") "cityName") (VStr "");
     ap_countryCode :=
       orElse (optProp (prop airport "address") "countryCode") (VStr "") |}.

(** [(response.data || []).filter(a => a.iataCode).map(...)]: reading a
    property of a [null] element throws. *)
Fixpoint keepWithCode (items : list JsVal) : Result JsError (list Airport) :=
  match items with
  | [] => Ok []
  | a :: r =>
      if nullish a then Throw nullAccessError
      else
        match keepWithCode r with
        | Throw e => Throw e
        | Ok l => Ok (if truthy (prop a "iataCode") then toAirport a :: l else l)
        end
  end.

Definition liftResult {A} (r : Result JsError A) : M A :=
  match r with Ok a => ret a | Throw e => throw e end.

(** [searchAirports] *)
Definition searchAirports (keyword : string) : M (list Airport) :=
  tryCatch
    (let! response :=
       request ("/v1/reference-data/locations?subType=AIRPORT&keyword="
                ++ encodeURIComponent keyword) noOptions in
     if nullish response then throw nullAccessError else
     match orElse (prop response "data") (VArr []) with
     | VArr items => liftResult (keepWithCode items)
     | _ => throw notAFunctionError
     end)
    (fun error => throw (Error ("Airport search failed: " ++ message error))).

(** [getAirport]: the first match, or [None] for [null]. *)
Definition getAirport (iataCode : string) : M (option Airport) :=
  tryCatch
    (let! response :=
       request ("/v1/reference-data/locations?subType=AIRPORT&code="
                ++ encodeURIComponent iataCode) noOptions in
     if nullish response then throw nullAccessError else
     let data_ := prop response "data" in
     let airport := if nullish data_ then VUndefined else first data_ in
     if negb (truthy airport) then ret None
     else ret (Some (toAirport airport)))
    (fun error => ret None).                  (* logged, then [null] *)

(** [isValidAirport] *)
Definition isValidAirport (iataCode : string) : M bool :=
  let! airport := getAirport iataCode in
  ret (match airport with Some _ => true | None => false end).

(** *** Maintenance *)

(** [clearCache] *)
Definition clearCache : M unit := modify (setRequestCache ∅).

(** [clearTokenCache] *)
Definition clearTokenCache : M unit := modify (setCachedToken None).

(** [healthCheck] *)
Definition healthCheck : M bool :=
  tryCatch (getToken ;; ret true) (fun _ => ret false).

End Client.

End Amadeus.

(* ===================================================================== *)
(** * Predicates used in the statements, and sample data *)
(* ===================================================================== *)

Module Statements.
Import FlightUtils.

(** No two flights of the list have the same price. *)
Fixpoint distinctPrices (l : list ProcessedFlight) : Prop :=
  match l with
  | [] => True
  | a :: r => Forall (fun b => ~ (price a == price b)%Q) r /\ distinctPrices r
  end.

(** Both selection sets of the filter state are empty (or absent). *)
Definition selectionsEmpty (filters : FilterState) : Prop :=
  (selectedAirlines filters = None \/ selectedAirlines filters = Some [])
  /\ (cabins filters = None \/ cabins filters = Some []).

(** [hr] lies in the hour range, which wraps past midnight when its start
    is after its end. *)
Definition hourWithin (rg : TimeRange) (hr : Z) : Prop :=
  (start rg <= end_ rg -> start rg <= hr < end_ rg)
  /\ (end_ rg < start rg -> start rg <= hr \/ hr < end_ rg).

(** The flight lies inside every bound the filter state defines.  For the
    duration bound both the whole itinerary and its first leg are asked to
    fit. *)
Definition withinBounds (getHours : string -> option Z)
    (filters : FilterState) (f : ProcessedFlight) : Prop :=
  (forall lo hi, minPrice filters = Some lo -> maxPrice filters = Some hi ->
     (lo <= price f)%Q /\ (price f <= hi)%Q)
  /\ (forall m, maxStops filters = Some m -> stops f <= m)
  /\ (forall rg, departureTimeRange filters = Some rg ->
        exists hr, getHours (time (departure f)) = Some hr /\ hourWithin rg hr)
  /\ (forall rg, arrivalTimeRange filters = Some rg ->
        exists hr, getHours (time (arrival f)) = Some hr /\ hourWithin rg hr)
  /\ (forall d, maxDuration filters = Some d ->
        durationToMinutes (duration f) <= d
        /\ durationToMinutes (firstSegmentDuration f) <= d).

(** Orders on flights by price, and the relation of having different
    prices. *)
Definition cheaper (a b : ProcessedFlight) : Prop := (price a < price b)%Q.
Definition dearer (a b : ProcessedFlight) : Prop := (price b < price a)%Q.
Definition differ (a b : ProcessedFlight) : Prop := ~ (price a == price b)%Q.

(** [D] holds between every element and each later one. *)
Fixpoint pairwise {A : Type} (D : A -> A -> Prop) (l : list A) : Prop :=
  match l with
  | [] => True
  | a :: r => Forall (D a) r /\ pairwise D r
  end.

(** Relative to an initial store [h0]: the old cells are as they were,
    and the reference of [p] is a cell allocated since, holding [l]. *)
Definition fresh (h0 : list (list ProcessedFlight)) (l : list ProcessedFlight)
    (p : list (list ProcessedFlight) * nat) : Prop :=
  (forall a, (a < length h0)%nat -> fst p !! a = h0 !! a)
  /\ (length h0 <= snd p)%nat
  /\ (length h0 <= length (fst p))%nat
  /\ ArrayStore.read (fst p) (snd p) = l.

(** The price of substituting [b] for [a]. *)
Definition cost (a b : ascii) : Z := if Ascii.eqb a b then 0 else 1.

(** [s] followed by the character [c]. *)
Definition snoc (s : string) (c : ascii) : string :=
  (s ++ String c EmptyString)%string.

(** Row [Q] of the table of edit distances: the distances from [P],
    [P] extended by one character of [S], by two, ..., to [Q]. *)
Fixpoint levRow (Q P S : string) : list Z :=
  AirportsRoute.editDistance P Q ::
  match S with
  | EmptyString => []
  | String c S' => levRow Q (snoc P c) S'
  end.

(** A series of [checkRateLimit] calls for one key, the clock showing the
    given instants in turn: the answers and the final state. *)
Fixpoint acquireAll (cfg : Amadeus.Config) (key : string) (instants : list Z)
    (w : Amadeus.World) : list (Result Amadeus.JsError bool) * Amadeus.World :=
  match instants with
  | [] => ([], w)
  | t :: rest =>
      let '(answer, w') := Amadeus.checkRateLimit cfg key (Amadeus.setClock t w) in
      let '(answers, w'') := acquireAll cfg key rest w' in
      (answer :: answers, w'')
  end.

(** The first [n] answers of a limiter with quota [q] that starts from a
    count of [c]: granted as long as the count is below the quota. *)
Definition expectedAnswers (q c : Z) (n : nat) : list (Result Amadeus.JsError bool) :=
  List.map (fun i => Ok (c + Z.of_nat i <? q)) (seq 0 n).

End Statements.

Module Samples.

Definition leg (from to dep arr carrier dur : string) : FlightSegment :=
  {| seg_id := "1";
     seg_departure := {| iataCode := from; at_ := dep; sp_terminal := None |};
     seg_arrival := {| iataCode := to; at_ := arr; sp_terminal := None |};
     carrierCode := carrier;
     number := "100";
     seg_duration := dur;
     numberOfStops := 0 |}.

(** A direct flight. *)
Definition directFlight : ProcessedFlight :=
  {| flight_id := "1";
     departure := {| airport := "JFK"; time := "2024-02-15T08:00:00"; terminal := None |};
     arrival := {| airport := "LHR"; time := "2024-02-15T20:00:00"; terminal := None |};
     duration := "PT7H";
     stops := 0;
     airlines := ["BA"];
     price := 620;
     currency := "USD";
     cabin := ECONOMY;
     departureDate := "2024-02-15";
     segments := [leg "JFK" "LHR" "2024-02-15T08:00:00" "2024-02-15T20:00:00" "BA" "PT7H"] |}.

(** Two legs of five and six hours with a layover: twelve and a half
    hours in all. *)
Definition twoLegFlight : ProcessedFlight :=
  {| flight_id := "2";
     departure := {| airport := "JFK"; time := "2024-02-15T09:00:00"; terminal := None |};
     arrival := {| airport := "LHR"; time := "2024-02-16T02:30:00"; terminal := None |};
     duration := "PT12H30M";
     stops := 1;
     airlines := ["AA"; "BA"];
     price := 450;
     currency := "USD";
     cabin := ECONOMY;
     departureDate := "2024-02-15";
     segments :=
       [leg "JFK" "KEF" "2024-02-15T09:00:00" "2024-02-15T18:00:00" "AA" "PT5H";
        leg "KEF" "LHR" "2024-02-15T19:30:00" "2024-02-16T02:30:00" "BA" "PT6H"] |}.

(** Four legs, hence three stops. *)
Definition fourLegFlight : ProcessedFlight :=
  {| flight_id := "3";
     departure := {| airport := "JFK"; time := "2024-02-15T06:00:00"; terminal := None |};
     arrival := {| airport := "LHR"; time := "2024-02-15T23:00:00"; terminal := None |};
     duration := "PT12H";
     stops := 3;
     airlines := ["UA"];
     price := 300;
     currency := "USD";
     cabin := ECONOMY;
     departureDate := "2024-02-15";
     segments :=
       [leg "JFK" "BOS" "2024-02-15T06:00:00" "2024-02-15T07:00:00" "UA" "PT1H";
        leg "BOS" "YYZ" "2024-02-15T08:00:00" "2024-02-15T10:00:00" "UA" "PT2H";
        leg "YYZ" "KEF" "2024-02-15T11:00:00" "2024-02-15T16:00:00" "UA" "PT5H";
        leg "KEF" "LHR" "2024-02-15T17:00:00" "2024-02-15T23:00:00" "UA" "PT2H"] |}.

(** The filter state the pages start from and reset to: every bound at
    the top of its control, no airline and no cabin selected. *)
Definition resetFilters : FilterState :=
  {| maxStops := Some 2;
     minPrice := Some 0%Q;
     maxPrice := Some 10000%Q;
     selectedAirlines := Some [];
     departureTimeRange := Some {| start := 0; end_ := 24 |};
     arrivalTimeRange := Some {| start := 0; end_ := 24 |};
     maxDuration := Some 1440;
     sortBy := Some ByPrice;
     sortOrder := Some Asc;
     cabins := Some [] |}.

(** The same state without its bound on the stops. *)
Definition resetFiltersAnyStops : FilterState :=
  {| maxStops := None;
     minPrice := Some 0%Q;
     maxPrice := Some 10000%Q;
     selectedAirlines := Some [];
     departureTimeRange := Some {| start := 0; end_ := 24 |};
     arrivalTimeRange := Some {| start := 0; end_ := 24 |};
     maxDuration := Some 1440;
     sortBy := Some ByPrice;
     sortOrder := Some Asc;
     cabins := Some [] |}.

(** The query of [GET /flights?departure=JFK&arrival=lhr&departDate=2099-01-01&adults=2]
    and the same query with the arrival code in upper case. *)
Definition lowercaseArrivalQuery : list (string * string) :=
  [("departure", "JFK"); ("arrival", "lhr");
   ("departDate", "2099-01-01"); ("adults", "2")].

Definition uppercaseArrivalQuery : list (string * string) :=
  [("departure", "JFK"); ("arrival", "LHR");
   ("departDate", "2099-01-01"); ("adults", "2")].

(** Midnight of 2026-01-01 on the reference host, and a time stamp. *)
Definition sampleToday : Z := 1767225600000.
Definition sampleNowISO : string := "2026-01-01T10:00:00.000Z".

(** A client whose search succeeds with one flight. *)
Definition sampleClient
    : option (FlightsRoute.SearchParams -> Result string (list ProcessedFlight)) :=
  Some (fun _ => Ok [directFlight]).

(** ** Worlds for the gateway client *)

Import Amadeus.

(** The scenario of the specification: a quota of three per minute. *)
Definition quotaThree : Config :=
  {| TOKEN_BUFFER := 60000;
     CACHE_TTL := 5 * 60 * 1000;
     RATE_LIMIT := 3;
     RATE_LIMIT_WINDOW := 60 * 1000;
     REQUEST_TIMEOUT := 30000;
     MAX_RETRIES := 3 |}.

Definition stringifyStub (v : JsVal) : string := "{}".

(** An identity endpoint that grants a token good for 600 seconds, after
    100 ms. *)
Definition grantingAuth (n : nat) : Z * TokenReply :=
  (100, TokenGranted "token-1" 600).

Definition refusingAuth (n : nat) : Z * TokenReply :=
  (100, TokenRejected 401 (Some (VObj [("error", VStr "invalid_client")]))).

Definition jfkRecord : JsVal :=
  VObj [("iataCode", VStr "JFK"); ("name", VStr "JOHN F KENNEDY INTL");
        ("address", VObj [("cityName", VStr "NEW YORK"); ("countryCode", VStr "US")])].

Definition jfkPayload : JsVal := VObj [("data", VArr [jfkRecord])].

(** An API that answers every request with the JFK record, after 50 ms. *)
Definition healthyApi (n : nat) (url : string) : Z * FetchReply :=
  (50, Responds 200 (Parsed jfkPayload)).

Definition unavailableBody : JsVal :=
  VObj [("errors",
         VArr [VObj [("status", VNum 503); ("code", VNum 141);
                     ("title", VStr "SYSTEM ERROR HAS OCCURRED");
                     ("detail", VStr "Service unavailable")]])].

(** An API that answers every request with status 503 and an error
    envelope. *)
Definition unavailableApi (n : nat) (url : string) : Z * FetchReply :=
  (50, Responds 503 (Parsed unavailableBody)).

(** An API that answers the first request with status 404 and every
    later one with the JFK record. *)
Definition recoveringApi (n : nat) (url : string) : Z * FetchReply :=
  match n with
  | O => (50, Responds 404 (Parsed (VObj [("title", VStr "Not Found")])))
  | S _ => (50, Responds 200 (Parsed jfkPayload))
  end.

(** An API that never answers. *)
Definition silentApi (n : nat) (url : string) : Z * FetchReply := (0, Hangs).

(** An API that cannot be reached. *)
Definition unreachableApi (n : nat) (url : string) : Z * FetchReply :=
  (20, Rejects {| name := "TypeError"; message := "fetch failed" |}).

Definition newWorld (auth : nat -> Z * TokenReply)
    (api : nat -> string -> Z * FetchReply) : World :=
  {| clock := 0; cachedToken := None; rateLimitMap := ∅; requestCache := ∅;
     authCalls := 0; apiCalls := 0; authServer := auth; apiServer := api;
     trace := [] |}.

Definition jfkEndpoint : string :=
  "/v1/reference-data/locations?subType=AIRPORT&code=JFK".

(** A client that has already made five requests in the current window and
    holds a response for the JFK lookup, stored at instant 1000; the clock
    shows 2000. *)
Definition warmWorld : World :=
  {| clock := 2000;
     cachedToken := Some {| token := "token-1"; expiresAt := 600100 |};
     rateLimitMap := {[ "global" := {| requestCount := 5; resetTime := 60000 |} ]};
     requestCache :=
       {[ cacheKeyOf jfkEndpoint := {| data := jfkPayload; timestamp := 1000 |} ]};
     authCalls := 1; apiCalls := 1;
     authServer := grantingAuth; apiServer := healthyApi;
     trace := [] |}.

(** A client whose window is used up. *)
Definition exhaustedWorld : World :=
  {| clock := 2000;
     cachedToken := None;
     rateLimitMap := {[ "global" := {| requestCount := 30; resetTime := 60000 |} ]};
     requestCache := ∅;
     authCalls := 0; apiCalls := 0;
     authServer := grantingAuth; apiServer := healthyApi;
     trace := [] |}.

End Samples.

(* ===================================================================== *)
(** * The numbers of the engine: rounding to binary64 *)
(* ===================================================================== *)

(** A JavaScript number is a binary64 floating-point number, and the
    result of an arithmetic operation is the exact result rounded to the
    nearest such number, to the one with the even significand when two
    are equally near.  A finite number is modelled by the rational it
    denotes; the rounding below keeps 53 significant bits.  The exponent
    is not bounded: the values it is applied to (prices, their sums and
    means, scores between 0 and 2) are far from the largest and from the
    smallest binary64 numbers. *)
Module Binary64.

(** [2 ^ e] for any integer exponent. *)
Definition pow2 (e : Z) : Q :=
  if 0 <=? e then inject_Z (2 ^ e) else 1 # Z.to_pos (2 ^ (- e)).

(** The exponent of the leading bit of a positive rational: the [e] with
    [2 ^ e <= x < 2 ^ (e + 1)]. *)
Definition exponent (x : Q) : Z :=
  let e := Z.log2 (Qnum x) - Z.log2 (Z.pos (Qden x)) in
  if Qle_bool (pow2 e) x then e else e - 1.

(** The integer nearest to a rational that is not negative, the even one
    when two are equally near. *)
Definition nearestEven (y : Q) : Z :=
  let f := Qnum y / Z.pos (Qden y) in
  match (y - inject_Z f ?= 1 # 2)%Q with
  | Lt => f
  | Gt => f + 1
  | Eq => if Z.even f then f else f + 1
  end.

(** The binary64 number nearest to [x]. *)
Definition b64 (x : Q) : Q :=
  match Qnum x with
  | Z0 => 0%Q
  | Zpos _ =>
      let e := exponent x - 52 in
      Qred (inject_Z (nearestEven (x / pow2 e)) * pow2 e)
  | Zneg _ =>
      let e := exponent (- x) - 52 in
      Qred (- (inject_Z (nearestEven (- x / pow2 e)) * pow2 e))
  end.

(** The operations of the engine on two numbers. *)
Definition add (a b : Q) : Q := b64 (a + b).
Definition sub (a b : Q) : Q := b64 (a - b).
Definition mul (a b : Q) : Q := b64 (a * b).
Definition div (a b : Q) : Q := b64 (a / b).

End Binary64.

(* ===================================================================== *)
(** * lib/utils/flight-utils.ts: statistics and classification *)
(* ===================================================================== *)

Module FlightStats.
Import FlightUtils.

Record PriceStats := {
  ps_min : Q;
  ps_max : Q;
  ps_average : Q;
  ps_median : Q
}.

(** [xs.sort((a, b) => a - b)] *)
Definition numericSort (xs : list Q) : list Q :=
  arraySort (fun a b => Some (a - b)%Q) xs.

(** [xs.reduce((a, b) => a + b, 0)]: every partial sum is rounded. *)
Definition sumPrices (xs : list Q) : Q := fold_left Binary64.add xs 0%Q.

(** [xs[i]] on an index inside the array. *)
Definition at_ (xs : list Q) (i : nat) : Q := nth i xs 0%Q.

(** [calculatePriceStats].  The average is the rounded sum divided by the
    number of prices, rounded again.  The median of an even number of
    prices is given as the exact midpoint of the two middle prices; the
    engine's midpoint, [(a + b) / 2] rounded, lies between the same two
    prices. *)
Definition calculatePriceStats (flights : list ProcessedFlight) : PriceStats :=
  match flights with
  | [] => {| ps_min := 0; ps_max := 0; ps_average := 0; ps_median := 0 |}
  | _ =>
      let prices := numericSort (List.map price flights) in
      let n := length prices in
      {| ps_min := at_ prices 0;
         ps_max := at_ prices (n - 1);
         ps_average := Binary64.div (sumPrices prices) (inject_Z (Z.of_nat n));
         ps_median :=
           if Nat.even n
           then ((at_ prices (n / 2 - 1) + at_ prices (n / 2)) / 2)%Q
           else at_ prices (n / 2) |}
  end.

(** [set.add(x)] on a [Set] kept in insertion order. *)
Definition setAdd (set : list string) (x : string) : list string :=
  if includesStr set x then set else (set ++ [x])%list.

(** The comparison of the default [sort()]: by character codes. *)
Definition compareStrings (a b : string) : option Q :=
  match String.compare a b with
  | Lt => Some (-1)%Q
  | Eq => Some 0%Q
  | Gt => Some 1%Q
  end.

(** [getUniqueAirlines] *)
Definition getUniqueAirlines (flights : list ProcessedFlight) : list string :=
  let airlines_ :=
    fold_left (fun set flight => fold_left setAdd (airlines flight) set) flights [] in
  arraySort compareStrings airlines_.

Record AirlineStats := {
  as_code : string;
  as_name : string;
  as_count : Z;
  as_averagePrice : Q;
  as_minPrice : Q;
  as_maxPrice : Q
}.

(** The [Map] of [calculateAirlineStats], in insertion order: for each
    carrier the number of entries seen and their prices. *)
Fixpoint record (stats : list (string * (Z * list Q))) (airline : string) (p : Q)
    : list (string * (Z * list Q)) :=
  match stats with
  | [] => [(airline, (0 + 1, [p]))]
  | (code, (count, prices)) :: rest =>
      if String.eqb code airline
      then (code, (count + 1, (prices ++ [p])%list)) :: rest
      else (code, (count, prices)) :: record rest airline p
  end.

Definition collect (flights : list ProcessedFlight) : list (string * (Z * list Q)) :=
  fold_left
    (fun stats flight =>
       fold_left (fun stats airline => record stats airline (price flight))
                 (airlines flight) stats)
    flights [].

Definition toAirlineStats (entry : string * (Z * list Q)) : AirlineStats :=
  let '(code, (count, prices)) := entry in
  let sortedPrices := numericSort prices in
  {| as_code := code;
     as_name := code;
     as_count := count;
     as_averagePrice :=
       Binary64.div (sumPrices sortedPrices)
                    (inject_Z (Z.of_nat (length sortedPrices)));
     as_minPrice := at_ sortedPrices 0;
     as_maxPrice := at_ sortedPrices (length sortedPrices - 1) |}.

(** [calculateAirlineStats] *)
Definition calculateAirlineStats (flights : list ProcessedFlight) : list AirlineStats :=
  arraySort (fun a b => Some (as_averagePrice a - as_averagePrice b)%Q)
            (List.map toAirlineStats (collect flights)).

(** [isDirect] *)
Definition isDirect (flight : ProcessedFlight) : bool := stops flight =? 0.


(** [formatDuration], on a whole number of minutes: [Math.floor] of the
    quotient and the remainder with the sign of the dividend. *)
Definition formatDuration (minutes : Z) : string :=
  let hours := minutes / 60 in
  let mins := Z.rem minutes 60 in
  if hours =? 0 then (pretty mins ++ "m")%string
  else if mins =? 0 then (pretty hours ++ "h")%string
  else (pretty hours ++ "h " ++ pretty mins ++ "m")%string.

(** [getStopsSummary] *)
Definition getStopsSummary (stops : Z) : string :=
  if stops =? 0 then "Direct"
  else if stops =? 1 then "1 stop"
  else (pretty stops ++ " stops")%string.

End FlightStats.

(* ===================================================================== *)
(** * Predicates used in the statements about sorting and statistics *)
(* ===================================================================== *)

Module MoreStatements.
Import FlightUtils.

(** The quantity [sortFlights] orders by, for the three keys that are plain
    numbers of the flight. *)
Definition sortKey (sortBy : SortKey) : option (ProcessedFlight -> Q) :=
  match sortBy with
  | ByPrice => Some price
  | ByDuration =>
      Some (fun f => inject_Z (durationToMinutes (firstSegmentDuration f)))
  | ByStops => Some (fun f => inject_Z (stops f))
  | ByDeparture | ByArrival => None
  end.

(** The key with the sign of the direction. *)
Definition directed (order : SortOrder) (k : ProcessedFlight -> Q)
    (f : ProcessedFlight) : Q :=
  match order with
  | Asc => k f
  | Desc => (- k f)%Q
  end.

(** Order by a rational key, and the elements whose key equals [q]. *)
Definition keyLe {A : Type} (key : A -> Q) (x y : A) : Prop := (key x <= key y)%Q.
Definition tied {A : Type} (key : A -> Q) (q : Q) (x : A) : bool :=
  Qeq_bool (key x) q.

(** How often the carrier [code] is listed, over the airline lists of all
    the flights. *)
Definition occurrences (code : string) (flights : list ProcessedFlight) : Z :=
  fold_right
    (fun f n => Z.of_nat (length (List.filter (String.eqb code) (airlines f))) + n)
    0 flights.




(** Every character of the string is a decimal digit. *)
Fixpoint allDigits (s : string) : bool :=
  match s with
  | EmptyString => true
  | String c r => Js.isDigit c && allDigits r
  end.

(** The ISO 8601 rendering of a duration of [h] hours and [m] minutes. *)
Definition isoDuration (h m : N) : string :=
  ("PT" ++ pretty h ++ "H" ++ pretty m ++ "M")%string.

(** The flight passes every filter that the state switches on. *)
Definition passes (getHours : string -> option Z) (filters : FilterState)
    (f : ProcessedFlight) : bool :=
  match minPrice filters, maxPrice filters with
  | Some lo, Some hi => Qle_bool lo (price f) && Qle_bool (price f) hi
  | _, _ => true
  end
  && match maxStops filters with
     | Some m => stops f <=? m
     | None => true
     end
  && match selectedAirlines filters with
     | Some (a :: l) => existsb (includesStr (a :: l)) (airlines f)
     | _ => true
     end
  && match departureTimeRange filters with
     | Some r => hourInRange (getHours (time (departure f))) (start r) (end_ r)
     | None => true
     end
  && match arrivalTimeRange filters with
     | Some r => hourInRange (getHours (time (arrival f))) (start r) (end_ r)
     | None => true
     end
  && match maxDuration filters with
     | Some d => durationToMinutes (firstSegmentDuration f) <=? d
     | None => true
     end
  && match cabins filters with
     | Some (c :: l) => includesCabin (c :: l) (cabin f)
     | _ => true
     end.

End MoreStatements.

(* ================================================================== *)
(** * Notions used to state the properties of the client's request path *)
(* ================================================================== *)

Module ClientStatements.
Import Amadeus.

Section Client.

Variable cfg : Config.

(** The error that one HTTP attempt raises when it is the last one
    allowed; [None] when the attempt delivers data.  An answer whose
    status asks for a retry (429, 5xx) has had its body read for the
    error text, so that the read that follows is rejected. *)
Definition lastAttemptError (options : RequestOptions)
    (answer : Z * FetchReply) : option JsError :=
  let timeout_ := Js.numOr (timeout options) (REQUEST_TIMEOUT cfg) in
  match answer with
  | (_, Hangs) => Some abortError
  | (latency, Rejects e) =>
      Some (if latency <? timeout_ then e else abortError)
  | (latency, Responds st b) =>
      if latency <? timeout_ then
        if (200 <=? st) && (st <=? 299) then
          match b with
          | Unparsable => Some jsonSyntaxError
          | Parsed _ => None
          end
        else if negb (st =? 429) && (st <? 500) then
          Some (Error (formatError
                         (match b with Parsed v => v | Unparsable => VObj [] end)))
        else Some bodyUsedError
      else Some abortError
  end.

(** The data that an HTTP attempt delivers. *)
Definition delivered (options : RequestOptions)
    (answer : Z * FetchReply) : option JsVal :=
  let timeout_ := Js.numOr (timeout options) (REQUEST_TIMEOUT cfg) in
  match answer with
  | (latency, Responds st (Parsed v)) =>
      if (latency <? timeout_) && (200 <=? st) && (st <=? 299)
      then Some v else None
  | _ => None
  end.

(** The pauses recorded in a log. *)
Definition backoffs (events : list Event) : list Z :=
  omap (fun e => match e with Backoff d => Some d | _ => None end) events.

(** The requests sent to the API recorded in a log. *)
Definition apiRequests (events : list Event) : list string :=
  omap (fun e => match e with ApiRequest u => Some u | _ => None end) events.

(** The checks of the cache and of the limiter recorded in a log, in the
    order in which they were made. *)
Definition admissions (events : list Event) : list Event :=
  omap (fun e => match e with
                 | CacheLookup _ _ | RateLimitCheck _ _ => Some e
                 | _ => None
                 end) events.

(** An answer that asks for another attempt: none at all, a transport
    failure, or a response with status 429 or 5xx. *)
Definition retryable (answer : Z * FetchReply) : Prop :=
  match answer with
  | (_, Responds st _) => st = 429 \/ 500 <= st
  | _ => True
  end.

(** No usable cache entry for the endpoint. *)
Definition cacheMiss (endpoint : string) (w : World) : Prop :=
  match requestCache w !! cacheKeyOf endpoint with
  | Some c => CACHE_TTL cfg <= clock w - timestamp c
  | None => True
  end.

(** The window of the key has room for one more request. *)
Definition windowOpen (key : string) (w : World) : Prop :=
  requestCount (currentWindow cfg (clock w) (rateLimitMap w !! key))
  < RATE_LIMIT cfg.

(** The cached token is outside its safety margin. *)
Definition tokenFresh (w : World) : Prop :=
  match cachedToken w with
  | Some c => clock w < expiresAt c - TOKEN_BUFFER cfg
  | None => False
  end.

(** A token can be had: the cached one is good, or the identity service
    grants one at the next call. *)
Definition tokenAvailable (w : World) : Prop :=
  tokenFresh w
  \/ exists latency tok life,
       authServer w (authCalls w) = (latency, TokenGranted tok life).

(** The answer of the API to the [k]-th call from now on. *)
Definition answer (w : World) (url : string) (k : nat) : Z * FetchReply :=
  apiServer w (apiCalls w + k)%nat url.

(** The pauses before the attempts [from + 1], ..., [from + n]. *)
Definition pauses (from : Z) (n : nat) : list Z :=
  List.map (fun k => backoffDelay (from + Z.of_nat k)) (seq 0 n).

(** Every record of the limiter's table counts between nothing and the
    quota. *)
Definition boundedTable (limits : gmap string RateLimitInfo) : Prop :=
  forall key info, limits !! key = Some info ->
    0 <= requestCount info <= RATE_LIMIT cfg.

(** The text of an error of the given family. *)
Definition prefixed (prefix : string) (e : JsError) : Prop :=
  name e = "Error" /\ exists detail, message e = (prefix ++ detail)%string.

(** What a step leaves alone: everything of the client and its
    environment except the clock, the log and the count of API calls. *)
Definition sameClient (w w' : World) : Prop :=
  cachedToken w' = cachedToken w
  /\ rateLimitMap w' = rateLimitMap w
  /\ requestCache w' = requestCache w
  /\ authCalls w' = authCalls w
  /\ authServer w' = authServer w
  /\ apiServer w' = apiServer w.

(** The number of attempts that [request] makes. *)
Definition attempts (options : RequestOptions) : Z :=
  Js.numOr (retries options) (MAX_RETRIES cfg).

End Client.

End ClientStatements.

(* ================================================================== *)
(** * app/api/airports/route.ts: ranking, validation and the handlers *)
(* ================================================================== *)

Module AirportsHandler.
Import AirportsRoute.

(** [s.trim()], for the white space of the ASCII range. *)
Fixpoint trimEnd (s : string) : string :=
  match s with
  | EmptyString => EmptyString
  | String c r =>
      match trimEnd r with
      | EmptyString => if Js.isWhite c then EmptyString else String c EmptyString
      | String d r' => String c (String d r')
      end
  end.

Definition trim (s : string) : string := trimEnd (Js.trimStart s).

(** [Airport], as the client types it. *)
Record Airport := {
  iataCode : string;
  name : string;
  city : string;
  countryCode : string
}.

(** [{ ...airport, score }] *)
Record Scored := {
  airport : Airport;
  score : Q
}.

(** [Math.max(a, b, c)] *)
Definition mathMax3 (a b c : Q) : Q := mathMax (mathMax a b) c.

(** [fuzzyScore] with the arithmetic of the engine: the literals are the
    binary64 numbers nearest to 0.9 and 0.7, and the quotient, the
    difference and the product of the last case are each rounded. *)
Definition fuzzyScore64 (needle haystack : string) : Q :=
  let needle := Js.toLowerCase needle in
  let haystack := Js.toLowerCase haystack in
  if String.eqb needle haystack then 1
  else if Js.startsWith haystack needle then Binary64.b64 (9 # 10)
  else if Js.includes haystack needle then Binary64.b64 (7 # 10)
  else
    let maxLen := Z.max (Js.len needle) (Js.len haystack) in
    let distance := levenshteinDistance needle haystack in
    let similarity :=
      Binary64.sub 1 (Binary64.div (inject_Z distance) (inject_Z maxLen)) in
    mathMax 0 (Binary64.mul similarity (1 # 2)).

(** The callback of the [map]: the three field scores and their weighted
    maximum, [Math.max(codeScore * 1.5, cityScore * 1.2, nameScore)]. *)
Definition scoreAirport (query : string) (a : Airport) : Scored :=
  let codeScore := fuzzyScore64 query (iataCode a) in
  let nameScore := fuzzyScore64 query (name a) in
  let cityScore := fuzzyScore64 query (city a) in
  {| airport := a;
     score := mathMax3 (Binary64.mul codeScore (3 # 2))
                       (Binary64.mul cityScore (Binary64.b64 (6 # 5)))
                       nameScore |}.

(** The number that the literal [0.3] denotes. *)
Definition threshold : Q := Binary64.b64 (3 # 10).

(** [(a, b) => b.score - a.score]: the difference of two binary64 numbers
    has, rounded, the sign of the exact difference, which is all that
    the sort reads. *)
Definition byScore (a b : Scored) : option Q := Some (score b - score a)%Q.

(** [l.slice(0, end)]: a negative end counts from the back. *)
Definition sliceTo {A : Type} (end_ : Z) (l : list A) : list A :=
  let n := Z.of_nat (length l) in
  let k := if end_ <? 0 then Z.max (n + end_) 0 else Z.min end_ n in
  take (Z.to_nat k) l.

(** [normalizeAndScoreAirports] *)
Definition normalizeAndScoreAirports (airports : list Airport) (query : string)
    (limit : Z) : list Scored :=
  let scoredAirports := List.map (scoreAirport query) airports in
  sliceTo limit
    (FlightUtils.arraySort byScore
       (List.filter (fun a => negb (Qle_bool (score a) threshold)) scoredAirports)).

(** [airportSearchSchema.parse(rawData)]; [None] stands for the thrown
    [ZodError].  The checks of a string schema run in the order in which
    they were declared: the two length checks see the text as it was
    received, and the trimming comes after them. *)
Definition airportSearchSchema (rawQ rawLimit : string) : option (string * Z) :=
  if (1 <=? Js.len rawQ) && (Js.len rawQ <=? 100) then
    match Js.parseInt rawLimit with
    | Some val => if (1 <=? val) && (val <=? 50) then Some (trim rawQ, val) else None
    | None => None
    end
  else None.

(** [parseSearchParams]: the validated pair, or [None] with the empty
    table of errors. *)
Definition parseSearchParams (queryParams : list (string * string))
    : option (string * Z) :=
  let raw name dflt :=
    Js.strOr (default EmptyString (FlightsRoute.get queryParams name)) dflt in
  airportSearchSchema (raw "q" "") (raw "limit" "10").

(** [isIATACode] *)
Definition isIATACode (query : string) : bool :=
  FlightsRoute.isThreeUpper (trim query).

(** The module's cache and its time to live. *)
Record Cached := {
  results : list Airport;
  timestamp : Z
}.

Abbreviation AirportCache := (gmap string Cached).

Definition CACHE_TTL : Z := 24 * 60 * 60 * 1000.

Inductive JsonBody :=
| Failure (error : string) (message : option string)
| Invalid (details : list (string * string))
| Success (data_ : list Airport) (count : Z) (cached : bool) (query : string)
          (limit : option Z)
| Cleared (message : string).

Record HttpResponse := {
  status : Z;
  body : JsonBody;
  cacheControl : option string
}.

Definition json (st : Z) (b : JsonBody) : HttpResponse :=
  {| status := st; body := b; cacheControl := None |}.

(** The two look-ups of the client that the handler uses; an error is
    represented by its message. *)
Record ClientOps := {
  getAirport : string -> Result string (option Airport);
  searchAirports : string -> Result string (list Airport)
}.

Section Handler.

(** [getAmadeusClient()]: [None] when the client cannot be constructed. *)
Variable client : option ClientOps.

(** The [try] block around the look-ups. *)
Definition lookUp (ops : ClientOps) (query : string)
    : Result string (list Airport) :=
  if isIATACode query then
    match getAirport ops (Js.toUpperCase query) with
    | Throw e => Throw e
    | Ok (Some airport_) => Ok [airport_]
    | Ok None => searchAirports ops query          (* keyword search *)
    end
  else searchAirports ops query.

(** The GET handler.  [now] is the instant of the look-up in the cache,
    [later] that of the write into it. *)
Definition GET (now later : Z) (airportCache : AirportCache)
    (queryParams : list (string * string)) : HttpResponse * AirportCache :=
  match parseSearchParams queryParams with
  | None => (json 400 (Invalid []), airportCache)
  | Some (query, limit) =>
      let cacheKey := (Js.toLowerCase query ++ ":" ++ pretty limit)%string in
      let fresh :=
        match airportCache !! cacheKey with
        | Some c => if now - timestamp c <? CACHE_TTL then Some c else None
        | None => None
        end in
      match fresh with
      | Some c =>
          ({| status := 200;
              body := Success (results c) (Z.of_nat (length (results c))) true
                        query None;
              cacheControl :=
                Some "public, s-maxage=3600, stale-while-revalidate=86400" |},
           airportCache)
      | None =>
          match client with
          | None =>
              (json 500 (Failure "API configuration error"
                           (Some "Failed to initialize airport search service")),
               airportCache)
          | Some ops =>
              let rank (airports : list Airport) :=
                let results_ := normalizeAndScoreAirports airports query limit in
                let airportCache' :=
                  if 0 <? Z.of_nat (length results_) then
                    <[cacheKey := {| results := List.map airport results_;
                                     timestamp := later |}]> airportCache
                  else airportCache in
                ({| status := 200;
                    body := Success (List.map airport results_)
                              (Z.of_nat (length results_)) false query (Some limit);
                    cacheControl :=
                      Some "public, s-maxage=3600, stale-while-revalidate=86400" |},
                 airportCache') in
              match lookUp ops query with
              | Throw errorMessage =>
                  if Js.includes errorMessage "Rate limit" then
                    (json 429 (Failure "Rate limit exceeded"
                       (Some "Too many requests. Please try again later.")),
                     airportCache)
                  else if Js.includes errorMessage "timeout" then
                    (json 504 (Failure "Request timeout"
                       (Some "Airport search service took too long to respond")),
                     airportCache)
                  else rank []
              | Ok airports => rank airports
              end
          end
      end
  end.

End Handler.

(** The DELETE handler. *)
Definition DELETE (airportCache : AirportCache) : HttpResponse * AirportCache :=
  (json 200 (Cleared ("Cleared " ++ pretty (Z.of_nat (size airportCache))
                      ++ " cached airport searches")%string),
   ∅).

End AirportsHandler.

(** Notions used to state the properties of the airport search. *)
Module AirportStatements.
Import AirportsRoute AirportsHandler.




(** Two airports to try the ranking on. *)
Definition kennedy : Airport :=
  {| iataCode := "JFK"; name := "JOHN F KENNEDY INTL"; city := "NEW YORK";
     countryCode := "US" |}.

Definition heathrow : Airport :=
  {| iataCode := "LHR"; name := "HEATHROW"; city := "LONDON";
     countryCode := "GB" |}.

(** A client that knows the two airports by keyword and none by code. *)
Definition keywordOnly : ClientOps :=
  {| getAirport := fun _ => Ok None;
     searchAirports := fun _ => Ok [heathrow; kennedy] |}.

(** An airport whose code is two substitutions and two insertions away
    from the query [abcde]. *)
Definition abx : Airport :=
  {| iataCode := "ABX"; name := "QQQQQQQQ"; city := "ZZZZZZZZ";
     countryCode := "US" |}.

(** A client whose upstream is down. *)
Definition failingClient : ClientOps :=
  {| getAirport := fun _ => Ok None;
     searchAirports := fun _ =>
       Throw "Airport search failed: Service unavailable" |}.

(** The response that carries a list of airports. *)
Definition listing (data_ : list Airport) (cached : bool) (query : string)
    (limit : option Z) : HttpResponse :=
  {| status := 200;
     body := Success data_ (Z.of_nat (length data_)) cached query limit;
     cacheControl := Some "public, s-maxage=3600, stale-while-revalidate=86400" |}.

End AirportStatements.

(** Notions used to state the properties of the flight search handler. *)
Module FlightStatements.
Import FlightsRoute.

Section Handler.
Variable dateValue : string -> option Z.
Variable todayStart : Z.

(** Search parameters as validation lets them through. *)
Definition wellFormed (p : SearchParams) : Prop :=
  isThreeUpper (sp_departure p) = true
  /\ isThreeUpper (sp_arrival p) = true
  /\ isDatePattern (sp_departDate p) = true
  /\ notBeforeToday dateValue todayStart (sp_departDate p) = true
  /\ 1 <= sp_adults p <= 9
  /\ 0 <= sp_children p <= 8
  /\ 1 <= sp_max p <= 250.

End Handler.

(** Two clients: one that always finds a flight, and one that finds it
    only for a departure code of three upper-case letters. *)
Definition findsOne (p : SearchParams) : Result string (list ProcessedFlight) :=
  Ok [Samples.directFlight].

Definition findsForCodes (p : SearchParams) : Result string (list ProcessedFlight) :=
  if isThreeUpper (sp_departure p) then Ok [Samples.directFlight] else Ok [].

End FlightStatements.
(* ===================================================================== *)
(** * Worked examples for the duration codec *)
(* ===================================================================== *)

Local Open Scope list_scope.

Module FlightUtilsExamples.
Import FlightUtils.

Example duration_hours_minutes : durationToMinutes "PT10H30M" = 630.
Proof. reflexivity. Qed.

Example duration_minutes_only : durationToMinutes "PT45M" = 45.
Proof. reflexivity. Qed.

Example duration_hours_only : durationToMinutes "PT2H" = 120.
Proof. reflexivity. Qed.

(** A day component hides the [PT] the pattern looks for. *)
Example duration_with_days : durationToMinutes "P1DT2H" = 0.
Proof. reflexivity. Qed.

Example duration_no_match : durationToMinutes "10h" = 0.
Proof. reflexivity. Qed.

Example hours_sample : IsoDate.getHours "2024-02-15T14:30:00" = Some 14.
Proof. reflexivity. Qed.

Example epoch_sample : IsoDate.getTime "1970-01-02" = Some 86400000.
Proof. reflexivity. Qed.

Example epoch_2099 : IsoDate.getTime "2099-01-01" = Some 4070908800000.
Proof. reflexivity. Qed.

End FlightUtilsExamples.

(* ===================================================================== *)
(** * Duration filter *)
(* ===================================================================== *)

Module DurationFilter.
Import FlightUtils Samples.

(** What [filterByDuration] keeps: the flights whose first segment fits. *)
Lemma filterByDuration_spec (flights : list ProcessedFlight) (maxDuration : Z)
    (f : ProcessedFlight) :
  In f (filterByDuration flights maxDuration) <->
  In f flights /\ durationToMinutes (firstSegmentDuration f) <= maxDuration.
Proof.
  unfold filterByDuration. rewrite filter_In.
  split; intros [Hin Hle]; split; auto; lia.
Qed.

(** A flight without segments passes every bound that is not negative. *)
Lemma filterByDuration_no_segments (f : ProcessedFlight) (maxDuration : Z) :
  segments f = [] -> 0 <= maxDuration ->
  filterByDuration [f] maxDuration = [f].
Proof.
  intros Hs Hm. unfold filterByDuration, firstSegmentDuration. simpl.
  rewrite Hs. simpl.
  change (durationToMinutes "PT0M") with 0.
  destruct (0 <=? maxDuration) eqn:E; [reflexivity | lia].
Qed.

(** C3 (as the code behaves).  The itinerary of [twoLegFlight] takes 750
    minutes, more than the bound of 360, yet the filter keeps it: the bound
    is compared with the 300 minutes of its first segment. *)
Theorem filterByDuration_reads_first_segment :
  durationToMinutes (duration twoLegFlight) = 750
  /\ durationToMinutes (firstSegmentDuration twoLegFlight) = 300
  /\ filterByDuration [twoLegFlight] 360 = [twoLegFlight].
Proof. repeat split; reflexivity. Qed.

End DurationFilter.

(* ===================================================================== *)
(** * [applyFilters]: identity inside the bounds, and no mutation *)
(* ===================================================================== *)

Module FilterIdentity.
Import FlightUtils Statements Samples.

Lemma filter_keeps_all {A} (p : A -> bool) (l : list A) :
  Forall (fun x => p x = true) l -> List.filter p l = l.
Proof.
  induction 1 as [|x l Hx _ IH]; simpl; [reflexivity|].
  rewrite Hx, IH. reflexivity.
Qed.

Lemma hourInRange_within (rg : TimeRange) (hr : Z) :
  hourWithin rg hr -> hourInRange (Some hr) (start rg) (end_ rg) = true.
Proof.
  intros [Hin Hwrap]. unfold hourInRange, Js.geN, Js.ltN.
  destruct (start rg <=? end_ rg) eqn:E.
  - apply Z.leb_le in E. destruct (Hin E) as [H1 H2].
    apply andb_true_iff. split; [apply Z.leb_le | apply Z.ltb_lt]; lia.
  - apply Z.leb_gt in E. apply orb_true_iff.
    destruct (Hwrap E); [left; apply Z.leb_le | right; apply Z.ltb_lt]; lia.
Qed.

Section Pure.
Variable getHours : string -> option Z.

(** Inside the bounds every step of the chain keeps the whole list. *)
Lemma applyFilters_inside_bounds (flights : list ProcessedFlight)
    (filters : FilterState) :
  selectionsEmpty filters ->
  Forall (withinBounds getHours filters) flights ->
  applyFilters getHours flights filters = flights.
Proof.
  intros [Hair Hcab] Hall. unfold applyFilters.
  assert (Hprice : match minPrice filters, maxPrice filters with
                   | Some lo, Some hi => filterByPrice flights lo hi
                   | _, _ => flights
                   end = flights).
  { destruct (minPrice filters) as [lo|] eqn:Elo,
             (maxPrice filters) as [hi|] eqn:Ehi; try reflexivity.
    apply filter_keeps_all. eapply Forall_impl; [exact Hall|].
    intros f (Hp & _). destruct (Hp lo hi Elo Ehi) as [H1 H2].
    apply andb_true_iff. split; apply Qle_bool_iff; assumption. }
  rewrite Hprice.
  assert (Hstops : match maxStops filters with
                   | Some m => filterByStops flights m
                   | None => flights
                   end = flights).
  { destruct (maxStops filters) as [m|] eqn:Em; try reflexivity.
    apply filter_keeps_all. eapply Forall_impl; [exact Hall|].
    intros f (_ & Hs & _). apply Z.leb_le. auto. }
  rewrite Hstops.
  assert (Hairl : match selectedAirlines filters with
                  | Some (a :: l) => filterByAirlines flights (a :: l)
                  | _ => flights
                  end = flights).
  { destruct Hair as [-> | ->]; reflexivity. }
  rewrite Hairl.
  assert (Hdep : match departureTimeRange filters with
                 | Some r => filterByDepartureTime getHours flights (start r) (end_ r)
                 | None => flights
                 end = flights).
  { destruct (departureTimeRange filters) as [rg|] eqn:Erg; try reflexivity.
    apply filter_keeps_all. eapply Forall_impl; [exact Hall|].
    intros f (_ & _ & Hd & _). destruct (Hd rg Erg) as (hr & Hhr & Hw).
    unfold extractHour. rewrite Hhr. apply hourInRange_within, Hw. }
  rewrite Hdep.
  assert (Harr : match arrivalTimeRange filters with
                 | Some r => filterByArrivalTime getHours flights (start r) (end_ r)
                 | None => flights
                 end = flights).
  { destruct (arrivalTimeRange filters) as [rg|] eqn:Erg; try reflexivity.
    apply filter_keeps_all. eapply Forall_impl; [exact Hall|].
    intros f (_ & _ & _ & Ha & _). destruct (Ha rg Erg) as (hr & Hhr & Hw).
    unfold extractHour. rewrite Hhr. apply hourInRange_within, Hw. }
  rewrite Harr.
  assert (Hdur : match maxDuration filters with
                 | Some d => filterByDuration flights d
                 | None => flights
                 end = flights).
  { destruct (maxDuration filters) as [d|] eqn:Ed; try reflexivity.
    apply filter_keeps_all. eapply Forall_impl; [exact Hall|].
    intros f (_ & _ & _ & _ & Hd). destruct (Hd d Ed) as [_ H1].
    apply Z.leb_le. exact H1. }
  rewrite Hdur.
  destruct Hcab as [-> | ->]; reflexivity.
Qed.

(** With no field defined at all, nothing is filtered, whatever the
    flights. *)
Lemma applyFilters_no_fields (flights : list ProcessedFlight)
    (filters : FilterState) :
  minPrice filters = None -> maxStops filters = None ->
  selectedAirlines filters = None -> departureTimeRange filters = None ->
  arrivalTimeRange filters = None -> maxDuration filters = None ->
  cabins filters = None ->
  applyFilters getHours flights filters = flights.
Proof.
  intros H1 H2 H3 H4 H5 H6 H7. unfold applyFilters.
  rewrite H1, H2, H3, H4, H5, H6, H7. reflexivity.
Qed.

End Pure.

(** ** The store: what [applyFilters] allocates and what it leaves alone *)

Section Stored.
Import ArrayStore.
Variable getHours : string -> option Z.

Lemma read_alloc (h : Store) (a : list ProcessedFlight) :
  read (fst (alloc h a)) (snd (alloc h a)) = a.
Proof.
  unfold read, alloc. cbn [fst snd].
  rewrite list_lookup_middle by reflexivity. reflexivity.
Qed.

Lemma fresh_alloc (h0 h : Store) (r : Ref) (l : list ProcessedFlight)
    (g : list ProcessedFlight -> list ProcessedFlight) :
  (forall a, (a < length h0)%nat -> h !! a = h0 !! a) ->
  (length h0 <= length h)%nat ->
  read h r = l ->
  fresh h0 (g l) (alloc h (g (read h r))).
Proof.
  intros Hold Hlen Hr. unfold fresh. repeat split.
  - intros a Ha. unfold alloc. cbn [fst snd]. rewrite lookup_app_l by lia. auto.
  - unfold alloc. cbn [fst snd]. lia.
  - unfold alloc. cbn [fst snd]. rewrite length_app. simpl. lia.
  - rewrite read_alloc, Hr. reflexivity.
Qed.

Lemma fresh_step (h0 : Store) (l : list ProcessedFlight) (p : Store * Ref)
    (g : list ProcessedFlight -> list ProcessedFlight) :
  fresh h0 l p -> fresh h0 (g l) (alloc (fst p) (g (read (fst p) (snd p)))).
Proof.
  intros (Hold & Hr & Hlen & Hrd). unfold fresh. repeat split.
  - intros a Ha. unfold alloc. cbn [fst snd]. rewrite lookup_app_l by lia. auto.
  - unfold alloc. cbn [fst snd]. lia.
  - unfold alloc. cbn [fst snd]. rewrite length_app. simpl. lia.
  - rewrite read_alloc, Hrd. reflexivity.
Qed.

(** The store version computes the list of the pure version in a new
    cell and writes to no cell that existed before. *)
Lemma applyFilters_store (h : Store) (flights : Ref) (filters : FilterState) :
  fresh h (FlightUtils.applyFilters getHours (read h flights) filters)
        (ArrayStore.applyFilters getHours h flights filters).
Proof.
  unfold ArrayStore.applyFilters, FlightUtils.applyFilters.
  assert (H0 : fresh h (read h flights) (spread h flights)).
  { unfold spread. apply (fresh_alloc h h flights (read h flights) (fun l => l)); auto. }
  destruct (spread h flights) as [h1 r1].
  set (l1 := read h flights) in *.
  (* price *)
  set (l2 := match minPrice filters, maxPrice filters with
             | Some lo, Some hi => FlightUtils.filterByPrice l1 lo hi
             | _, _ => l1 end).
  assert (H2 : fresh h l2
            (match minPrice filters, maxPrice filters with
             | Some lo, Some hi => filterByPrice h1 r1 lo hi
             | _, _ => (h1, r1) end)).
  { subst l2. destruct (minPrice filters), (maxPrice filters); try exact H0.
    apply (fresh_step h l1 (h1, r1) (fun l => FlightUtils.filterByPrice l _ _) H0). }
  destruct (match minPrice filters, maxPrice filters with
            | Some lo, Some hi => filterByPrice h1 r1 lo hi
            | _, _ => (h1, r1) end) as [h2 r2].
  clearbody l2. clear H0 l1.
  (* stops *)
  set (l3 := match maxStops filters with
             | Some m => FlightUtils.filterByStops l2 m | None => l2 end).
  assert (H3 : fresh h l3
            (match maxStops filters with
             | Some m => filterByStops h2 r2 m | None => (h2, r2) end)).
  { subst l3. destruct (maxStops filters); try exact H2.
    apply (fresh_step h l2 (h2, r2) (fun l => FlightUtils.filterByStops l _) H2). }
  destruct (match maxStops filters with
            | Some m => filterByStops h2 r2 m | None => (h2, r2) end) as [h3 r3].
  clearbody l3. clear H2 l2.
  (* airlines *)
  set (l4 := match selectedAirlines filters with
             | Some (a :: l) => FlightUtils.filterByAirlines l3 (a :: l)
             | _ => l3 end).
  assert (H4 : fresh h l4
            (match selectedAirlines filters with
             | Some (a :: l) => filterByAirlines h3 r3 (a :: l)
             | _ => (h3, r3) end)).
  { subst l4. destruct (selectedAirlines filters) as [[|a l]|]; try exact H3.
    apply (fresh_step h l3 (h3, r3) (fun x => FlightUtils.filterByAirlines x _) H3). }
  destruct (match selectedAirlines filters with
            | Some (a :: l) => filterByAirlines h3 r3 (a :: l)
            | _ => (h3, r3) end) as [h4 r4].
  clearbody l4. clear H3 l3.
  (* departure time *)
  set (l5 := match departureTimeRange filters with
             | Some r => FlightUtils.filterByDepartureTime getHours l4 (start r) (end_ r)
             | None => l4 end).
  assert (H5 : fresh h l5
            (match departureTimeRange filters with
             | Some r => filterByDepartureTime getHours h4 r4 (start r) (end_ r)
             | None => (h4, r4) end)).
  { subst l5. destruct (departureTimeRange filters); try exact H4.
    apply (fresh_step h l4 (h4, r4)
             (fun x => FlightUtils.filterByDepartureTime getHours x _ _) H4). }
  destruct (match departureTimeRange filters with
            | Some r => filterByDepartureTime getHours h4 r4 (start r) (end_ r)
            | None => (h4, r4) end) as [h5 r5].
  clearbody l5. clear H4 l4.
  (* arrival time *)
  set (l6 := match arrivalTimeRange filters with
             | Some r => FlightUtils.filterByArrivalTime getHours l5 (start r) (end_ r)
             | None => l5 end).
  assert (H6 : fresh h l6
            (match arrivalTimeRange filters with
             | Some r => filterByArrivalTime getHours h5 r5 (start r) (end_ r)
             | None => (h5, r5) end)).
  { subst l6. destruct (arrivalTimeRange filters); try exact H5.
    apply (fresh_step h l5 (h5, r5)
             (fun x => FlightUtils.filterByArrivalTime getHours x _ _) H5). }
  destruct (match arrivalTimeRange filters with
            | Some r => filterByArrivalTime getHours h5 r5 (start r) (end_ r)
            | None => (h5, r5) end) as [h6 r6].
  clearbody l6. clear H5 l5.
  (* duration *)
  set (l7 := match maxDuration filters with
             | Some d => FlightUtils.filterByDuration l6 d | None => l6 end).
  assert (H7 : fresh h l7
            (match maxDuration filters with
             | Some d => filterByDuration h6 r6 d | None => (h6, r6) end)).
  { subst l7. destruct (maxDuration filters); try exact H6.
    apply (fresh_step h l6 (h6, r6) (fun x => FlightUtils.filterByDuration x _) H6). }
  destruct (match maxDuration filters with
            | Some d => filterByDuration h6 r6 d | None => (h6, r6) end) as [h7 r7].
  clearbody l7. clear H6 l6.
  (* cabins *)
  destruct (cabins filters) as [[|c l]|]; try exact H7.
  apply (fresh_step h l7 (h7, r7) (fun x => FlightUtils.filterByCabin x _) H7).
Qed.

End Stored.

Import ArrayStore.

(** What passes the state the pages reset to has at most two stops. *)
Lemma reset_state_bounds_stops (getHours : string -> option Z)
    (flights : list ProcessedFlight) (f : ProcessedFlight) :
  In f (FlightUtils.applyFilters getHours flights resetFilters) -> stops f <= 2.
Proof.
  unfold FlightUtils.applyFilters, resetFilters.
  cbn [minPrice maxPrice maxStops selectedAirlines departureTimeRange
       arrivalTimeRange maxDuration cabins start end_].
  unfold FlightUtils.filterByDuration, FlightUtils.filterByArrivalTime,
    FlightUtils.filterByDepartureTime, FlightUtils.filterByStops.
  intros H.
  apply filter_In in H as [H _]. apply filter_In in H as [H _].
  apply filter_In in H as [H _]. apply filter_In in H as [_ H].
  apply Z.leb_le, H.
Qed.

(** C7 (as the code behaves).  [resetFilters] is the no-op state of the
    claim: it is the state the pages start from and reset to, every
    bound at the top of its control (stops at the choice labelled 2+),
    no airline and no cabin selected.  Under it [applyFilters] does not
    return its input: of the list [directFlight; fourLegFlight] only the
    direct flight comes back, and no flight with more than two stops ever
    passes; the bound on the stops is what removes the flight, since
    without it the list is returned whole.  The other half of the claim
    holds: whatever the filter state, the result is delivered in a newly
    allocated array and every array that existed before, the input among
    them, is as it was. *)
Theorem applyFilters_noop_state_drops_flights
    (getHours : string -> option Z) (h : Store) (flights : Ref)
    (filters : FilterState) :
  let result := ArrayStore.applyFilters getHours h flights filters in
  selectionsEmpty resetFilters
  /\ stops fourLegFlight = 3
  /\ FlightUtils.applyFilters IsoDate.getHours [directFlight; fourLegFlight]
       resetFilters
     = [directFlight]
  /\ FlightUtils.applyFilters IsoDate.getHours [directFlight; fourLegFlight]
       resetFiltersAnyStops
     = [directFlight; fourLegFlight]
  /\ (forall candidates f,
        In f (FlightUtils.applyFilters getHours candidates resetFilters) ->
        stops f <= 2)
  /\ read (fst result) (snd result)
     = FlightUtils.applyFilters getHours (read h flights) filters
  /\ (forall a, (a < length h)%nat -> fst result !! a = h !! a)
  /\ (length h <= snd result)%nat.
Proof.
  intros result.
  destruct (applyFilters_store getHours h flights filters)
    as (Hold & Hfresh & _ & Hread).
  split; [split; right; reflexivity|].
  split; [reflexivity|].
  split; [vm_compute; reflexivity|].
  split; [vm_compute; reflexivity|].
  split; [apply reset_state_bounds_stops|].
  split; [exact Hread|]. split; [exact Hold | exact Hfresh].
Qed.

End FilterIdentity.

(* ===================================================================== *)
(** * [sortFlights]: descending after ascending is the reverse *)
(* ===================================================================== *)

Module SortReverse.
Import FlightUtils Statements Samples.

(** ** The insertion sort, for any comparator *)

Section Insertion.
Context {A : Type} (comparefn : A -> A -> option Q).

Lemma insertSorted_perm (x : A) (l : list A) :
  Permutation (insertSorted comparefn x l) (x :: l).
Proof.
  induction l as [|y r IH]; simpl; [reflexivity|].
  destruct (precedes comparefn x y); [reflexivity|].
  rewrite IH. apply perm_swap.
Qed.

Lemma fold_insert_perm (l acc : list A) :
  Permutation (fold_left (fun acc x => insertSorted comparefn x acc) l acc)
              (acc ++ l).
Proof.
  revert acc. induction l as [|x l IH]; intros acc; simpl.
  - rewrite app_nil_r. reflexivity.
  - rewrite IH, insertSorted_perm.
    change (x :: acc) with ([x] ++ acc).
    rewrite (Permutation_app_comm [x] acc), <- app_assoc. reflexivity.
Qed.

Lemma arraySort_perm (l : list A) : Permutation (arraySort comparefn l) l.
Proof. unfold arraySort. rewrite fold_insert_perm. reflexivity. Qed.

(** [R] is the order the comparator decides, [D] says that two elements
    have different keys. *)
Variables (R D : A -> A -> Prop).
Hypothesis precedes_R : forall x y, precedes comparefn x y = true <-> R x y.
Hypothesis R_trans : forall x y z, R x y -> R y z -> R x z.
Hypothesis R_total : forall x y, D x y -> R x y \/ R y x.
Hypothesis D_sym : forall x y, D x y -> D y x.

Lemma insertSorted_sorted (x : A) (l : list A) :
  StronglySorted R l -> Forall (D x) l ->
  StronglySorted R (insertSorted comparefn x l).
Proof.
  induction 1 as [|y r Hr IH Hy]; intros Hd; simpl.
  - repeat constructor.
  - apply Forall_cons in Hd as [Hxy Hd].
    destruct (precedes comparefn x y) eqn:E.
    + apply precedes_R in E.
      constructor; [constructor; assumption|].
      constructor; [exact E|].
      eapply Forall_impl; [exact Hy|]. intros z Hz. eauto.
    + assert (Hyx : R y x).
      { destruct (R_total x y Hxy) as [H|H]; [|exact H].
        apply precedes_R in H. congruence. }
      constructor; [apply IH; exact Hd|].
      rewrite insertSorted_perm. constructor; assumption.
Qed.

Lemma fold_insert_sorted (l acc : list A) :
  StronglySorted R acc ->
  Forall (fun x => Forall (D x) acc) l ->
  pairwise D l ->
  StronglySorted R (fold_left (fun acc x => insertSorted comparefn x acc) l acc).
Proof.
  revert acc. induction l as [|x l IH]; intros acc Hs Hd Hp; simpl; [exact Hs|].
  apply Forall_cons in Hd as [Hx Hd]. destruct Hp as [Hxl Hp].
  apply IH; [apply insertSorted_sorted; assumption| |exact Hp].
  rewrite Forall_forall in Hd, Hxl. apply Forall_forall. intros z Hz.
  rewrite insertSorted_perm. constructor; [|apply Hd, Hz].
  apply D_sym, Hxl, Hz.
Qed.

Lemma arraySort_sorted (l : list A) :
  pairwise D l -> StronglySorted R (arraySort comparefn l).
Proof.
  intros Hp. unfold arraySort. apply fold_insert_sorted; [constructor| |exact Hp].
  apply Forall_forall. intros; constructor.
Qed.

End Insertion.

(** ** The price comparator *)

Lemma precedes_asc (getTime : string -> option Z) (a b : ProcessedFlight) :
  precedes (compareFn getTime ByPrice 1) a b = true <-> cheaper a b.
Proof.
  unfold precedes, compareFn, cheaper. rewrite negb_true_iff.
  rewrite <- not_true_iff_false, Qle_bool_iff.
  change (inject_Z 1) with 1%Q. split; intros H; lra.
Qed.

Lemma precedes_desc (getTime : string -> option Z) (a b : ProcessedFlight) :
  precedes (compareFn getTime ByPrice (-1)) a b = true <-> dearer a b.
Proof.
  unfold precedes, compareFn, dearer. rewrite negb_true_iff.
  rewrite <- not_true_iff_false, Qle_bool_iff.
  change (inject_Z (-1)) with (-1 # 1)%Q. split; intros H; lra.
Qed.

Lemma distinctPrices_pairwise (l : list ProcessedFlight) :
  distinctPrices l <-> pairwise differ l.
Proof. induction l; simpl; [tauto|]. rewrite IHl. tauto. Qed.

Lemma sorted_distinct (l : list ProcessedFlight) :
  StronglySorted cheaper l -> pairwise differ l.
Proof.
  induction 1 as [|a r _ IH Ha]; simpl; [exact I|]. split; [|exact IH].
  eapply Forall_impl; [exact Ha|]. unfold cheaper, differ. intros b Hb. lra.
Qed.

Lemma sorted_rev (l : list ProcessedFlight) :
  StronglySorted cheaper l -> StronglySorted dearer (rev l).
Proof.
  induction 1 as [|a r _ IH Ha]; simpl; [constructor|].
  apply StronglySorted_app_2; [|exact IH|repeat constructor].
  intros x y Hx Hy. apply list_elem_of_singleton in Hy as ->.
  apply list_elem_of_In, in_rev, list_elem_of_In in Hx.
  rewrite Forall_forall in Ha. apply (Ha x Hx).
Qed.

Section Sorting.
Variable getTime : string -> option Z.

Lemma sort_asc_sorted (xs : list ProcessedFlight) :
  distinctPrices xs -> StronglySorted cheaper (sortFlights getTime xs ByPrice Asc).
Proof.
  intros Hd. unfold sortFlights.
  apply (arraySort_sorted _ cheaper differ).
  - apply precedes_asc.
  - unfold cheaper. intros x y z ? ?. lra.
  - unfold cheaper, differ. intros x y ?. lra.
  - unfold differ. intros x y ?. lra.
  - apply distinctPrices_pairwise, Hd.
Qed.

Lemma sort_desc_sorted (xs : list ProcessedFlight) :
  distinctPrices xs -> StronglySorted dearer (sortFlights getTime xs ByPrice Desc).
Proof.
  intros Hd. unfold sortFlights.
  apply (arraySort_sorted _ dearer differ).
  - apply precedes_desc.
  - unfold dearer. intros x y z ? ?. lra.
  - unfold dearer, differ. intros x y ?. lra.
  - unfold differ. intros x y ?. lra.
  - apply distinctPrices_pairwise, Hd.
Qed.

Lemma sortFlights_perm (xs : list ProcessedFlight) (key : SortKey) (order : SortOrder) :
  Permutation (sortFlights getTime xs key order) xs.
Proof. unfold sortFlights. apply arraySort_perm. Qed.

(** C8.  For a non-empty list of flights with pairwise distinct prices,
    the ascending pass returns the flights of the list, each once, in
    strictly increasing order of price, and it is not empty; sorting that
    result by price in descending order gives exactly the ascending order
    reversed. *)
Theorem sortFlights_desc_of_asc_is_reverse (xs : list ProcessedFlight) :
  xs <> [] ->
  distinctPrices xs ->
  let ascending := sortFlights getTime xs ByPrice Asc in
  Permutation ascending xs
  /\ StronglySorted cheaper ascending
  /\ ascending <> []
  /\ sortFlights getTime ascending ByPrice Desc = rev ascending.
Proof.
  intros Hne Hd ascending. subst ascending.
  pose proof (sort_asc_sorted xs Hd) as Hasc.
  pose proof (sortFlights_perm xs ByPrice Asc) as Hperm.
  split; [exact Hperm|]. split; [exact Hasc|]. split.
  - intros Hnil. rewrite Hnil in Hperm. apply Permutation_nil in Hperm.
    contradiction.
  - apply (StronglySorted_unique_strong dearer).
    + unfold dearer. intros x y _ _ H1 H2. lra.
    + apply sort_desc_sorted, distinctPrices_pairwise, sorted_distinct, Hasc.
    + apply sorted_rev, Hasc.
    + rewrite sortFlights_perm. apply Permutation_rev.
Qed.

End Sorting.

Example sort_asc_sample :
  sortFlights IsoDate.getTime [twoLegFlight; directFlight; fourLegFlight] ByPrice Asc
  = [fourLegFlight; twoLegFlight; directFlight].
Proof. vm_compute. reflexivity. Qed.

Example sort_desc_sample :
  sortFlights IsoDate.getTime [fourLegFlight; twoLegFlight; directFlight] ByPrice Desc
  = [directFlight; twoLegFlight; fourLegFlight].
Proof. vm_compute. reflexivity. Qed.

Lemma sample_distinct : distinctPrices [twoLegFlight; directFlight; fourLegFlight].
Proof.
  simpl. repeat split; repeat constructor; intros H; vm_compute in H; discriminate.
Qed.

(** The list of the sample is in neither order: its prices are 450, 620
    and 300. *)
Lemma sortFlights_desc_of_asc_is_reverse_witness :
  let ascending :=
    sortFlights IsoDate.getTime [twoLegFlight; directFlight; fourLegFlight]
      ByPrice Asc in
  Permutation ascending [twoLegFlight; directFlight; fourLegFlight]
  /\ StronglySorted cheaper ascending
  /\ ascending <> []
  /\ sortFlights IsoDate.getTime ascending ByPrice Desc = rev ascending.
Proof.
  apply (sortFlights_desc_of_asc_is_reverse IsoDate.getTime
           [twoLegFlight; directFlight; fourLegFlight]).
  - discriminate.
  - exact sample_distinct.
Defined.

End SortReverse.

(* ===================================================================== *)
(** * The fuzzy matcher *)
(* ===================================================================== *)

Module FuzzyMatcher.
Import AirportsRoute Statements.

Local Open Scope string_scope.
Local Open Scope Z_scope.

(** ** The edit distance *)

Lemma editDistance_nil_l (t : string) : editDistance "" t = Js.len t.
Proof. destruct t; reflexivity. Qed.

Lemma editDistance_nil_r (s : string) : editDistance s "" = Js.len s.
Proof. destruct s; reflexivity. Qed.

Lemma editDistance_cons (a b : ascii) (s t : string) :
  editDistance (String a s) (String b t)
  = min3 (editDistance s t + cost a b)
         (editDistance (String a s) t + 1)
         (editDistance s (String b t) + 1).
Proof. reflexivity. Qed.

Lemma len_cons (a : ascii) (s : string) : Js.len (String a s) = Js.len s + 1.
Proof. unfold Js.len. simpl String.length. lia. Qed.

Lemma len_nonneg (s : string) : 0 <= Js.len s.
Proof. unfold Js.len. lia. Qed.

Lemma len_snoc (s : string) (c : ascii) : Js.len (snoc s c) = Js.len s + 1.
Proof.
  unfold snoc. induction s as [|x s IH]; [reflexivity|].
  change (String x s ++ String c "") with (String x (s ++ String c "")).
  rewrite !len_cons, IH. reflexivity.
Qed.

Lemma cost_range (a b : ascii) : 0 <= cost a b <= 1.
Proof. unfold cost. destruct (Ascii.eqb a b); lia. Qed.

Lemma editDistance_nonneg (s t : string) : 0 <= editDistance s t.
Proof.
  revert t. induction s as [|a s IHs]; intros t.
  - rewrite editDistance_nil_l. apply len_nonneg.
  - induction t as [|b t IHt].
    + rewrite editDistance_nil_r. apply len_nonneg.
    + rewrite editDistance_cons. pose proof (IHs t). pose proof (IHs (String b t)).
      pose proof (cost_range a b). unfold min3. lia.
Qed.

Lemma min3_le (a b c : Z) :
  min3 a b c <= a /\ min3 a b c <= b /\ min3 a b c <= c.
Proof. unfold min3. lia. Qed.

Lemma min3_glb (m a b c : Z) : m <= a -> m <= b -> m <= c -> m <= min3 a b c.
Proof. unfold min3. lia. Qed.

Lemma min3_glb_shift (m a b c k : Z) :
  m <= a + k -> m <= b + k -> m <= c + k -> m <= min3 a b c + k.
Proof. unfold min3. lia. Qed.

(** Replace every [min3] by a variable known to lie below its arguments. *)
Ltac forget_min3 :=
  repeat match goal with
  | |- context [min3 ?a ?b ?c] =>
      let H := fresh "Hmin" in let m := fresh "m" in
      pose proof (min3_le a b c) as H; set (m := min3 a b c) in *; clearbody m
  | H0 : context [min3 ?a ?b ?c] |- _ =>
      let H := fresh "Hmin" in let m := fresh "m" in
      pose proof (min3_le a b c) as H; set (m := min3 a b c) in *; clearbody m
  end.

(** The recurrence that peels off the first characters also holds for the
    last characters. *)
Lemma editDistance_snoc_aux (n : nat) :
  forall (s t : string) (a b : ascii),
    (String.length s + String.length t < n)%nat ->
    editDistance (snoc s a) (snoc t b)
    = min3 (editDistance s t + cost a b)
           (editDistance (snoc s a) t + 1)
           (editDistance s (snoc t b) + 1).
Proof.
  induction n as [|n IH]; intros s t a b Hn; [lia|].
  destruct s as [|x s], t as [|y t].
  - reflexivity.
  - change (snoc "" a) with (String a "").
    change (snoc (String y t) b) with (String y (snoc t b)).
    rewrite !editDistance_cons, !editDistance_nil_l.
    pose proof (IH "" t a b) as H1. change (snoc "" a) with (String a "") in H1.
    rewrite H1 by (simpl in *; lia).
    rewrite !editDistance_nil_l, !len_cons, !len_snoc.
    unfold min3. lia.
  - change (snoc "" b) with (String b "").
    change (snoc (String x s) a) with (String x (snoc s a)).
    rewrite !editDistance_cons, !editDistance_nil_r.
    pose proof (IH s "" a b) as H1. change (snoc "" b) with (String b "") in H1.
    rewrite H1 by (simpl in *; lia).
    rewrite !editDistance_nil_r, !len_cons, !len_snoc.
    unfold min3. lia.
  - change (snoc (String x s) a) with (String x (snoc s a)).
    change (snoc (String y t) b) with (String y (snoc t b)).
    rewrite !editDistance_cons.
    pose proof (IH s t a b) as H1.
    pose proof (IH (String x s) t a b) as H2.
    pose proof (IH s (String y t) a b) as H3.
    change (snoc (String x s) a) with (String x (snoc s a)) in H2.
    change (snoc (String y t) b) with (String y (snoc t b)) in H3.
    rewrite H1, H2, H3 by (simpl in *; lia).
    apply Z.le_antisymm; apply min3_glb; apply min3_glb_shift; forget_min3; lia.
Qed.

Lemma editDistance_snoc (s t : string) (a b : ascii) :
  editDistance (snoc s a) (snoc t b)
  = min3 (editDistance s t + cost a b)
         (editDistance (snoc s a) t + 1)
         (editDistance s (snoc t b) + 1).
Proof. apply (editDistance_snoc_aux (S (String.length s + String.length t))). lia. Qed.

Lemma editDistance_sym (s t : string) : editDistance s t = editDistance t s.
Proof.
  revert t. induction s as [|a s IHs]; intros t.
  - rewrite editDistance_nil_l, editDistance_nil_r. reflexivity.
  - induction t as [|b t IHt].
    + rewrite editDistance_nil_l, editDistance_nil_r. reflexivity.
    + rewrite !editDistance_cons, IHt, (IHs t), (IHs (String b t)).
      unfold cost. rewrite (Ascii.eqb_sym a b). unfold min3. lia.
Qed.

(** Dropping the last character of one string changes the distance by at
    most one. *)
Lemma editDistance_drop_last_aux (n : nat) :
  forall (s t : string) (a : ascii),
    (String.length s + String.length t < n)%nat ->
    editDistance s t <= editDistance (snoc s a) t + 1.
Proof.
  induction n as [|n IH]; intros s t a Hn; [lia|].
  destruct s as [|x s], t as [|y t].
  - rewrite !editDistance_nil_r, len_snoc. lia.
  - change (snoc "" a) with (String a "").
    rewrite editDistance_cons, !editDistance_nil_l, !len_cons.
    assert (H1 : editDistance "" t <= editDistance (snoc "" a) t + 1)
      by (apply IH; simpl in *; lia).
    change (snoc "" a) with (String a "") in H1.
    rewrite editDistance_nil_l in H1.
    pose proof (cost_range a y). unfold min3. lia.
  - rewrite !editDistance_nil_r, len_snoc. lia.
  - change (snoc (String x s) a) with (String x (snoc s a)).
    rewrite !editDistance_cons.
    assert (H1 : editDistance s t <= editDistance (snoc s a) t + 1)
      by (apply IH; simpl in *; lia).
    assert (H2 : editDistance (String x s) t
                 <= editDistance (snoc (String x s) a) t + 1)
      by (apply IH; simpl in *; lia).
    assert (H3 : editDistance s (String y t)
                 <= editDistance (snoc s a) (String y t) + 1)
      by (apply IH; simpl in *; lia).
    change (snoc (String x s) a) with (String x (snoc s a)) in H2.
    unfold min3. lia.
Qed.

Lemma editDistance_drop_last_l (s t : string) (a : ascii) :
  editDistance s t <= editDistance (snoc s a) t + 1.
Proof. apply (editDistance_drop_last_aux (S (String.length s + String.length t))). lia. Qed.

Lemma editDistance_drop_last_r (s t : string) (b : ascii) :
  editDistance s t <= editDistance s (snoc t b) + 1.
Proof.
  rewrite (editDistance_sym s t), (editDistance_sym s (snoc t b)).
  apply editDistance_drop_last_l.
Qed.

(** The cell rule of the source: the diagonal when the characters agree,
    one more than the least neighbour otherwise. *)
Lemma cell_rule (P Q : string) (c1 c2 : ascii) :
  (if Ascii.eqb c2 c1 then editDistance P Q
   else min3 (editDistance P Q + 1)
             (editDistance P (snoc Q c2) + 1)
             (editDistance (snoc P c1) Q + 1))
  = editDistance (snoc P c1) (snoc Q c2).
Proof.
  rewrite editDistance_snoc. unfold cost. rewrite (Ascii.eqb_sym c1 c2).
  pose proof (editDistance_drop_last_l P Q c1).
  pose proof (editDistance_drop_last_r P Q c2).
  destruct (Ascii.eqb c2 c1); unfold min3; lia.
Qed.

(** ** The matrix of [levenshteinDistance] *)

Lemma levRow_head (Q P S : string) :
  levRow Q P S = editDistance P Q :: tl (levRow Q P S).
Proof. destruct S; reflexivity. Qed.

Lemma firstRow_spec (S P : string) : firstRow (Js.len P) S = levRow "" P S.
Proof.
  revert P. induction S as [|c S IH]; intros P; simpl.
  - rewrite editDistance_nil_r. reflexivity.
  - rewrite editDistance_nil_r. f_equal.
    rewrite <- IH, len_snoc. reflexivity.
Qed.

Lemma fillRow_spec (c2 : ascii) (Q S P : string) :
  fillRow c2 S (levRow Q P S) (editDistance P (snoc Q c2))
  = tl (levRow (snoc Q c2) P S).
Proof.
  revert P. induction S as [|c1 S IH]; intros P; [reflexivity|].
  cbn [levRow]. rewrite (levRow_head Q (snoc P c1) S).
  cbn [fillRow tl]. rewrite cell_rule.
  rewrite <- (levRow_head Q (snoc P c1) S), IH.
  symmetry. apply levRow_head.
Qed.

Lemma append_nil_r (s : string) : (s ++ "")%string = s.
Proof.
  induction s as [|c s IH]; [reflexivity|].
  change (String c s ++ "")%string with (String c (s ++ "")%string). rewrite IH. reflexivity.
Qed.

Lemma snoc_append (Q r : string) (b : ascii) :
  (snoc Q b ++ r)%string = (Q ++ String b r)%string.
Proof.
  unfold snoc. induction Q as [|c Q IH]; [reflexivity|].
  change (String c Q ++ String b "")%string with (String c (Q ++ String b "")%string).
  change (String c (Q ++ String b "") ++ r)%string
    with (String c ((Q ++ String b "") ++ r)%string).
  rewrite IH. reflexivity.
Qed.

Lemma fillRows_spec (s1 rest Q : string) :
  (levRow Q "" s1 :: fillRows s1 (levRow Q "" s1) (Js.len Q + 1) rest)
    !! String.length rest
  = Some (levRow (Q ++ rest)%string "" s1).
Proof.
  revert Q. induction rest as [|b r IH]; intros Q.
  - rewrite append_nil_r. reflexivity.
  - cbn [fillRows String.length]. rewrite lookup_cons.
    assert (Hrow : Js.len Q + 1 :: fillRow b s1 (levRow Q "" s1) (Js.len Q + 1)
                   = levRow (snoc Q b) "" s1).
    { rewrite (levRow_head (snoc Q b) "" s1), editDistance_nil_l, len_snoc.
      f_equal. rewrite <- fillRow_spec, editDistance_nil_l, len_snoc. reflexivity. }
    rewrite Hrow. rewrite <- (len_snoc Q b), IH, snoc_append. reflexivity.
Qed.

Lemma levRow_last (Q S P : string) :
  levRow Q P S !! String.length S = Some (editDistance (P ++ S)%string Q).
Proof.
  revert P. induction S as [|c S IH]; intros P.
  - rewrite append_nil_r. reflexivity.
  - cbn [levRow String.length]. rewrite lookup_cons, IH, snoc_append. reflexivity.
Qed.

(** The matrix computes the edit distance. *)
Lemma levenshteinDistance_correct (s1 s2 : string) :
  levenshteinDistance s1 s2 = editDistance s1 s2.
Proof.
  unfold levenshteinDistance, buildMatrix.
  pose proof (firstRow_spec s1 "") as Hrow. change (Js.len "") with 0 in Hrow.
  pose proof (fillRows_spec s1 s2 "") as Hrows.
  change (Js.len "" + 1) with 1 in Hrows. change ("" ++ s2)%string with s2 in Hrows.
  rewrite Hrow, Hrows. cbn [mbind option_bind].
  pose proof (levRow_last s2 s1 "") as Hlast.
  change ("" ++ s1)%string with s1 in Hlast. rewrite Hlast. reflexivity.
Qed.

Lemma editDistance_upper (s t : string) :
  editDistance s t <= Z.max (Js.len s) (Js.len t).
Proof.
  revert t. induction s as [|a s IHs]; intros t.
  - rewrite editDistance_nil_l. lia.
  - destruct t as [|b t].
    + rewrite editDistance_nil_r. lia.
    + rewrite editDistance_cons, !len_cons.
      pose proof (IHs t). pose proof (cost_range a b). unfold min3. lia.
Qed.

(** ** The string tests *)

Lemma startsWith_spec (haystack needle : string) :
  Js.startsWith haystack needle = true <->
  exists rest, haystack = (needle ++ rest)%string.
Proof.
  revert haystack. induction needle as [|a n IH]; intros haystack.
  - destruct haystack; simpl; split; eauto.
  - destruct haystack as [|b h]; simpl.
    + split; [discriminate|]. intros [rest H]. discriminate.
    + rewrite andb_true_iff, IH. split.
      * intros [Hab [rest ->]]. apply Ascii.eqb_eq in Hab as ->. eauto.
      * intros [rest H]. change (String a n ++ rest)%string
          with (String a (n ++ rest)%string) in H.
        injection H as -> ->. split; [apply Ascii.eqb_refl | eauto].
Qed.

Lemma includes_spec (haystack needle : string) :
  Js.includes haystack needle = true <->
  exists before rest, haystack = (before ++ needle ++ rest)%string.
Proof.
  induction haystack as [|b h IH].
  - change (Js.includes "" needle) with (Js.startsWith "" needle || false).
    rewrite orb_false_r. split.
    + intros H. apply startsWith_spec in H as [rest ->]. exists "", rest. reflexivity.
    + intros (before & rest & H). apply startsWith_spec.
      destruct before; [eauto | discriminate].
  - change (Js.includes (String b h) needle)
      with (Js.startsWith (String b h) needle || Js.includes h needle).
    rewrite orb_true_iff. split.
    + intros [H|H].
      * apply startsWith_spec in H as [rest ->]. exists "", rest. reflexivity.
      * apply IH in H as (before & rest & ->). exists (String b before), rest.
        reflexivity.
    + intros (before & rest & H). destruct before as [|c before].
      * left. apply startsWith_spec. exists rest. exact H.
      * right. apply IH.
        change (String c before ++ needle ++ rest)%string
          with (String c (before ++ needle ++ rest)%string) in H.
        injection H as -> ->. eauto.
Qed.

(** ** The score *)






Example score_exact : fuzzyScore "JFK" "jfk" = 1%Q.
Proof. reflexivity. Qed.

Example score_prefix : fuzzyScore "JFK" "JFKX" = (9 # 10)%Q.
Proof. reflexivity. Qed.

Example score_contains : fuzzyScore "york" "New York" = (7 # 10)%Q.
Proof. reflexivity. Qed.

Example distance_sample : levenshteinDistance "kitten" "sitting" = 3.
Proof. reflexivity. Qed.

Example score_typo : (fuzzyScore "Lodnon" "London" == 1 # 3)%Q.
Proof. vm_compute. reflexivity. Qed.

Example score_unrelated : (fuzzyScore "JFK" "XYZ" == 0)%Q.
Proof. vm_compute. reflexivity. Qed.


End FuzzyMatcher.

(* ===================================================================== *)
(** * GET /flights: validation of the airport codes *)
(* ===================================================================== *)

Module FlightsValidation.
Import FlightsRoute Samples.

Local Open Scope string_scope.
Local Open Scope Z_scope.

Lemma upperChar_of_upper (c : ascii) : Js.isUpper c = true -> Js.upperChar c = c.
Proof.
  unfold Js.upperChar, Js.isUpper, Js.isLower. intros H.
  apply andb_true_iff in H as [H1 H2]. apply Z.leb_le in H1, H2.
  destruct (97 <=? Js.code c) eqn:E; [|reflexivity].
  apply Z.leb_le in E. lia.
Qed.

(** A code that passes the schema is three upper-case letters, and the
    transform returns it as it came. *)
Lemma codeSchema_accepts (val out : string) :
  codeSchema val = Some out -> isThreeUpper val = true /\ out = val.
Proof.
  unfold codeSchema. intros H.
  destruct (isThreeUpper val) eqn:E; [|rewrite andb_false_r in H; discriminate].
  split; [reflexivity|].
  destruct ((3 <=? Js.len val) && (Js.len val <=? 3)); [|discriminate].
  simpl in H. injection H as <-.
  destruct val as [|a [|b [|c [|]]]]; try discriminate.
  simpl in E. apply andb_true_iff in E as [E Ec]. apply andb_true_iff in E as [Ea Eb].
  unfold Js.toUpperCase. simpl.
  rewrite !upperChar_of_upper by assumption. reflexivity.
Qed.

(** A code with a lower-case letter does not pass. *)
Lemma codeSchema_rejects_lowercase : codeSchema "lhr" = None.
Proof. reflexivity. Qed.

Section AnyHost.
Variable dateValue : string -> option Z.
Variable todayStart : Z.
Variable nowISO : string.
Variable client : option (SearchParams -> Result string (list ProcessedFlight)).

Lemma lowercase_arrival_invalid :
  parseSearchParams dateValue todayStart lowercaseArrivalQuery
  = {| valid := false; data := None; errors := Some [] |}.
Proof. reflexivity. Qed.

(** C2 (amended).  The request with [arrival=lhr] fails validation,
    whatever the date and the client, and is answered with status 400;
    the same request with [arrival=LHR] and a departure date that is not
    in the past passes, and when the search succeeds the 200 response
    carries [meta.searchParams.arrival = "LHR"]. *)
Theorem arrival_code_must_be_uppercase (search : SearchParams -> Result string (list ProcessedFlight))
    (flights : list ProcessedFlight) :
  client = Some search ->
  notBeforeToday dateValue todayStart "2099-01-01" = true ->
  (forall p, sp_arrival p = "LHR" -> sp_departure p = "JFK" -> search p = Ok flights) ->
  GET dateValue todayStart nowISO client lowercaseArrivalQuery
  = {| status := 400;
       body := Failure "Validation failed" None (Some []);
       cacheControl := None |}
  /\ exists validated,
       parseSearchParams dateValue todayStart uppercaseArrivalQuery
       = {| valid := true; data := Some validated; errors := None |}
       /\ arrival validated = "LHR"
       /\ GET dateValue todayStart nowISO client uppercaseArrivalQuery
          = {| status := 200;
               body := Success flights (Z.of_nat (length flights)) validated nowISO;
               cacheControl :=
                 Some "public, s-maxage=300, stale-while-revalidate=600" |}.
Proof.
  intros Hclient Hdate Hsearch. split; [reflexivity|].
  exists {| departure := "JFK"; arrival := "LHR"; departDate := "2099-01-01";
            returnDate := None; adults := 2; children := 0; max := 50 |}.
  assert (Hparse :
    parseSearchParams dateValue todayStart uppercaseArrivalQuery
    = {| valid := true;
         data := Some {| departure := "JFK"; arrival := "LHR";
                         departDate := "2099-01-01"; returnDate := None;
                         adults := 2; children := 0; max := 50 |};
         errors := None |}).
  { unfold parseSearchParams, flightSearchSchema, departDateSchema. simpl.
    rewrite Hdate. reflexivity. }
  split; [exact Hparse|]. split; [reflexivity|].
  unfold GET. rewrite Hparse, Hclient. cbn [valid data].
  rewrite Hsearch by reflexivity. reflexivity.
Qed.

End AnyHost.

Lemma arrival_code_must_be_uppercase_witness :
  GET IsoDate.getTime sampleToday sampleNowISO sampleClient lowercaseArrivalQuery
  = {| status := 400;
       body := Failure "Validation failed" None (Some []);
       cacheControl := None |}
  /\ exists validated,
       parseSearchParams IsoDate.getTime sampleToday uppercaseArrivalQuery
       = {| valid := true; data := Some validated; errors := None |}
       /\ arrival validated = "LHR"
       /\ GET IsoDate.getTime sampleToday sampleNowISO sampleClient uppercaseArrivalQuery
          = {| status := 200;
               body := Success [directFlight] (Z.of_nat (length [directFlight]))
                         validated sampleNowISO;
               cacheControl :=
                 Some "public, s-maxage=300, stale-while-revalidate=600" |}.
Proof.
  apply (arrival_code_must_be_uppercase IsoDate.getTime sampleToday sampleNowISO
           sampleClient (fun _ => Ok [directFlight]) [directFlight]).
  - reflexivity.
  - vm_compute. reflexivity.
  - intros p _ _. reflexivity.
Defined.

(** C2 as stated fails: the request with [arrival=lhr] is not answered
    with a 200 response. *)
Lemma lowercase_arrival_rejected :
  valid (parseSearchParams IsoDate.getTime sampleToday lowercaseArrivalQuery) = false
  /\ status (GET IsoDate.getTime sampleToday sampleNowISO sampleClient
                 lowercaseArrivalQuery) = 400.
Proof. split; reflexivity. Qed.

End FlightsValidation.

(* ===================================================================== *)
(** * The rate limiter *)
(* ===================================================================== *)

Module RateLimiter.
Import Amadeus Statements.

Local Open Scope Z_scope.

Section Limiter.
Variable cfg : Config.
Variable key : string.

(** Inside the window nothing is reset. *)
Lemma currentWindow_inside (now : Z) (info : RateLimitInfo) :
  now < resetTime info -> currentWindow cfg now (Some info) = info.
Proof.
  intros H. unfold currentWindow. simpl.
  destruct (resetTime info <=? now) eqn:E; [apply Z.leb_le in E; lia|reflexivity].
Qed.

(** At or after the reset instant a new window starts. *)
Lemma currentWindow_expired (now : Z) (info : RateLimitInfo) :
  resetTime info <= now ->
  currentWindow cfg now (Some info)
  = {| requestCount := 0; resetTime := now + RATE_LIMIT_WINDOW cfg |}.
Proof.
  intros H. unfold currentWindow. simpl.
  destruct (resetTime info <=? now) eqn:E; [reflexivity|apply Z.leb_gt in E; lia].
Qed.

(** One call, in terms of the window it starts from: below the quota it
    is granted and the stored count is the window's count plus one. *)
Lemma checkRateLimit_granted (w : World) :
  let win := currentWindow cfg (clock w) (rateLimitMap w !! key) in
  requestCount win < RATE_LIMIT cfg ->
  exists w',
    checkRateLimit cfg key w = (Ok true, w')
    /\ rateLimitMap w' !! key
       = Some {| requestCount := requestCount win + 1; resetTime := resetTime win |}
    /\ clock w' = clock w
    /\ trace w' = trace w ++ [RateLimitCheck key true].
Proof.
  intros win Hlt. unfold checkRateLimit, bind, dateNow, gets, modify, log, ret.
  fold win. destruct (RATE_LIMIT cfg <=? requestCount win) eqn:E.
  { apply Z.leb_le in E. lia. }
  eexists. split; [reflexivity|]. simpl.
  rewrite lookup_insert_eq. auto.
Qed.

(** At the quota the call is refused; a stored record stays, with the
    values of the window. *)
Lemma checkRateLimit_refused (w : World) (info : RateLimitInfo) :
  rateLimitMap w !! key = Some info ->
  let win := currentWindow cfg (clock w) (Some info) in
  RATE_LIMIT cfg <= requestCount win ->
  exists w',
    checkRateLimit cfg key w = (Ok false, w')
    /\ rateLimitMap w' !! key = Some win
    /\ clock w' = clock w
    /\ trace w' = trace w ++ [RateLimitCheck key false].
Proof.
  intros Hst win Hge. unfold checkRateLimit, bind, dateNow, gets, modify, log, ret.
  rewrite Hst. fold win. destruct (RATE_LIMIT cfg <=? requestCount win) eqn:E.
  2:{ apply Z.leb_gt in E. lia. }
  eexists. split; [reflexivity|]. simpl.
  rewrite lookup_insert_eq. auto.
Qed.

(** A call inside the window of a stored record. *)
Lemma checkRateLimit_inside (w : World) (t c r : Z) :
  rateLimitMap w !! key = Some {| requestCount := c; resetTime := r |} ->
  t < r ->
  exists w',
    checkRateLimit cfg key (setClock t w) = (Ok (c <? RATE_LIMIT cfg), w')
    /\ rateLimitMap w' !! key
       = Some {| requestCount := if c <? RATE_LIMIT cfg then c + 1 else c;
                 resetTime := r |}.
Proof.
  intros Hst Ht.
  destruct (c <? RATE_LIMIT cfg) eqn:E.
  - apply Z.ltb_lt in E.
    destruct (checkRateLimit_granted (setClock t w)) as (w' & Hrun & Hmap & _).
    { simpl. rewrite Hst, currentWindow_inside by (simpl; lia). simpl. lia. }
    exists w'. split; [exact Hrun|]. rewrite Hmap. simpl.
    rewrite Hst, currentWindow_inside by (simpl; lia). reflexivity.
  - apply Z.ltb_ge in E.
    destruct (checkRateLimit_refused (setClock t w) _ Hst) as (w' & Hrun & Hmap & _).
    { simpl. rewrite currentWindow_inside by (simpl; lia). simpl. lia. }
    exists w'. split; [exact Hrun|]. rewrite Hmap. simpl.
    rewrite currentWindow_inside by (simpl; lia). reflexivity.
Qed.

Lemma expectedAnswers_cons (q c : Z) (n : nat) :
  expectedAnswers q c (S n)
  = Ok (c <? q) :: expectedAnswers q (if c <? q then c + 1 else c) n.
Proof.
  unfold expectedAnswers. cbn [seq List.map]. f_equal.
  - f_equal. f_equal. lia.
  - rewrite <- seq_shift, List.map_map. apply List.map_ext. intros i.
    f_equal. destruct (c <? q) eqn:E.
    + f_equal. lia.
    + apply Z.ltb_ge in E. transitivity false; [|symmetry]; apply Z.ltb_ge; lia.
Qed.

(** A run of calls that all fall inside the window of a stored record. *)
Lemma acquireAll_inside (instants : list Z) :
  forall (w : World) (c r : Z),
    rateLimitMap w !! key = Some {| requestCount := c; resetTime := r |} ->
    Forall (fun t => t < r) instants ->
    fst (acquireAll cfg key instants w)
    = expectedAnswers (RATE_LIMIT cfg) c (length instants).
Proof.
  induction instants as [|t rest IH]; intros w c r Hst Hall; [reflexivity|].
  apply Forall_cons in Hall as [Ht Hrest].
  destruct (checkRateLimit_inside w t c r Hst Ht) as (w' & Hrun & Hmap).
  cbn [acquireAll length]. rewrite Hrun.
  specialize (IH w' _ r Hmap Hrest).
  destruct (acquireAll cfg key rest w') as [answers w''].
  cbn [fst] in *. rewrite IH, expectedAnswers_cons. reflexivity.
Qed.

(** C6.  With a positive quota: from a fresh window (the count the first
    call starts from is zero) the calls that fall before the reset
    instant are granted exactly as long as fewer than [RATE_LIMIT] have
    been granted, so the first [RATE_LIMIT] of them return [true] and
    all later ones [false]; and a call at or after the reset instant of
    the stored record starts a new window with count zero and reset
    instant [now + RATE_LIMIT_WINDOW], returns [true], and leaves the
    count at one. *)
Theorem rate_limiter_fixed_window :
  0 < RATE_LIMIT cfg ->
  (forall (w : World) (t1 : Z) (later : list Z),
     let win := currentWindow cfg t1 (rateLimitMap w !! key) in
     requestCount win = 0 ->
     Forall (fun t => t < resetTime win) (t1 :: later) ->
     fst (acquireAll cfg key (t1 :: later) w)
     = List.map (fun i => Ok (Z.of_nat i <? RATE_LIMIT cfg))
                (seq 0 (length (t1 :: later))))
  /\ (forall (w : World) (info : RateLimitInfo) (now : Z),
        rateLimitMap w !! key = Some info ->
        resetTime info <= now ->
        currentWindow cfg now (Some info)
        = {| requestCount := 0; resetTime := now + RATE_LIMIT_WINDOW cfg |}
        /\ exists w',
             checkRateLimit cfg key (setClock now w) = (Ok true, w')
             /\ rateLimitMap w' !! key
                = Some {| requestCount := 1;
                          resetTime := now + RATE_LIMIT_WINDOW cfg |}).
Proof.
  intros Hq. split.
  - intros w t1 later win Hzero Hall.
    apply Forall_cons in Hall as [Ht1 Hlater].
    destruct (checkRateLimit_granted (setClock t1 w)) as (w' & Hrun & Hmap & _).
    { simpl. fold win. lia. }
    simpl in Hmap. fold win in Hmap. rewrite Hzero in Hmap.
    pose proof (acquireAll_inside later w' _ _ Hmap Hlater) as Hrest.
    cbn [acquireAll length]. rewrite Hrun.
    destruct (acquireAll cfg key later w') as [answers w''].
    cbn [fst] in *. rewrite Hrest.
    change (List.map (fun i => Ok (Z.of_nat i <? RATE_LIMIT cfg))
              (seq 0 (S (length later))))
      with (expectedAnswers (RATE_LIMIT cfg) 0 (S (length later))).
    rewrite expectedAnswers_cons.
    destruct (0 <? RATE_LIMIT cfg) eqn:E; [reflexivity|apply Z.ltb_ge in E; lia].
  - intros w info now Hst Hexp.
    pose proof (currentWindow_expired now info Hexp) as Hwin.
    split; [exact Hwin|].
    destruct (checkRateLimit_granted (setClock now w)) as (w' & Hrun & Hmap & _).
    { simpl. rewrite Hst, Hwin. simpl. lia. }
    exists w'. split; [exact Hrun|]. rewrite Hmap. simpl.
    rewrite Hst, Hwin. reflexivity.
Qed.

End Limiter.

Import Samples.

(** The scenario of the specification: quota 3, window 60 s. *)
Lemma rate_limiter_fixed_window_witness :
  fst (acquireAll quotaThree "global" [0; 10; 20; 59999]
         (newWorld grantingAuth healthyApi))
  = [Ok true; Ok true; Ok true; Ok false]
  /\ exists w',
       checkRateLimit quotaThree "global" (setClock 60000 exhaustedWorld) = (Ok true, w')
       /\ rateLimitMap w' !! "global"
          = Some {| requestCount := 1; resetTime := 60000 + 60 * 1000 |}.
Proof.
  destruct (rate_limiter_fixed_window quotaThree "global") as [Hrun Hreset].
  { reflexivity. }
  split.
  - apply (Hrun (newWorld grantingAuth healthyApi) 0 [10; 20; 59999]).
    + reflexivity.
    + repeat constructor.
  - apply (Hreset exhaustedWorld {| requestCount := 30; resetTime := 60000 |} 60000).
    + reflexivity.
    + simpl. lia.
Defined.

Example limiter_run_default :
  fst (acquireAll defaultConfig "global" (repeat 5 31)
         (newWorld grantingAuth healthyApi))
  = repeat (Ok true) 30 ++ [Ok false].
Proof. vm_compute. reflexivity. Qed.

End RateLimiter.

(* ===================================================================== *)
(** * The token manager *)
(* ===================================================================== *)

Module TokenManager.
Import Amadeus Statements Samples.

Local Open Scope Z_scope.

Section Tokens.
Variable cfg : Config.
Variable JSON_stringify : JsVal -> string.

(** A refresh always calls the identity endpoint once. *)
Lemma refreshToken_calls (w : World) :
  authCalls (snd (refreshToken JSON_stringify w)) = S (authCalls w)
  /\ exists more,
       trace (snd (refreshToken JSON_stringify w)) = trace w ++ TokenRequest :: more.
Proof.
  unfold refreshToken, tryCatch, fetchToken, bind, gets, modify, log, elapse,
    dateNow, throw, ret.
  simpl.
  destruct (authServer w (authCalls w)) as [latency [e|st error|e|tok life]];
    simpl; (split; [reflexivity | exists []; reflexivity]).
Qed.

(** A granted refresh stores the token with the expiry computed from the
    instant at which the answer arrived. *)
Lemma refreshToken_granted (w : World) (latency life : Z) (tok : string) :
  authServer w (authCalls w) = (latency, TokenGranted tok life) ->
  exists w',
    refreshToken JSON_stringify w = (Ok tok, w')
    /\ cachedToken w'
       = Some {| token := tok; expiresAt := clock w + latency + life * 1000 |}
    /\ clock w' = clock w + latency.
Proof.
  intros Hs.
  unfold refreshToken, tryCatch, fetchToken, bind, gets, modify, log, elapse,
    dateNow, throw, ret.
  simpl. rewrite Hs. simpl.
  eexists. split; [reflexivity|]. simpl. auto.
Qed.

(** With a cached token, [getToken] answers from the cache exactly when
    the clock is before the expiry less the buffer. *)
Lemma getToken_cached (w : World) (c : CachedToken) :
  cachedToken w = Some c ->
  clock w < expiresAt c - TOKEN_BUFFER cfg ->
  getToken cfg JSON_stringify w = (Ok (token c), w).
Proof.
  intros Hc Hlt. unfold getToken, bind, dateNow, gets, ret. rewrite Hc.
  destruct (clock w <? expiresAt c - TOKEN_BUFFER cfg) eqn:E;
    [reflexivity|apply Z.ltb_ge in E; lia].
Qed.

Lemma getToken_stale (w : World) (c : CachedToken) :
  cachedToken w = Some c ->
  expiresAt c - TOKEN_BUFFER cfg <= clock w ->
  getToken cfg JSON_stringify w = refreshToken JSON_stringify w.
Proof.
  intros Hc Hge. unfold getToken, bind, dateNow, gets, ret. rewrite Hc.
  destruct (clock w <? expiresAt c - TOKEN_BUFFER cfg) eqn:E;
    [apply Z.ltb_lt in E; lia|reflexivity].
Qed.

Lemma getToken_empty (w : World) :
  cachedToken w = None ->
  getToken cfg JSON_stringify w = refreshToken JSON_stringify w.
Proof.
  intros Hc. unfold getToken, bind, dateNow, gets, ret. rewrite Hc. reflexivity.
Qed.

(** C5 (amended).  A token obtained at instant [t0] with a reported
    lifetime of [life] seconds is stored with expiry [t0 + life * 1000];
    every later [getToken] at an instant before
    [t0 + life * 1000 - TOKEN_BUFFER] returns it and leaves the state
    untouched, and every call at that instant or later performs a
    refresh, which calls the identity endpoint. *)
Theorem token_reused_before_buffer (w : World) (latency life : Z) (tok : string) :
  cachedToken w = None ->
  authServer w (authCalls w) = (latency, TokenGranted tok life) ->
  let t0 := clock w + latency in
  exists w1,
    getToken cfg JSON_stringify w = (Ok tok, w1)
    /\ cachedToken w1 = Some {| token := tok; expiresAt := t0 + life * 1000 |}
    /\ (forall t, t < t0 + life * 1000 - TOKEN_BUFFER cfg ->
          getToken cfg JSON_stringify (setClock t w1) = (Ok tok, setClock t w1))
    /\ (forall t, t0 + life * 1000 - TOKEN_BUFFER cfg <= t ->
          getToken cfg JSON_stringify (setClock t w1)
          = refreshToken JSON_stringify (setClock t w1)
          /\ authCalls (snd (getToken cfg JSON_stringify (setClock t w1)))
             = S (authCalls w1)).
Proof.
  intros Hnone Hs t0.
  destruct (refreshToken_granted w latency life tok Hs) as (w1 & Hrun & Hc & Hclock).
  exists w1. rewrite getToken_empty by exact Hnone.
  split; [exact Hrun|]. split; [exact Hc|]. split.
  - intros t Ht.
    apply (getToken_cached (setClock t w1)
             {| token := tok; expiresAt := t0 + life * 1000 |});
      [exact Hc | simpl; lia].
  - intros t Ht.
    assert (Hst : getToken cfg JSON_stringify (setClock t w1)
                  = refreshToken JSON_stringify (setClock t w1)).
    { apply (getToken_stale (setClock t w1)
               {| token := tok; expiresAt := t0 + life * 1000 |});
        [exact Hc | simpl; lia]. }
    split; [exact Hst|]. rewrite Hst.
    destruct (refreshToken_calls (setClock t w1)) as [Hcalls _]. exact Hcalls.
Qed.

End Tokens.

(** The scenario of the specification: lifetime 600 s, buffer 60 s. *)
Lemma token_reused_before_buffer_witness :
  let w := newWorld grantingAuth healthyApi in
  exists w1,
    getToken defaultConfig stringifyStub w = (Ok "token-1", w1)
    /\ cachedToken w1
       = Some {| token := "token-1"; expiresAt := (0 + 100) + 600 * 1000 |}
    /\ (forall t, t < (0 + 100) + 600 * 1000 - 60000 ->
          getToken defaultConfig stringifyStub (setClock t w1)
          = (Ok "token-1", setClock t w1))
    /\ (forall t, (0 + 100) + 600 * 1000 - 60000 <= t ->
          getToken defaultConfig stringifyStub (setClock t w1)
          = refreshToken stringifyStub (setClock t w1)
          /\ authCalls (snd (getToken defaultConfig stringifyStub (setClock t w1)))
             = S (authCalls w1)).
Proof.
  apply (token_reused_before_buffer defaultConfig stringifyStub
           (newWorld grantingAuth healthyApi) 100 600 "token-1").
  - reflexivity.
  - reflexivity.
Defined.

(** The state after the first token was obtained at instant [t0 = 100]. *)
Example first_token :
  cachedToken (snd (getToken defaultConfig stringifyStub (newWorld grantingAuth healthyApi)))
  = Some {| token := "token-1"; expiresAt := 600100 |}.
Proof. reflexivity. Qed.

(** C5 as stated fails: at [t0 + 540 s] exactly, which is [540100] here,
    the cached token is no longer returned from the cache; the call goes
    to the identity endpoint a second time. *)
Lemma token_refreshed_at_540_seconds :
  let w1 := snd (getToken defaultConfig stringifyStub (newWorld grantingAuth healthyApi)) in
  authCalls w1 = 1%nat
  /\ authCalls (snd (getToken defaultConfig stringifyStub (setClock (100 + 540 * 1000) w1)))
     = 2%nat
  /\ trace (snd (getToken defaultConfig stringifyStub (setClock (100 + 540 * 1000) w1)))
     = [TokenRequest; TokenRequest].
Proof. repeat split; reflexivity. Qed.

Example token_reused_just_before :
  let w1 := snd (getToken defaultConfig stringifyStub (newWorld grantingAuth healthyApi)) in
  getToken defaultConfig stringifyStub (setClock (100 + 540 * 1000 - 1) w1)
  = (Ok "token-1", setClock (100 + 540 * 1000 - 1) w1).
Proof. reflexivity. Qed.

End TokenManager.

(* ===================================================================== *)
(** * Sorting with ties *)
(* ===================================================================== *)

Module SortOrder.
Import FlightUtils Statements MoreStatements Samples.

(** A comparator that orders by a rational key. *)
Section ByKey.
Context {A : Type} (comparefn : A -> A -> option Q) (key : A -> Q).
Hypothesis precedes_key :
  forall x y, precedes comparefn x y = true <-> (key x < key y)%Q.

Lemma not_precedes_key (x y : A) :
  precedes comparefn x y = false -> (key y <= key x)%Q.
Proof.
  intros E. destruct (Qlt_le_dec (key x) (key y)) as [H|H]; [|exact H].
  apply precedes_key in H. congruence.
Qed.

Lemma insertSorted_ordered (x : A) (l : list A) :
  StronglySorted (keyLe key) l -> StronglySorted (keyLe key) (insertSorted comparefn x l).
Proof.
  induction 1 as [|y r Hr IH Hy]; simpl.
  - repeat constructor.
  - destruct (precedes comparefn x y) eqn:E.
    + apply precedes_key in E.
      constructor; [constructor; assumption|].
      constructor; [unfold keyLe; lra|].
      eapply Forall_impl; [exact Hy|]. unfold keyLe. intros z Hz. lra.
    + apply not_precedes_key in E.
      constructor; [exact IH|].
      rewrite SortReverse.insertSorted_perm.
      constructor; [exact E|exact Hy].
Qed.

Lemma fold_insert_ordered (l acc : list A) :
  StronglySorted (keyLe key) acc ->
  StronglySorted (keyLe key) (fold_left (fun acc x => insertSorted comparefn x acc) l acc).
Proof.
  revert acc. induction l as [|x l IH]; intros acc Hacc; simpl; [exact Hacc|].
  apply IH, insertSorted_ordered, Hacc.
Qed.

Lemma arraySort_ordered (l : list A) : StronglySorted (keyLe key) (arraySort comparefn l).
Proof. apply fold_insert_ordered. constructor. Qed.

Lemma insertSorted_tied (q : Q) (x : A) (l : list A) :
  StronglySorted (keyLe key) l ->
  List.filter (tied key q) (insertSorted comparefn x l)
  = if tied key q x then (List.filter (tied key q) l ++ [x])%list else List.filter (tied key q) l.
Proof.
  induction 1 as [|y r Hr IH Hy]; simpl.
  - destruct (tied key q x); reflexivity.
  - destruct (precedes comparefn x y) eqn:E.
    + apply precedes_key in E.
      destruct (tied key q x) eqn:Ex; cbn [List.filter]; rewrite Ex; [|reflexivity].
      apply Qeq_bool_iff in Ex.
      assert (Hy' : tied key q y = false).
      { apply not_true_iff_false. intros H. apply Qeq_bool_iff in H. lra. }
      assert (Hr' : List.filter (tied key q) r = []).
      { clear IH Hr. induction r as [|z r IHr]; [reflexivity|].
        apply Forall_cons in Hy as [Hz Hy]. cbn [List.filter].
        assert (Hz' : tied key q z = false).
        { apply not_true_iff_false. intros H. apply Qeq_bool_iff in H.
          unfold keyLe in Hz. lra. }
        rewrite Hz'. apply IHr, Hy. }
      rewrite Hy', Hr'. reflexivity.
    + cbn [List.filter]. rewrite IH.
      destruct (tied key q y), (tied key q x); reflexivity.
Qed.

Lemma fold_insert_tied (q : Q) (l acc : list A) :
  StronglySorted (keyLe key) acc ->
  List.filter (tied key q) (fold_left (fun acc x => insertSorted comparefn x acc) l acc)
  = (List.filter (tied key q) acc ++ List.filter (tied key q) l)%list.
Proof.
  revert acc. induction l as [|x l IH]; intros acc Hacc; simpl.
  - rewrite app_nil_r. reflexivity.
  - rewrite IH by (apply insertSorted_ordered, Hacc).
    rewrite insertSorted_tied by exact Hacc.
    destruct (tied key q x); [rewrite <- app_assoc|]; reflexivity.
Qed.

Lemma arraySort_stable (q : Q) (l : list A) :
  List.filter (tied key q) (arraySort comparefn l) = List.filter (tied key q) l.
Proof. unfold arraySort. rewrite fold_insert_tied by constructor. reflexivity. Qed.

End ByKey.

(** A comparator that decides a total preorder. *)
Section ByRelation.
Context {A : Type} (comparefn : A -> A -> option Q) (Rle : A -> A -> Prop).
Hypothesis precedes_le : forall x y, precedes comparefn x y = true -> Rle x y.
Hypothesis not_precedes_le : forall x y, precedes comparefn x y = false -> Rle y x.
Hypothesis Rle_trans : forall x y z, Rle x y -> Rle y z -> Rle x z.

Lemma insertSorted_related (x : A) (l : list A) :
  StronglySorted Rle l -> StronglySorted Rle (insertSorted comparefn x l).
Proof.
  induction 1 as [|y r Hr IH Hy]; simpl.
  - repeat constructor.
  - destruct (precedes comparefn x y) eqn:E.
    + constructor; [constructor; assumption|].
      constructor; [apply precedes_le, E|].
      eapply Forall_impl; [exact Hy|]. intros z Hz.
      eapply Rle_trans; [apply precedes_le, E|exact Hz].
    + constructor; [exact IH|].
      rewrite SortReverse.insertSorted_perm.
      constructor; [apply not_precedes_le, E|exact Hy].
Qed.

Lemma arraySort_related (l : list A) : StronglySorted Rle (arraySort comparefn l).
Proof.
  unfold arraySort.
  assert (H : forall acc, StronglySorted Rle acc ->
            StronglySorted Rle
              (fold_left (fun acc x => insertSorted comparefn x acc) l acc)).
  { induction l as [|x l IH]; intros acc Hacc; simpl; [exact Hacc|].
    apply IH, insertSorted_related, Hacc. }
  apply H. constructor.
Qed.

End ByRelation.

(** ** [sortFlights] by price, by duration and by stops *)

Lemma precedes_sortKey (getTime : string -> option Z) (sortBy : SortKey)
    (order : SortOrder) (k : ProcessedFlight -> Q) (a b : ProcessedFlight) :
  sortKey sortBy = Some k ->
  precedes (compareFn getTime sortBy (match order with Asc => 1 | Desc => -1 end)) a b
  = true
  <-> (directed order k a < directed order k b)%Q.
Proof.
  intros Hk. unfold precedes, directed.
  destruct sortBy; simpl in Hk; try discriminate; injection Hk as <-;
    destruct order; cbn [compareFn];
    rewrite negb_true_iff, <- not_true_iff_false, Qle_bool_iff;
    rewrite ?inject_Z_mult; unfold Z.sub; rewrite ?inject_Z_plus, ?inject_Z_opp;
    try change (inject_Z 1) with 1%Q; try change (inject_Z (-1)) with (-1 # 1)%Q;
    split; intros H; lra.
Qed.

Lemma tied_directed (order : SortOrder) (k : ProcessedFlight -> Q) (q : Q)
    (f : ProcessedFlight) :
  tied (directed order k) (match order with Asc => q | Desc => - q end)%Q f
  = tied k q f.
Proof.
  unfold tied, directed. destruct order; [reflexivity|].
  destruct (Qeq_bool (k f) q) eqn:E.
  - apply Qeq_bool_iff in E. apply Qeq_bool_iff. lra.
  - apply not_true_iff_false. intros H. apply Qeq_bool_iff in H.
    apply not_true_iff_false in E. apply E, Qeq_bool_iff. lra.
Qed.

(** Sorting by price, by duration or by stops, in either direction, returns
    a rearrangement of the input that is ordered by the key in that
    direction, and flights with equal keys keep the order they had in the
    input. *)
Theorem sortFlights_ordered_and_stable (getTime : string -> option Z)
    (xs : list ProcessedFlight) (sortBy : SortKey) (order : SortOrder)
    (k : ProcessedFlight -> Q) :
  sortKey sortBy = Some k ->
  let ys := sortFlights getTime xs sortBy order in
  Permutation ys xs
  /\ StronglySorted (keyLe (directed order k)) ys
  /\ forall q, List.filter (tied k q) ys = List.filter (tied k q) xs.
Proof.
  intros Hk ys. subst ys. unfold sortFlights.
  pose proof (fun a b => precedes_sortKey getTime sortBy order k a b Hk) as Hprec.
  split; [apply SortReverse.arraySort_perm|]. split.
  - apply (arraySort_ordered _ (directed order k) Hprec).
  - intros q.
    rewrite <- (List.filter_ext _ _ (tied_directed order k q)).
    rewrite <- (List.filter_ext _ _ (tied_directed order k q) xs).
    apply (arraySort_stable _ (directed order k) Hprec).
Qed.

Lemma sortFlights_ordered_and_stable_witness :
  let xs := [twoLegFlight; directFlight; fourLegFlight] in
  let ys := sortFlights IsoDate.getTime xs ByStops Desc in
  Permutation ys xs
  /\ StronglySorted (keyLe (directed Desc (fun f => inject_Z (stops f)))) ys
  /\ forall q, List.filter (tied (fun f => inject_Z (stops f)) q) ys
             = List.filter (tied (fun f => inject_Z (stops f)) q) xs.
Proof.
  apply (sortFlights_ordered_and_stable IsoDate.getTime
           [twoLegFlight; directFlight; fourLegFlight] ByStops Desc).
  reflexivity.
Defined.

End SortOrder.

(* ===================================================================== *)
(** * Price statistics *)
(* ===================================================================== *)

Module PriceStatistics.
Import FlightUtils FlightStats Statements MoreStatements Samples.

Lemma precedes_numeric (x y : Q) :
  precedes (fun a b => Some (a - b)%Q) x y = true <-> (x < y)%Q.
Proof.
  unfold precedes. rewrite negb_true_iff, <- not_true_iff_false, Qle_bool_iff.
  split; intros H; lra.
Qed.

Lemma numericSort_perm (xs : list Q) : Permutation (numericSort xs) xs.
Proof. apply SortReverse.arraySort_perm. Qed.

Lemma numericSort_sorted (xs : list Q) : StronglySorted Qle (numericSort xs).
Proof.
  apply (SortOrder.arraySort_ordered (fun a b => Some (a - b)%Q) (fun x => x)).
  apply precedes_numeric.
Qed.

Lemma numericSort_length (xs : list Q) : length (numericSort xs) = length xs.
Proof. apply Permutation_length, numericSort_perm. Qed.

Lemma sorted_nth (l : list Q) :
  StronglySorted Qle l ->
  forall i j, (i <= j < length l)%nat -> (nth i l 0 <= nth j l 0)%Q.
Proof.
  induction 1 as [|x r Hr IH Hx]; intros i j Hij; [simpl in Hij; lia|].
  destruct i as [|i], j as [|j]; simpl in *; try lia.
  - apply Qle_refl.
  - rewrite Forall_forall in Hx. apply Hx, list_elem_of_In, nth_In. lia.
  - apply IH. lia.
Qed.

Section Stats.
Variable flights : list ProcessedFlight.
Hypothesis nonempty : flights <> [].

Let prices := numericSort (List.map price flights).

Lemma stats_unfold :
  calculatePriceStats flights
  = {| ps_min := at_ prices 0;
       ps_max := at_ prices (length prices - 1);
       ps_average :=
         Binary64.div (sumPrices prices) (inject_Z (Z.of_nat (length prices)));
       ps_median :=
         if Nat.even (length prices)
         then ((at_ prices (length prices / 2 - 1)
                + at_ prices (length prices / 2)) / 2)%Q
         else at_ prices (length prices / 2) |}.
Proof. destruct flights; [contradiction|reflexivity]. Qed.

Lemma prices_length : (0 < length prices)%nat.
Proof.
  subst prices. rewrite numericSort_length, length_map.
  destruct flights; [contradiction|simpl; lia].
Qed.

Lemma between_ends (i : nat) :
  (i < length prices)%nat ->
  (at_ prices 0 <= at_ prices i <= at_ prices (length prices - 1))%Q.
Proof.
  intros Hi. unfold at_. split; apply sorted_nth; try lia;
    apply numericSort_sorted.
Qed.

Lemma every_price_between :
  Forall (fun p => at_ prices 0 <= p <= at_ prices (length prices - 1))%Q prices.
Proof.
  apply Forall_forall. intros p Hp. apply list_elem_of_In in Hp.
  destruct (In_nth prices p 0%Q Hp) as (i & Hi & <-). apply between_ends, Hi.
Qed.

Lemma stats_ends :
  let s := calculatePriceStats flights in
  Forall (fun f => ps_min s <= price f <= ps_max s)%Q flights
  /\ In (ps_min s) (List.map price flights)
  /\ In (ps_max s) (List.map price flights).
Proof.
  rewrite stats_unfold. cbn [ps_min ps_max].
  pose proof prices_length as Hlen.
  split; [|split].
  - apply Forall_forall. intros f Hf.
    pose proof every_price_between as Hall. rewrite Forall_forall in Hall.
    apply Hall. subst prices. rewrite numericSort_perm.
    apply list_elem_of_In, in_map, list_elem_of_In, Hf.
  - apply (Permutation_in _ (numericSort_perm _)). apply nth_In. exact Hlen.
  - apply (Permutation_in _ (numericSort_perm _)). apply nth_In. fold prices. lia.
Qed.

(** The minimum and the maximum are prices of the list and enclose every
    price of it. *)
Theorem priceStats_min_max :
  let s := calculatePriceStats flights in
  Forall (fun f => ps_min s <= price f <= ps_max s)%Q flights
  /\ In (ps_min s) (List.map price flights)
  /\ In (ps_max s) (List.map price flights).
Proof. apply stats_ends. Qed.




End Stats.

Lemma priceStats_min_max_witness :
  let flights := [directFlight; twoLegFlight; fourLegFlight] in
  let s := calculatePriceStats flights in
  Forall (fun f => ps_min s <= price f <= ps_max s)%Q flights
  /\ In (ps_min s) (List.map price flights)
  /\ In (ps_max s) (List.map price flights).
Proof.
  apply (priceStats_min_max [directFlight; twoLegFlight; fourLegFlight]).
  discriminate.
Defined.



Example stats_sample :
  calculatePriceStats [directFlight; twoLegFlight; fourLegFlight]
  = {| ps_min := 300; ps_max := 620;
       ps_average := 8033764960283307 # 17592186044416;
       ps_median := 450 |}.
Proof. vm_compute. reflexivity. Qed.

(** The average is the rounded quotient of a rounded sum, and need not
    lie between the ends: three fares of 100.03 (the binary64 number
    nearest to it) have an average above each of them. *)
Example average_above_max :
  let fare := Binary64.b64 (10003 # 100) in
  let cheap := {| flight_id := "1"; departure := departure directFlight;
                  arrival := arrival directFlight; duration := "PT7H";
                  stops := 0; airlines := ["BA"]; price := fare;
                  currency := "USD"; cabin := ECONOMY;
                  departureDate := "2024-02-15";
                  segments := segments directFlight |} in
  let s := calculatePriceStats [cheap; cheap; cheap] in
  fare = (3519492740045865 # 35184372088832)%Q
  /\ ps_max s = fare
  /\ ps_average s = (7038985480091731 # 70368744177664)%Q
  /\ (ps_max s < ps_average s)%Q.
Proof. vm_compute. repeat split; reflexivity. Qed.

End PriceStatistics.


(* ===================================================================== *)
(** * The list of carriers *)
(* ===================================================================== *)

Module Carriers.
Import FlightUtils FlightStats Statements MoreStatements Samples.

Lemma includesStr_In (xs : list string) (x : string) :
  includesStr xs x = true <-> In x xs.
Proof.
  unfold includesStr. rewrite existsb_exists. split.
  - intros (y & Hy & E). apply String.eqb_eq in E as ->. exact Hy.
  - intros H. exists x. split; [exact H|apply String.eqb_refl].
Qed.

Lemma setAdd_In (set : list string) (x a : string) :
  In a (setAdd set x) <-> In a set \/ a = x.
Proof.
  unfold setAdd. destruct (includesStr set x) eqn:E.
  - apply includesStr_In in E. split; [auto|]. intros [H| ->]; assumption.
  - rewrite in_app_iff. simpl. split.
    + intros [H|[<-|[]]]; auto.
    + intros [H| ->]; auto.
Qed.

Lemma setAdd_NoDup (set : list string) (x : string) :
  List.NoDup set -> List.NoDup (setAdd set x).
Proof.
  intros Hnd. unfold setAdd. destruct (includesStr set x) eqn:E; [exact Hnd|].
  apply NoDup_ListNoDup, NoDup_app. apply NoDup_ListNoDup in Hnd.
  split; [exact Hnd|]. split; [|apply NoDup_singleton].
  intros y Hy Hx. apply list_elem_of_singleton in Hx as ->.
  apply not_true_iff_false in E. apply E, includesStr_In, list_elem_of_In, Hy.
Qed.

Lemma addAll_spec (xs set : list string) :
  List.NoDup set ->
  List.NoDup (fold_left setAdd xs set)
  /\ forall a, In a (fold_left setAdd xs set) <-> In a set \/ In a xs.
Proof.
  revert set. induction xs as [|x xs IH]; intros set Hnd; simpl.
  - split; [exact Hnd|]. intros a. tauto.
  - destruct (IH (setAdd set x) (setAdd_NoDup set x Hnd)) as [H1 H2].
    split; [exact H1|]. intros a. rewrite H2, setAdd_In. split.
    + intros [[H| ->]|H]; auto.
    + intros [H|[<-|H]]; auto.
Qed.

Lemma collectAll_spec (flights : list ProcessedFlight) (set : list string) :
  List.NoDup set ->
  let r := fold_left (fun set flight => fold_left setAdd (airlines flight) set)
                     flights set in
  List.NoDup r
  /\ forall a, In a r <-> In a set \/ exists f, In f flights /\ In a (airlines f).
Proof.
  revert set. induction flights as [|f flights IH]; intros set Hnd; simpl.
  - split; [exact Hnd|]. intros a. split; [auto|]. intros [H|(f & [] & _)]. exact H.
  - destruct (addAll_spec (airlines f) set Hnd) as [H1 H2].
    destruct (IH _ H1) as [H3 H4]. split; [exact H3|].
    intros a. rewrite H4, H2. split.
    + intros [[H|H]|(g & Hg & Ha)]; eauto.
    + intros [H|(g & [<-|Hg] & Ha)]; eauto.
Qed.

Lemma precedes_strings (a b : string) :
  precedes compareStrings a b = true <-> String.compare a b = Lt.
Proof.
  unfold precedes, compareStrings.
  destruct (String.compare a b); simpl; split; intros H; congruence.
Qed.

(** The list of carriers has no repetition, holds exactly the codes that
    occur in the airline list of some flight, and is in ascending order of
    character codes. *)
Theorem getUniqueAirlines_spec (flights : list ProcessedFlight) :
  let r := getUniqueAirlines flights in
  List.NoDup r
  /\ (forall a, In a r <-> exists f, In f flights /\ In a (airlines f))
  /\ StronglySorted String.le r.
Proof.
  intros r. subst r. unfold getUniqueAirlines.
  destruct (collectAll_spec flights [] (List.NoDup_nil _)) as [Hnd Hin].
  split; [|split].
  - eapply Permutation_NoDup; [symmetry; apply SortReverse.arraySort_perm|exact Hnd].
  - intros a. split.
    + intros H. apply (Permutation_in _ (SortReverse.arraySort_perm _ _)) in H.
      apply Hin in H as [[]|H]. exact H.
    + intros H. apply (Permutation_in _ (Permutation_sym (SortReverse.arraySort_perm _ _))).
      apply Hin. right. exact H.
  - apply SortOrder.arraySort_related.
    + intros x y H. apply precedes_strings in H.
      unfold String.le, String.leb. rewrite H. exact I.
    + intros x y H. destruct (String.compare x y) eqn:E.
      * apply String.compare_eq_iff in E as ->. reflexivity.
      * apply precedes_strings in E. congruence.
      * unfold String.le, String.leb. rewrite String.compare_antisym, E. exact I.
    + intros x y z. apply (@transitivity _ String.le _).
Qed.

Example carriers_sample :
  getUniqueAirlines [directFlight; twoLegFlight; fourLegFlight] = ["AA"; "BA"; "UA"].
Proof. reflexivity. Qed.

End Carriers.

(* ===================================================================== *)
(** * Statistics per carrier *)
(* ===================================================================== *)

Module CarrierStatistics.
Import FlightUtils FlightStats Statements MoreStatements Samples.









Lemma occurrences_positive (code : string) (flights : list ProcessedFlight) :
  0 < occurrences code flights <-> exists f, In f flights /\ In code (airlines f).
Proof.
  induction flights as [|f flights IH]; simpl.
  - split; [lia|]. intros (f & [] & _).
  - split.
    + intros H.
      destruct (List.filter (String.eqb code) (airlines f)) as [|x r] eqn:E.
      * simpl in H. destruct (proj1 IH H) as (g & Hg & Hx). eauto.
      * exists f. split; [auto|].
        assert (Hx : In x (List.filter (String.eqb code) (airlines f)))
          by (rewrite E; left; reflexivity).
        apply filter_In in Hx as [Hx Heq]. apply String.eqb_eq in Heq as ->. exact Hx.
    + intros (g & [<-|Hg] & Hx).
      * assert (Hin : In code (List.filter (String.eqb code) (airlines f)))
          by (apply filter_In; split; [exact Hx|apply String.eqb_refl]).
        destruct (List.filter (String.eqb code) (airlines f)); [destruct Hin|].
        assert (0 <= occurrences code flights).
        { clear. induction flights; simpl; lia. }
        simpl length. lia.
      * assert (0 < occurrences code flights) by (apply IH; eauto). lia.
Qed.



Example airline_stats_sample :
  List.map (fun s => (as_code s, as_count s))
    (calculateAirlineStats [directFlight; twoLegFlight; fourLegFlight])
  = [("UA", 1); ("AA", 1); ("BA", 2)].
Proof. reflexivity. Qed.

End CarrierStatistics.

(* ===================================================================== *)
(** * The duration codec *)
(* ===================================================================== *)

Module DurationCodec.
Import FlightUtils MoreStatements.

Local Open Scope string_scope.
Local Open Scope Z_scope.

Lemma append_cons (c : ascii) (s t : string) :
  (String c s ++ t)%string = String c (s ++ t)%string.
Proof. reflexivity. Qed.

Lemma append_assoc (a b c : string) :
  ((a ++ b) ++ c)%string = (a ++ (b ++ c))%string.
Proof.
  induction a as [|x a IH]; [reflexivity|].
  rewrite !append_cons, IH. reflexivity.
Qed.

Lemma digitsValue_nonneg (radix : Z) (s : string) (acc : Z) :
  0 <= radix -> 0 <= acc -> 0 <= Js.digitsValue radix acc s.
Proof.
  intros Hr. revert acc. induction s as [|c s IH]; intros acc Hacc; simpl; [exact Hacc|].
  apply IH. unfold Js.digitValue.
  assert (0 <= Js.code c) by (unfold Js.code; lia).
  destruct (Js.isDigit c) eqn:E1.
  - unfold Js.isDigit in E1. apply andb_true_iff in E1 as [E1 _].
    apply Z.leb_le in E1. simpl. nia.
  - destruct ((97 <=? Js.code c) && (Js.code c <=? 102)) eqn:E2.
    + apply andb_true_iff in E2 as [E2 _]. apply Z.leb_le in E2. simpl. nia.
    + destruct ((65 <=? Js.code c) && (Js.code c <=? 70)) eqn:E3; simpl; [|nia].
      apply andb_true_iff in E3 as [E3 _]. apply Z.leb_le in E3. nia.
Qed.

Lemma digit_not_white (c : ascii) : Js.isDigit c = true -> Js.isWhite c = false.
Proof.
  unfold Js.isDigit, Js.isWhite. intros H.
  apply andb_true_iff in H as [H1 H2]. apply Z.leb_le in H1, H2.
  apply orb_false_iff. split.
  - apply andb_false_iff. right. apply Z.leb_gt. lia.
  - apply Z.eqb_neq. lia.
Qed.

Lemma isRadixDigit_10 (c : ascii) : Js.isRadixDigit 10 c = Js.isDigit c.
Proof.
  unfold Js.isRadixDigit, Js.digitValue.
  destruct (Js.isDigit c) eqn:E1.
  - unfold Js.isDigit in E1. apply andb_true_iff in E1 as [E1 E2].
    apply Z.leb_le in E1, E2. apply Z.ltb_lt. lia.
  - destruct ((97 <=? Js.code c) && (Js.code c <=? 102)) eqn:E2.
    + apply andb_true_iff in E2 as [E2 _]. apply Z.leb_le in E2. apply Z.ltb_ge. lia.
    + destruct ((65 <=? Js.code c) && (Js.code c <=? 70)) eqn:E3; [|reflexivity].
      apply andb_true_iff in E3 as [E3 _]. apply Z.leb_le in E3. apply Z.ltb_ge. lia.
Qed.

Lemma span_ext (p q : ascii -> bool) (s : string) :
  (forall c, p c = q c) -> Js.span p s = Js.span q s.
Proof.
  intros H. induction s as [|c s IH]; [reflexivity|]. simpl. rewrite H, IH. reflexivity.
Qed.

(** A run of digits followed by a character that is not a digit. *)
Lemma span_digits (ds : string) (u : ascii) (rest : string) :
  allDigits ds = true -> Js.isDigit u = false ->
  Js.span Js.isDigit (ds ++ String u rest) = (ds, String u rest).
Proof.
  intros Hd Hu. induction ds as [|c ds IH].
  - change ("" ++ String u rest)%string with (String u rest). simpl. rewrite Hu. reflexivity.
  - simpl in Hd. apply andb_true_iff in Hd as [Hc Hd].
    rewrite append_cons. simpl. rewrite Hc, (IH Hd). reflexivity.
Qed.

Lemma sign_of_digit (c : ascii) (s : string) :
  Js.isDigit c = true ->
  match String c s with
  | String "-" r => (-1, r)
  | String "+" r => (1, r)
  | _ => (1, String c s)
  end = (1, String c s).
Proof.
  intros H. destruct c as [[] [] [] [] [] [] [] []]; try reflexivity; discriminate.
Qed.

Lemma radix_of_digits (c : ascii) (s : string) :
  match s with String n _ => n <> "x"%char /\ n <> "X"%char | EmptyString => True end ->
  match String c s with
  | String "0" (String "x" r) => (16, r)
  | String "0" (String "X" r) => (16, r)
  | _ => (10, String c s)
  end = (10, String c s).
Proof.
  intros H. destruct c as [[] [] [] [] [] [] [] []]; try reflexivity.
  destruct s as [|n r]; [reflexivity|]. destruct H as [H1 H2].
  destruct n as [[] [] [] [] [] [] [] []]; try reflexivity; congruence.
Qed.

(** [parseInt] of the text of a group: digits and a unit letter. *)
Lemma parseInt_group (ds : string) (u : ascii) :
  ds <> "" -> allDigits ds = true ->
  Js.isDigit u = false -> u <> "x"%char -> u <> "X"%char ->
  Js.parseInt (ds ++ String u "") = Some (Js.digitsValue 10 0 ds).
Proof.
  intros Hne Hd Hu Hx HX. destruct ds as [|c ds]; [contradiction|].
  simpl in Hd. apply andb_true_iff in Hd as [Hc Hd].
  rewrite append_cons. unfold Js.parseInt. cbn [Js.trimStart].
  rewrite (digit_not_white c Hc), (sign_of_digit c _ Hc).
  rewrite radix_of_digits.
  2:{ destruct ds as [|n ds'];
        [change ("" ++ String u "")%string with (String u ""); split; assumption|].
      change (String n ds' ++ String u "")%string with (String n (ds' ++ String u "")).
      simpl in Hd. apply andb_true_iff in Hd as [Hn _].
      split; intros ->; discriminate. }
  rewrite (span_ext _ _ _ isRadixDigit_10).
  rewrite <- append_cons, span_digits by (simpl; rewrite ?Hc, ?Hd; auto).
  rewrite Z.mul_1_l. reflexivity.
Qed.

(** A group at the head of the input is captured; anything else is left. *)
Lemma optGroup_match (u : ascii) (ds rest : string) :
  ds <> "" -> allDigits ds = true -> Js.isDigit u = false ->
  optGroup u (ds ++ String u rest) = (Some (ds ++ String u ""), rest)%string.
Proof.
  intros Hne Hd Hu. unfold optGroup. rewrite span_digits by assumption.
  destruct ds as [|c ds]; [contradiction|]. rewrite Ascii.eqb_refl. reflexivity.
Qed.

(** ** Decimal numerals *)

Lemma digitsValue_app (radix acc : Z) (a b : string) :
  Js.digitsValue radix acc (a ++ b)
  = Js.digitsValue radix (Js.digitsValue radix acc a) b.
Proof.
  revert acc. induction a as [|c a IH]; intros acc; [reflexivity|].
  rewrite append_cons. simpl. apply IH.
Qed.

Lemma allDigits_app (a b : string) :
  allDigits (a ++ b) = allDigits a && allDigits b.
Proof.
  induction a as [|c a IH]; [reflexivity|].
  rewrite append_cons. simpl. rewrite IH, andb_assoc. reflexivity.
Qed.

Lemma pretty_char_digit (x : N) :
  (x < 10)%N ->
  Js.isDigit (pretty_N_char x) = true
  /\ Js.digitValue (pretty_N_char x) = Some (Z.of_N x).
Proof.
  intros H.
  assert (x = 0 \/ x = 1 \/ x = 2 \/ x = 3 \/ x = 4 \/ x = 5 \/ x = 6 \/ x = 7
          \/ x = 8 \/ x = 9)%N as Hx by lia.
  repeat destruct Hx as [->|Hx]; try subst x; split; reflexivity.
Qed.

(** The digits that [pretty_N_go] puts in front of [s] spell [x]. *)
Lemma pretty_go_digits (x : N) :
  forall s, exists ds,
    pretty_N_go x s = (ds ++ s)%string
    /\ allDigits ds = true
    /\ ((0 < x)%N -> ds <> "")
    /\ forall acc, Js.digitsValue 10 acc ds
                    = acc * 10 ^ Z.of_nat (String.length ds) + Z.of_N x.
Proof.
  induction (N.lt_wf_0 x) as [x _ IH]. intros s.
  destruct (N.eq_dec x 0%N) as [->|Hx].
  - exists "". rewrite pretty_N_go_0. repeat split; try reflexivity.
    + intros H. lia.
    + intros acc. simpl. lia.
  - assert (Hpos : (0 < x)%N) by lia.
    rewrite pretty_N_go_step by exact Hpos.
    destruct (IH (x `div` 10)%N (N.div_lt x 10 Hpos eq_refl)
                 (String (pretty_N_char (x `mod` 10)) s))
      as (ds & Hgo & Hall & _ & Hval).
    destruct (pretty_char_digit (x `mod` 10)%N) as [Hdig Hdv];
      [apply N.mod_lt; lia|].
    exists (ds ++ String (pretty_N_char (x `mod` 10)) "")%string.
    split; [rewrite Hgo, append_assoc; reflexivity|]. split.
    { rewrite allDigits_app, Hall. simpl. rewrite Hdig. reflexivity. }
    split.
    { intros _ H. destruct ds; discriminate. }
    intros acc. rewrite digitsValue_app, Hval. simpl. rewrite Hdv. simpl.
    assert (Hlen : String.length (ds ++ String (pretty_N_char (x `mod` 10)) "")
                   = S (String.length ds)).
    { clear. induction ds as [|c ds IHd]; [reflexivity|].
      rewrite append_cons. simpl. rewrite IHd. reflexivity. }
    rewrite Hlen, Nat2Z.inj_succ, Z.pow_succ_r by lia.
    pose proof (N.div_mod x 10 ltac:(lia)) as Hdm.
    rewrite N2Z.inj_div, N2Z.inj_mod in *.
    assert (Hz : Z.of_N x = 10 * (Z.of_N x / 10) + Z.of_N x mod 10)
      by (apply Z.div_mod; lia).
    change (Z.of_N 10) with 10. lia.
Qed.

Lemma pretty_digits (x : N) :
  pretty x <> ""
  /\ allDigits (pretty x) = true
  /\ Js.digitsValue 10 0 (pretty x) = Z.of_N x.
Proof.
  unfold pretty, pretty_N. destruct (decide (x = 0%N)) as [->|Hx].
  - repeat split. discriminate.
  - destruct (pretty_go_digits x "") as (ds & Hgo & Hall & Hne & Hval).
    rewrite Hgo. rewrite FuzzyMatcher.append_nil_r.
    split; [apply Hne; lia|]. split; [exact Hall|].
    rewrite Hval. lia.
Qed.

Lemma startsWith_empty (s : string) : Js.startsWith s "" = true.
Proof. destruct s; reflexivity. Qed.

Lemma iso_minutes (h m : N) :
  durationToMinutes (isoDuration h m) = Z.of_N h * 60 + Z.of_N m.
Proof.
  destruct (pretty_digits h) as (Hhne & Hhd & Hhv).
  destruct (pretty_digits m) as (Hmne & Hmd & Hmv).
  unfold durationToMinutes, isoDuration.
  change ("PT" ++ pretty h ++ "H" ++ pretty m ++ "M")%string
    with (String "P" (String "T" (pretty h ++ String "H" (pretty m ++ String "M" "")))).
  cbn [matchDuration Js.startsWith Ascii.eqb Bool.eqb andb].
  rewrite (optGroup_match "H" (pretty h)) by (assumption || reflexivity).
  rewrite (optGroup_match "M" (pretty m)) by (assumption || reflexivity).
  cbn [mbind option_bind fst snd default from_option id].
  rewrite startsWith_empty.
  cbn [mbind option_bind fst snd default from_option id].
  rewrite !parseInt_group by (assumption || reflexivity || discriminate).
  rewrite Hhv, Hmv. unfold Js.numOr.
  destruct (Z.of_N h =? 0) eqn:Eh, (Z.of_N m =? 0) eqn:Em;
    rewrite ?Z.eqb_eq in *; lia.
Qed.

(** The codec reads back a duration written as [PT<h>H<m>M].  The bound
    keeps the numbers where the engine computes exactly: below [2 ^ 53]
    the value of a run of digits, the product by 60 and the sum are
    binary64 numbers, and an integer is what [durationToMinutes]
    returns. *)
Theorem durationToMinutes_iso (h m : N) :
  Z.of_N h * 60 + Z.of_N m < 2 ^ 53 ->
  durationToMinutes (isoDuration h m) = Z.of_N h * 60 + Z.of_N m.
Proof. intros _. apply iso_minutes. Qed.

Lemma durationToMinutes_iso_witness :
  durationToMinutes "PT10H30M" = 630.
Proof.
  apply (durationToMinutes_iso 10 30). reflexivity.
Defined.

Example iso_sample : isoDuration 10 30 = "PT10H30M".
Proof. reflexivity. Qed.

(** The label that [formatDuration] makes of a parsed ISO duration shows
    the hours and the minutes of that duration, each left out when
    zero, except that a duration of nothing is shown as [0m].  The
    number of minutes is below [2 ^ 53], where the engine's quotient by
    60, floored, and its remainder are those of the integers. *)
Theorem formatDuration_of_iso (h m : N) :
  (m < 60)%N ->
  Z.of_N h * 60 + Z.of_N m < 2 ^ 53 ->
  FlightStats.formatDuration (durationToMinutes (isoDuration h m))
  = if (h =? 0)%N then (pretty (Z.of_N m) ++ "m")%string
    else if (m =? 0)%N then (pretty (Z.of_N h) ++ "h")%string
    else (pretty (Z.of_N h) ++ "h " ++ pretty (Z.of_N m) ++ "m")%string.
Proof.
  intros Hm _. rewrite iso_minutes. unfold FlightStats.formatDuration. cbv zeta.
  assert (Hq : (Z.of_N h * 60 + Z.of_N m) / 60 = Z.of_N h).
  { rewrite Z.add_comm, Z.div_add by lia. rewrite Z.div_small by lia. lia. }
  assert (Hr : Z.rem (Z.of_N h * 60 + Z.of_N m) 60 = Z.of_N m).
  { rewrite Z.rem_mod_nonneg by lia.
    rewrite Z.add_comm, Z.mod_add by lia. apply Z.mod_small. lia. }
  rewrite Hq, Hr.
  destruct (N.eqb_spec h 0) as [->|Hh].
  - reflexivity.
  - assert (E : (Z.of_N h =? 0) = false) by lia. rewrite E.
    destruct (N.eqb_spec m 0) as [->|Hm0]; [reflexivity|].
    assert (E' : (Z.of_N m =? 0) = false) by lia. rewrite E'. reflexivity.
Qed.

Lemma formatDuration_of_iso_witness :
  FlightStats.formatDuration (durationToMinutes "PT10H30M") = "10h 30m".
Proof.
  apply (formatDuration_of_iso 10 30); reflexivity.
Defined.

(** ** Arbitrary input *)

Lemma span_digits_all (s d t : string) :
  Js.span Js.isDigit s = (d, t) -> allDigits d = true.
Proof.
  revert d t. induction s as [|c s IH]; intros d t H; simpl in H.
  - injection H as <- <-. reflexivity.
  - destruct (Js.isDigit c) eqn:E.
    + destruct (Js.span Js.isDigit s) as [d' t'] eqn:Es.
      injection H as <- <-. simpl. rewrite E. apply (IH d' t'). reflexivity.
    + injection H as <- <-. reflexivity.
Qed.

Lemma optGroup_some (u : ascii) (s g rest : string) :
  optGroup u s = (Some g, rest) ->
  exists ds, g = (ds ++ String u "")%string /\ ds <> "" /\ allDigits ds = true.
Proof.
  unfold optGroup. destruct (Js.span Js.isDigit s) as [d t] eqn:Es.
  destruct d as [|c d]; [discriminate|]. destruct t as [|x t]; [discriminate|].
  destruct (Ascii.eqb x u); [|discriminate]. intros [= <- <-].
  exists (String c d). split; [reflexivity|]. split; [discriminate|].
  apply (span_digits_all _ _ _ Es).
Qed.

Lemma group_value (u : ascii) (s : string) :
  u = "H"%char \/ u = "M"%char ->
  0 <= Js.numOr (Js.parseInt (default "0" (fst (optGroup u s)))) 0.
Proof.
  intros Hu. destruct (optGroup u s) as [[g|] rest] eqn:E; [|simpl; lia].
  apply optGroup_some in E as (ds & -> & Hne & Hd). cbn [fst default from_option id].
  rewrite parseInt_group; try assumption;
    try (destruct Hu as [-> | ->]; (reflexivity || discriminate)).
  pose proof (digitsValue_nonneg 10 ds 0 ltac:(lia) ltac:(lia)) as Hv.
  unfold Js.numOr. destruct (Js.digitsValue 10 0 ds =? 0); lia.
Qed.

(** A run of [n] digits spells a number below [10 ^ n]. *)
Lemma digitsValue_bound (ds : string) :
  allDigits ds = true ->
  forall acc, 0 <= acc ->
    Js.digitsValue 10 acc ds
    <= acc * 10 ^ Z.of_nat (String.length ds)
       + 10 ^ Z.of_nat (String.length ds) - 1.
Proof.
  induction ds as [|c ds IH]; intros Hd acc Hacc.
  - simpl. lia.
  - simpl in Hd. apply andb_true_iff in Hd as [Hc Hd].
    cbn [Js.digitsValue String.length].
    assert (Hv : exists v, Js.digitValue c = Some v /\ 0 <= v <= 9).
    { unfold Js.digitValue. rewrite Hc. eexists. split; [reflexivity|].
      unfold Js.isDigit in Hc. apply andb_true_iff in Hc as [H1 H2]. lia. }
    destruct Hv as (v & -> & Hv). cbn [default from_option id].
    specialize (IH Hd (acc * 10 + v) ltac:(lia)).
    rewrite Nat2Z.inj_succ, Z.pow_succ_r by lia.
    assert (Hp : 0 < 10 ^ Z.of_nat (String.length ds)) by (apply Z.pow_pos_nonneg; lia).
    nia.
Qed.

Lemma span_lengths (q : ascii -> bool) (s d t : string) :
  Js.span q s = (d, t) ->
  (String.length d + String.length t = String.length s)%nat.
Proof.
  revert d t. induction s as [|c s IH]; intros d t H; simpl in H.
  - injection H as <- <-. reflexivity.
  - destruct (q c).
    + destruct (Js.span q s) as [d' t'] eqn:Es. injection H as <- <-.
      simpl. rewrite (IH d' t' eq_refl). reflexivity.
    + injection H as <- <-. reflexivity.
Qed.

(** What a group takes from the input, and what it leaves. *)
Lemma optGroup_lengths (u : ascii) (s : string) :
  (String.length (snd (optGroup u s)) <= String.length s)%nat
  /\ match fst (optGroup u s) with
     | Some g =>
         exists ds, g = (ds ++ String u "")%string /\ ds <> ""
                    /\ allDigits ds = true
                    /\ (String.length ds < String.length s)%nat
     | None => True
     end.
Proof.
  unfold optGroup. destruct (Js.span Js.isDigit s) as [d t] eqn:Es.
  pose proof (span_lengths _ _ _ _ Es) as Hlen.
  pose proof (span_digits_all _ _ _ Es) as Hall.
  destruct d as [|c d]; [simpl; split; [lia|exact I]|].
  destruct t as [|x t]; [simpl; split; [lia|exact I]|].
  destruct (Ascii.eqb x u) eqn:Ex; cbn [fst snd]; [|split; [lia|exact I]].
  split; [simpl in *; lia|].
  exists (String c d). split; [reflexivity|]. split; [discriminate|].
  split; [exact Hall|]. simpl in *. lia.
Qed.

(** The number that a group of a text of at most [n + 1] characters
    contributes. *)
Lemma group_bound (u : ascii) (s : string) (n : nat) :
  u = "H"%char \/ u = "M"%char ->
  (String.length s <= S n)%nat ->
  0 <= Js.numOr (Js.parseInt (default "0" (fst (optGroup u s)))) 0
    < 10 ^ Z.of_nat n.
Proof.
  intros Hu Hlen.
  assert (Hone : 1 <= 10 ^ Z.of_nat n)
    by (pose proof (Z.pow_pos_nonneg 10 (Z.of_nat n)); lia).
  destruct (optGroup_lengths u s) as [_ Hg].
  destruct (fst (optGroup u s)) as [g|]; [|simpl; lia].
  destruct Hg as (ds & -> & Hne & Hd & Hshort). cbn [default from_option id].
  rewrite parseInt_group; try assumption;
    try (destruct Hu as [-> | ->]; (reflexivity || discriminate)).
  pose proof (digitsValue_nonneg 10 ds 0 ltac:(lia) ltac:(lia)) as Hv.
  pose proof (digitsValue_bound ds Hd 0 ltac:(lia)) as Hub.
  assert (Hmono : 10 ^ Z.of_nat (String.length ds) <= 10 ^ Z.of_nat n)
    by (apply Z.pow_le_mono_r; lia).
  unfold Js.numOr. destruct (Js.digitsValue 10 0 ds =? 0); lia.
Qed.

(** A text of at most 17 characters gives a whole number that is not
    negative and lies below [2 ^ 53], where the engine computes exactly:
    a run of digits in it has at most 14 of them.  The result is zero
    when the text holds no [PT]. *)
Theorem durationToMinutes_total (s : string) :
  (String.length s <= 17)%nat ->
  0 <= durationToMinutes s < 2 ^ 53
  /\ (Js.includes s "PT" = false -> durationToMinutes s = 0).
Proof.
  unfold durationToMinutes. induction s as [|c s IH]; intros Hlen.
  - split; [simpl; lia|reflexivity].
  - cbn [matchDuration].
    change (Js.includes (String c s) "PT")
      with (Js.startsWith (String c s) "PT" || Js.includes s "PT").
    destruct (Js.startsWith (String c s) "PT") eqn:E.
    + split; [|discriminate].
      set (after := match s with String _ t => t | EmptyString => EmptyString end).
      assert (Hafter : (String.length after <= 15)%nat).
      { subst after. destruct s as [|x t]; simpl in *; lia. }
      pose proof (group_bound "H" after 14 (or_introl eq_refl) ltac:(lia)) as Hh.
      pose proof (optGroup_lengths "H" after) as [Hrest _].
      destruct (optGroup "H" after) as [g1 rest] eqn:E1. cbn [fst snd] in *.
      pose proof (group_bound "M" rest 14 (or_intror eq_refl) ltac:(lia)) as Hm.
      destruct (optGroup "M" rest) as [g2 rest'] eqn:E2.
      cbn [mbind option_bind fst snd] in *.
      change (10 ^ Z.of_nat 14) with 100000000000000 in *.
      change (2 ^ 53) with 9007199254740992. lia.
    + apply IH. simpl in Hlen. lia.
Qed.

Lemma durationToMinutes_total_witness :
  0 <= durationToMinutes "PT12H30M" < 2 ^ 53.
Proof.
  apply (durationToMinutes_total "PT12H30M"). simpl. lia.
Defined.

End DurationCodec.

(* ===================================================================== *)
(** * How the filters combine *)
(* ===================================================================== *)

Module FilterChain.
Import FlightUtils Statements MoreStatements Samples.

Lemma filter_filter {A} (p q : A -> bool) (l : list A) :
  List.filter q (List.filter p l) = List.filter (fun x => p x && q x) l.
Proof.
  induction l as [|x l IH]; [reflexivity|]. simpl.
  destruct (p x); simpl; [destruct (q x); rewrite IH; reflexivity|exact IH].
Qed.

Lemma filter_true {A} (l : list A) : List.filter (fun _ => true) l = l.
Proof. induction l as [|x l IH]; [reflexivity|]. simpl. rewrite IH. reflexivity. Qed.

Lemma filter_and_true {A} (p : A -> bool) (l : list A) :
  List.filter p l = List.filter (fun x => p x && true) l.
Proof. apply List.filter_ext. intros x. rewrite andb_true_r. reflexivity. Qed.

Section Chain.
Variable getHours : string -> option Z.

Lemma price_step (filters : FilterState) (l : list ProcessedFlight) :
  match minPrice filters, maxPrice filters with
  | Some lo, Some hi => filterByPrice l lo hi
  | _, _ => l
  end
  = List.filter (fun f => match minPrice filters, maxPrice filters with
                          | Some lo, Some hi =>
                              Qle_bool lo (price f) && Qle_bool (price f) hi
                          | _, _ => true
                          end) l.
Proof.
  destruct (minPrice filters), (maxPrice filters);
    first [reflexivity | symmetry; apply filter_true].
Qed.

Lemma stops_step (filters : FilterState) (l : list ProcessedFlight) :
  match maxStops filters with Some m => filterByStops l m | None => l end
  = List.filter (fun f => match maxStops filters with
                          | Some m => stops f <=? m | None => true end) l.
Proof.
  destruct (maxStops filters); first [reflexivity | symmetry; apply filter_true].
Qed.

Lemma airlines_step (filters : FilterState) (l : list ProcessedFlight) :
  match selectedAirlines filters with
  | Some (a :: r) => filterByAirlines l (a :: r)
  | _ => l
  end
  = List.filter (fun f => match selectedAirlines filters with
                          | Some (a :: r) => existsb (includesStr (a :: r)) (airlines f)
                          | _ => true
                          end) l.
Proof.
  destruct (selectedAirlines filters) as [[|a r]|];
    first [reflexivity | symmetry; apply filter_true].
Qed.

Lemma departure_step (filters : FilterState) (l : list ProcessedFlight) :
  match departureTimeRange filters with
  | Some r => filterByDepartureTime getHours l (start r) (end_ r)
  | None => l
  end
  = List.filter (fun f => match departureTimeRange filters with
                          | Some r => hourInRange (getHours (time (departure f)))
                                                  (start r) (end_ r)
                          | None => true
                          end) l.
Proof.
  destruct (departureTimeRange filters);
    first [reflexivity | symmetry; apply filter_true].
Qed.

Lemma arrival_step (filters : FilterState) (l : list ProcessedFlight) :
  match arrivalTimeRange filters with
  | Some r => filterByArrivalTime getHours l (start r) (end_ r)
  | None => l
  end
  = List.filter (fun f => match arrivalTimeRange filters with
                          | Some r => hourInRange (getHours (time (arrival f)))
                                                  (start r) (end_ r)
                          | None => true
                          end) l.
Proof.
  destruct (arrivalTimeRange filters);
    first [reflexivity | symmetry; apply filter_true].
Qed.

Lemma duration_step (filters : FilterState) (l : list ProcessedFlight) :
  match maxDuration filters with Some d => filterByDuration l d | None => l end
  = List.filter (fun f => match maxDuration filters with
                          | Some d => durationToMinutes (firstSegmentDuration f) <=? d
                          | None => true
                          end) l.
Proof.
  destruct (maxDuration filters); first [reflexivity | symmetry; apply filter_true].
Qed.

Lemma cabin_step (filters : FilterState) (l : list ProcessedFlight) :
  match cabins filters with
  | Some (c :: r) => filterByCabin l (c :: r)
  | _ => l
  end
  = List.filter (fun f => match cabins filters with
                          | Some (c :: r) => includesCabin (c :: r) (cabin f)
                          | _ => true
                          end) l.
Proof.
  destruct (cabins filters) as [[|c r]|];
    first [reflexivity | symmetry; apply filter_true].
Qed.

(** [applyFilters] keeps the flights that pass every active filter, in the
    order of the input. *)
Lemma applyFilters_single_filter (flights : list ProcessedFlight)
    (filters : FilterState) :
  applyFilters getHours flights filters
  = List.filter (passes getHours filters) flights.
Proof.
  unfold applyFilters. cbv zeta.
  rewrite price_step, stops_step, airlines_step, departure_step, arrival_step,
    duration_step, cabin_step.
  rewrite !filter_filter. apply List.filter_ext. intros f.
  unfold passes. rewrite !andb_assoc. reflexivity.
Qed.

(** Applying the same filter state a second time changes nothing, and the
    result never holds a flight that was not in the input. *)
Theorem applyFilters_idempotent (flights : list ProcessedFlight)
    (filters : FilterState) :
  applyFilters getHours (applyFilters getHours flights filters) filters
  = applyFilters getHours flights filters
  /\ applyFilters getHours flights filters
     = List.filter (passes getHours filters) flights
  /\ sublist (applyFilters getHours flights filters) flights.
Proof.
  rewrite !applyFilters_single_filter. split; [|split; [reflexivity|]].
  - rewrite filter_filter. apply List.filter_ext. intros f.
    destruct (passes getHours filters f); reflexivity.
  - induction flights as [|f l IH]; simpl; [constructor|].
    destruct (passes getHours filters f); [apply sublist_skip|apply sublist_cons];
      exact IH.
Qed.

(** A time range whose start equals its end keeps no flight, and a flight
    whose departure time is not a valid date is kept by no range. *)
Theorem departure_time_edges (flights : list ProcessedFlight) (s e : Z) :
  filterByDepartureTime getHours flights s s = []
  /\ Forall (fun f => getHours (time (departure f)) <> None)
            (filterByDepartureTime getHours flights s e).
Proof.
  unfold filterByDepartureTime, extractHour. split.
  - induction flights as [|f l IH]; [reflexivity|]. simpl. rewrite IH.
    unfold hourInRange. rewrite Z.leb_refl.
    destruct (getHours (time (departure f))) as [h|]; simpl; [|reflexivity].
    destruct (s <=? h) eqn:E1, (h <? s) eqn:E2; try reflexivity.
    apply Z.leb_le in E1. apply Z.ltb_lt in E2. lia.
  - apply Forall_forall. intros f Hf. apply list_elem_of_In, filter_In in Hf as [_ Hf].
    intros Hn. rewrite Hn in Hf. unfold hourInRange in Hf.
    destruct (s <=? e); discriminate.
Qed.

End Chain.
End FilterChain.

(* ================================================================== *)
(** * The request path of the client: cache, limiter, token, retries *)
(* ================================================================== *)

Module RequestPath.
Import Amadeus Statements ClientStatements Samples.

Local Open Scope Z_scope.

Section Requests.
Variable cfg : Config.
Variable JSON_stringify : JsVal -> string.

Lemma sameClient_refl (w : World) : sameClient w w.
Proof. repeat split. Qed.

Lemma sameClient_trans (a b c : World) :
  sameClient a b -> sameClient b c -> sameClient a c.
Proof.
  unfold sameClient.
  intros (H1 & H2 & H3 & H4 & H5 & H6) (G1 & G2 & G3 & G4 & G5 & G6).
  repeat split; congruence.
Qed.

(** A fresh cache entry is returned as it is: the limiter, the token
    manager and the network are not involved. *)
Lemma request_hit (endpoint : string) (options : RequestOptions)
    (w : World) (c : CacheEntry) :
  requestCache w !! cacheKeyOf endpoint = Some c ->
  clock w - timestamp c < CACHE_TTL cfg ->
  request cfg JSON_stringify endpoint options w
  = (Ok (data c), logEvent (CacheLookup (cacheKeyOf endpoint) true) w).
Proof.
  intros Hc Hfresh.
  assert (Hlt : (clock w - timestamp c <? CACHE_TTL cfg) = true) by lia.
  unfold request, dateNow, bind, gets, log, modify, ret.
  cbv beta iota. rewrite Hc. cbv beta iota. rewrite Hlt. reflexivity.
Qed.

(** Without a fresh entry the request goes on to the limiter. *)
Lemma request_miss (endpoint : string) (options : RequestOptions) (w : World) :
  cacheMiss cfg endpoint w ->
  request cfg JSON_stringify endpoint options w
  = (let! granted := checkRateLimit cfg "global" in
     if negb granted then
       throw (Error "Rate limit exceeded. Please wait before making another request.")
     else
       let! token_ := getToken cfg JSON_stringify in
       Amadeus.attemptLoop cfg endpoint (cacheKeyOf endpoint) options
         (attempts cfg options) (Z.to_nat (attempts cfg options)) 0 None)%client
      (logEvent (CacheLookup (cacheKeyOf endpoint) false) w).
Proof.
  unfold cacheMiss. intros Hmiss.
  unfold request, attempts.
  unfold bind at 1 2 3. unfold dateNow. unfold gets at 1 2. unfold log at 1, modify at 1.
  cbv beta iota.
  destruct (requestCache w !! cacheKeyOf endpoint) as [c|] eqn:Hc.
  - assert (Hlt : (clock w - timestamp c <? CACHE_TTL cfg) = false) by lia.
    cbv beta iota. rewrite Hlt. reflexivity.
  - reflexivity.
Qed.

(** The limiter touches its own table and the log only, and never
    throws; it grants exactly when the window has room. *)
Lemma checkRateLimit_frame (key : string) (w : World) :
  exists granted w',
    checkRateLimit cfg key w = (Ok granted, w')
    /\ (granted = true <-> windowOpen cfg key w)
    /\ cachedToken w' = cachedToken w
    /\ requestCache w' = requestCache w
    /\ authCalls w' = authCalls w /\ apiCalls w' = apiCalls w
    /\ authServer w' = authServer w /\ apiServer w' = apiServer w
    /\ clock w' = clock w
    /\ backoffs (trace w') = backoffs (trace w)
    /\ apiRequests (trace w') = apiRequests (trace w).
Proof.
  unfold checkRateLimit, windowOpen, dateNow, bind, gets, modify, log, ret.
  cbv beta iota.
  destruct (RATE_LIMIT cfg <=? requestCount
              (currentWindow cfg (clock w) (rateLimitMap w !! key))) eqn:Hfull;
    eexists; eexists; (split; [reflexivity|]);
    (split; [split; [try discriminate | intros; try reflexivity]; lia|]);
    cbn; unfold backoffs, apiRequests; rewrite !omap_app; cbn;
    rewrite !app_nil_r; repeat split.
Qed.

(** The token manager leaves the cache, the limiter and the API alone. *)
Lemma getToken_frame (w : World) :
  requestCache (snd (getToken cfg JSON_stringify w)) = requestCache w
  /\ rateLimitMap (snd (getToken cfg JSON_stringify w)) = rateLimitMap w
  /\ apiCalls (snd (getToken cfg JSON_stringify w)) = apiCalls w
  /\ apiServer (snd (getToken cfg JSON_stringify w)) = apiServer w
  /\ backoffs (trace (snd (getToken cfg JSON_stringify w))) = backoffs (trace w)
  /\ apiRequests (trace (snd (getToken cfg JSON_stringify w)))
     = apiRequests (trace w).
Proof.
  assert (Hr : requestCache (snd (refreshToken JSON_stringify w)) = requestCache w
    /\ rateLimitMap (snd (refreshToken JSON_stringify w)) = rateLimitMap w
    /\ apiCalls (snd (refreshToken JSON_stringify w)) = apiCalls w
    /\ apiServer (snd (refreshToken JSON_stringify w)) = apiServer w
    /\ backoffs (trace (snd (refreshToken JSON_stringify w))) = backoffs (trace w)
    /\ apiRequests (trace (snd (refreshToken JSON_stringify w)))
       = apiRequests (trace w)).
  { unfold refreshToken, tryCatch, fetchToken, dateNow, bind, gets, modify, log,
      elapse, throw, ret.
    cbn.
    destruct (authServer w (authCalls w)) as [latency [e|st error|e|tok life]];
      cbn; unfold backoffs, apiRequests; rewrite !omap_app; cbn;
      rewrite !app_nil_r; repeat split. }
  unfold getToken, dateNow, bind, gets. cbv beta iota.
  destruct (cachedToken w) as [c|]; [|exact Hr].
  destruct (clock w <? expiresAt c - TOKEN_BUFFER cfg); [|exact Hr].
  repeat split.
Qed.

(** A token outside its safety margin is handed out as it is. *)
Lemma getToken_fresh (w : World) :
  tokenFresh cfg w ->
  exists tok, getToken cfg JSON_stringify w = (Ok tok, w).
Proof.
  unfold tokenFresh, getToken, dateNow, bind, gets. cbv beta iota.
  destruct (cachedToken w) as [c|]; [|intros []].
  intros H. assert (Hlt : (clock w <? expiresAt c - TOKEN_BUFFER cfg) = true) by lia.
  rewrite Hlt. eexists. reflexivity.
Qed.

Ltac settle_log :=
  cbn -[backoffDelay Z.ltb Z.eqb Z.leb Z.add formatError Js.numOr];
  unfold backoffs, apiRequests; rewrite ?omap_app;
  cbn -[backoffDelay Z.ltb Z.eqb Z.leb Z.add formatError Js.numOr];
  rewrite ?app_nil_r.

(** One HTTP attempt, spelled out: the call is logged and counted, the
    clock moves on by the latency of the answer or by the time allowed,
    whichever is smaller. *)
Lemma fetchWithTimeout_run (url : string) (options : RequestOptions) (w : World) :
  fetchWithTimeout cfg url options w
  = let timeout_ := Js.numOr (timeout options) (REQUEST_TIMEOUT cfg) in
    let sent := setCalls (authCalls w) (S (apiCalls w)) (logEvent (ApiRequest url) w) in
    match apiServer w (apiCalls w) url with
    | (latency, Responds st b) =>
        if latency <? timeout_
        then (Ok {| status := st; body := b; bodyUsed := false |},
              setClock (clock w + latency) sent)
        else (Throw abortError, setClock (clock w + timeout_) sent)
    | (latency, Rejects e) =>
        if latency <? timeout_
        then (Throw e, setClock (clock w + latency) sent)
        else (Throw abortError, setClock (clock w + timeout_) sent)
    | (_, Hangs) => (Throw abortError, setClock (clock w + timeout_) sent)
    end.
Proof.
  unfold fetchWithTimeout, dateNow, bind, gets, modify, log, elapse, throw, ret.
  cbn.
  destruct (apiServer w (apiCalls w) url) as [latency [e| |st b]]; cbn;
    try destruct (latency <? Js.numOr (timeout options) (REQUEST_TIMEOUT cfg));
    reflexivity.
Qed.

Ltac run_attempt :=
  unfold Amadeus.attemptOnce, attemptTry, tryCatch, readAndStore, dateNow,
    bind, throw, ret, log, elapse, modify, gets;
  cbv beta; rewrite fetchWithTimeout_run; cbv zeta.

Ltac step := cbn -[backoffDelay Z.ltb Z.eqb Z.leb Z.add formatError Js.numOr].

Ltac last_attempt H :=
  let E1 := fresh in
  let E2 := fresh in
  assert (E1 := proj2 (Z.eqb_eq _ _) H);
  assert (E2 := proj2 (Z.ltb_ge _ _) (Z.eq_le_incl _ _ (eq_sym H)));
  rewrite ?E1, ?E2.

Ltac earlier_attempt H :=
  let E1 := fresh in
  let E2 := fresh in
  assert (E1 := proj2 (Z.eqb_neq _ _) (Z.lt_neq _ _ H));
  assert (E2 := proj2 (Z.ltb_lt _ _) H);
  rewrite ?E1, ?E2.

Ltac thrown_last Hc :=
  last_attempt Hc; settle_log;
  split; [repeat split|]; split; [reflexivity|]; split; [reflexivity|];
  left; auto.

Ltac paused Hc :=
  earlier_attempt Hc; settle_log;
  split; [repeat split|]; split; [reflexivity|]; split; [reflexivity|];
  right; split; [exact Hc|]; split; [eexists; reflexivity|reflexivity].

(** One attempt that does not deliver data: the last one allowed throws
    the error of the attempt; an earlier one pauses for
    [2 ^ attempt * 1000] milliseconds and hands over to the next.  The
    status of the answer plays no part in the choice. *)
Lemma attemptOnce_fails (endpoint key : string) (options : RequestOptions)
    (retries_ attempt : Z) (w : World) (e : JsError) :
  lastAttemptError cfg options (apiServer w (apiCalls w) endpoint) = Some e ->
  attempt <= retries_ - 1 ->
  let run := attemptOnce cfg endpoint key options retries_ attempt w in
  sameClient w (snd run) /\ apiCalls (snd run) = S (apiCalls w)
  /\ apiRequests (trace (snd run)) = apiRequests (trace w) ++ [endpoint]
  /\ ((attempt = retries_ - 1
       /\ fst run = Throw e
       /\ backoffs (trace (snd run)) = backoffs (trace w))
      \/ (attempt < retries_ - 1
          /\ (exists lastError, fst run = Ok (Continue lastError))
          /\ backoffs (trace (snd run))
             = backoffs (trace w) ++ [backoffDelay attempt])).
Proof.
  intros He Hle run. subst run. unfold lastAttemptError in He.
  run_attempt.
  destruct (apiServer w (apiCalls w) endpoint) as [latency reply].
  assert (Hcase : attempt = retries_ - 1 \/ attempt < retries_ - 1) by lia.
  destruct reply as [err| |st b].
  - destruct (latency <? Js.numOr (timeout options) (REQUEST_TIMEOUT cfg));
      injection He as <-; step; destruct Hcase as [Hc|Hc].
    + thrown_last Hc.
    + paused Hc.
    + thrown_last Hc.
    + paused Hc.
  - injection He as <-; step; destruct Hcase as [Hc|Hc];
      [thrown_last Hc | paused Hc].
  - destruct (latency <? Js.numOr (timeout options) (REQUEST_TIMEOUT cfg));
      [|injection He as <-; step; destruct Hcase as [Hc|Hc];
        [thrown_last Hc | paused Hc]].
    unfold ok, json. step.
    destruct ((200 <=? st) && (st <=? 299)).
    + destruct b as [|v]; [|discriminate He].
      injection He as <-; step; destruct Hcase as [Hc|Hc];
        [thrown_last Hc | paused Hc].
    + destruct b as [|v]; step;
        (destruct (negb (st =? 429) && (st <? 500));
         injection He as <-; step; destruct Hcase as [Hc|Hc];
         solve [thrown_last Hc | paused Hc]).
Qed.

(** Whatever the API answers, one attempt leaves the token, the limiter
    and the identity service alone, makes one API call, and writes the
    cache only when it returns data: then the entry holds that data and
    the time of the write. *)
Lemma attemptOnce_outcome (endpoint key : string) (options : RequestOptions)
    (retries_ attempt : Z) (w : World) :
  let run := attemptOnce cfg endpoint key options retries_ attempt w in
  cachedToken (snd run) = cachedToken w
  /\ rateLimitMap (snd run) = rateLimitMap w
  /\ authCalls (snd run) = authCalls w
  /\ authServer (snd run) = authServer w
  /\ apiServer (snd run) = apiServer w
  /\ apiCalls (snd run) = S (apiCalls w)
  /\ match fst run with
     | Ok (Return v) =>
         requestCache (snd run)
         = <[key := {| data := v; timestamp := clock (snd run) |}]> (requestCache w)
         /\ delivered cfg options (apiServer w (apiCalls w) endpoint) = Some v
     | _ => requestCache (snd run) = requestCache w
     end.
Proof.
  intros run. subst run. unfold delivered.
  run_attempt.
  destruct (apiServer w (apiCalls w) endpoint) as [latency reply].
  destruct reply as [err| |st b].
  - destruct (latency <? Js.numOr (timeout options) (REQUEST_TIMEOUT cfg));
      step; destruct (attempt =? retries_ - 1); step; repeat split.
  - step; destruct (attempt =? retries_ - 1); step; repeat split.
  - destruct (latency <? Js.numOr (timeout options) (REQUEST_TIMEOUT cfg));
      [|step; destruct (attempt =? retries_ - 1); step; repeat split].
    unfold ok, json. step.
    destruct ((200 <=? st) && (st <=? 299)) eqn:Hok.
    + destruct b as [|v]; step.
      * destruct (attempt =? retries_ - 1); step; repeat split.
      * repeat split.
    + destruct b as [|v]; step;
        (destruct (negb (st =? 429) && (st <? 500)); step;
         destruct (attempt =? retries_ - 1); step;
         destruct (attempt <? retries_ - 1); step; repeat split).
Qed.

(** An attempt whose answer arrives in time with a success status and a
    body that parses returns the data at once. *)
Lemma attemptOnce_delivers (endpoint key : string) (options : RequestOptions)
    (retries_ attempt : Z) (w : World) (v : JsVal) :
  delivered cfg options (apiServer w (apiCalls w) endpoint) = Some v ->
  let run := attemptOnce cfg endpoint key options retries_ attempt w in
  fst run = Ok (Return v)
  /\ backoffs (trace (snd run)) = backoffs (trace w)
  /\ apiRequests (trace (snd run)) = apiRequests (trace w) ++ [endpoint].
Proof.
  intros Hv run. subst run. unfold delivered in Hv.
  run_attempt.
  destruct (apiServer w (apiCalls w) endpoint) as [latency reply].
  destruct reply as [err| |st [|body]]; try discriminate Hv.
  destruct (latency <? Js.numOr (timeout options) (REQUEST_TIMEOUT cfg));
    [|discriminate Hv].
  unfold ok, json. step. cbn [andb] in Hv.
  destruct ((200 <=? st) && (st <=? 299)); [|discriminate Hv].
  injection Hv as <-. settle_log. repeat split.
Qed.

(** The retry loop, whatever the API answers: data that it returns is in
    the cache under the key of the request, stamped with the time of the
    return; when it throws, the cache is as it was. *)
Lemma attemptLoop_outcome (endpoint key : string) (options : RequestOptions)
    (retries_ : Z) (remaining : nat) :
  forall (attempt : Z) (lastError : option JsError) (w : World),
  let run := attemptLoop cfg endpoint key options retries_ remaining attempt
               lastError w in
  cachedToken (snd run) = cachedToken w
  /\ rateLimitMap (snd run) = rateLimitMap w
  /\ authCalls (snd run) = authCalls w
  /\ (apiCalls (snd run) <= apiCalls w + remaining)%nat
  /\ match fst run with
     | Ok v =>
         requestCache (snd run) !! key
         = Some {| data := v; timestamp := clock (snd run) |}
         /\ (forall other, other <> key ->
               requestCache (snd run) !! other = requestCache w !! other)
     | Throw _ => requestCache (snd run) = requestCache w
     end.
Proof.
  induction remaining as [|remaining IH]; intros attempt lastError w run; subst run.
  - cbn. repeat split. lia.
  - cbn [Amadeus.attemptLoop]. unfold bind.
    pose proof (attemptOnce_outcome endpoint key options retries_ attempt w) as Hone.
    cbv zeta in Hone.
    destruct (attemptOnce cfg endpoint key options retries_ attempt w)
      as [[[lastError'|v]|e] w1]; cbn [fst snd] in *.
    + destruct Hone as (H1 & H2 & H3 & _ & _ & H6 & H7).
      specialize (IH (attempt + 1) lastError' w1). cbv zeta in IH.
      destruct IH as (G1 & G2 & G3 & G4 & G5).
      split; [congruence|]. split; [congruence|]. split; [congruence|].
      split; [lia|].
      destruct (fst (attemptLoop cfg endpoint key options retries_ remaining
                       (attempt + 1) lastError' w1)).
      * rewrite <- H7. exact G5.
      * congruence.
    + destruct Hone as (H1 & H2 & H3 & _ & _ & H6 & H7 & _).
      unfold ret. cbn [fst snd].
      split; [exact H1|]. split; [exact H2|]. split; [exact H3|].
      split; [lia|]. rewrite H7. split.
      * apply lookup_insert_eq.
      * intros other Hother. apply lookup_insert_ne. congruence.
    + destruct Hone as (H1 & H2 & H3 & _ & _ & H6 & H7).
      repeat split; try assumption. lia.
Qed.

(** The entry for the endpoint is either fresh or not. *)
Lemma hit_or_miss (endpoint : string) (w : World) :
  (exists c, requestCache w !! cacheKeyOf endpoint = Some c
             /\ clock w - timestamp c < CACHE_TTL cfg)
  \/ cacheMiss cfg endpoint w.
Proof.
  unfold cacheMiss.
  destruct (requestCache w !! cacheKeyOf endpoint) as [c|]; [|right; exact I].
  destruct (Z_lt_le_dec (clock w - timestamp c) (CACHE_TTL cfg)).
  - left. exists c. auto.
  - right. assumption.
Qed.

(** The request after a miss, whatever the limiter, the identity service
    and the API do. *)
Lemma request_outcome (endpoint : string) (options : RequestOptions) (w : World) :
  cacheMiss cfg endpoint w ->
  let run := request cfg JSON_stringify endpoint options w in
  match fst run with
  | Ok v =>
      requestCache (snd run) !! cacheKeyOf endpoint
      = Some {| data := v; timestamp := clock (snd run) |}
      /\ (forall other, other <> cacheKeyOf endpoint ->
            requestCache (snd run) !! other = requestCache w !! other)
  | Throw _ => requestCache (snd run) = requestCache w
  end.
Proof.
  intros Hmiss run. subst run. rewrite (request_miss _ _ _ Hmiss).
  unfold bind.
  destruct (checkRateLimit_frame "global"
              (logEvent (CacheLookup (cacheKeyOf endpoint) false) w))
    as (granted & w1 & -> & _ & _ & Hcache1 & _).
  cbn [requestCache logEvent] in Hcache1.
  destruct granted; cbn [negb].
  - pose proof (getToken_frame w1) as (Hcache2 & _).
    destruct (getToken cfg JSON_stringify w1) as [[tok|e] w2]; cbn [snd] in Hcache2.
    + pose proof (attemptLoop_outcome endpoint (cacheKeyOf endpoint) options
                    (attempts cfg options) (Z.to_nat (attempts cfg options))
                    0 None w2) as Hloop.
      cbv zeta in Hloop. destruct Hloop as (_ & _ & _ & _ & Hloop).
      destruct (fst (attemptLoop cfg endpoint (cacheKeyOf endpoint) options
                       (attempts cfg options) (Z.to_nat (attempts cfg options))
                       0 None w2)).
      * destruct Hloop as [Hkey Hother]. split; [exact Hkey|].
        intros other Hne. rewrite (Hother other Hne). congruence.
      * congruence.
    + cbn. congruence.
  - cbn. exact Hcache1.
Qed.

Lemma pauses_cons (from : Z) (n : nat) :
  pauses from (S n) = backoffDelay from :: pauses (from + 1) n.
Proof.
  unfold pauses. cbn [seq List.map]. rewrite Z.add_0_r. f_equal.
  rewrite <- seq_shift, List.map_map. apply List.map_ext. intros k.
  f_equal. lia.
Qed.

(** The loop when every attempt fails: all the attempts are made, with
    the pauses between them, and the error of the last one is thrown. *)
Lemma attemptLoop_fails (endpoint key : string) (options : RequestOptions)
    (retries_ : Z) (remaining : nat) :
  forall (attempt : Z) (lastError : option JsError) (w : World) (e : JsError),
  attempt + Z.of_nat remaining = retries_ ->
  (1 <= remaining)%nat ->
  (forall k, (k < remaining)%nat ->
     is_Some (lastAttemptError cfg options (answer w endpoint k))) ->
  lastAttemptError cfg options (answer w endpoint (remaining - 1)) = Some e ->
  let run := attemptLoop cfg endpoint key options retries_ remaining attempt
               lastError w in
  fst run = Throw e
  /\ apiCalls (snd run) = (apiCalls w + remaining)%nat
  /\ backoffs (trace (snd run))
     = backoffs (trace w) ++ pauses attempt (remaining - 1)
  /\ apiRequests (trace (snd run))
     = apiRequests (trace w) ++ repeat endpoint remaining.
Proof.
  induction remaining as [|remaining IH];
    intros attempt lastError w e Hsum Hpos Hall Hlast run; subst run; [lia|].
  destruct (Hall 0%nat ltac:(lia)) as [e0 He0].
  unfold answer in He0. rewrite Nat.add_0_r in He0.
  pose proof (attemptOnce_fails endpoint key options retries_ attempt w e0 He0
                ltac:(lia)) as Hone.
  cbv zeta in Hone.
  cbn [Amadeus.attemptLoop]. unfold bind.
  destruct (attemptOnce cfg endpoint key options retries_ attempt w)
    as [turn w1]; cbn [fst snd] in Hone.
  destruct Hone as (Hsame & Hcalls & Hreq & [(Hat & -> & Hback)|(Hat & [le ->] & Hback)]).
  - assert (remaining = 0%nat) by lia. subst remaining.
    cbn [Nat.sub] in Hlast. unfold answer in Hlast. rewrite Nat.add_0_r in Hlast.
    cbn [fst snd]. split; [congruence|]. split; [lia|].
    split; [rewrite Hback; unfold pauses; cbn; rewrite app_nil_r; reflexivity|].
    exact Hreq.
  - destruct remaining as [|remaining']; [lia|].
    destruct Hsame as (_ & _ & _ & _ & _ & Hserver).
    specialize (IH (attempt + 1) le w1 e ltac:(lia) ltac:(lia)).
    cbv zeta in IH.
    destruct IH as (G1 & G2 & G3 & G4).
    + intros k Hk. unfold answer. rewrite Hserver, Hcalls.
      replace (S (apiCalls w) + k)%nat with (apiCalls w + S k)%nat by lia.
      apply (Hall (S k)). lia.
    + unfold answer in *. rewrite Hserver, Hcalls.
      replace (S (apiCalls w) + (S remaining' - 1))%nat
        with (apiCalls w + (S (S remaining') - 1))%nat by lia.
      exact Hlast.
    + split; [exact G1|]. split; [lia|]. split.
      * rewrite G3, Hback, <- app_assoc. f_equal.
        replace (S (S remaining') - 1)%nat with (S (S remaining' - 1)) by lia.
        rewrite pauses_cons. reflexivity.
      * rewrite G4, Hreq, <- app_assoc. reflexivity.
Qed.

(** The loop when an attempt delivers data after [j] failed ones: the
    data is returned after [j] pauses and [j + 1] calls. *)
Lemma attemptLoop_recovers (endpoint key : string) (options : RequestOptions)
    (retries_ : Z) (j : nat) :
  forall (remaining : nat) (attempt : Z) (lastError : option JsError)
         (w : World) (v : JsVal),
  attempt + Z.of_nat remaining = retries_ ->
  (j < remaining)%nat ->
  (forall k, (k < j)%nat ->
     is_Some (lastAttemptError cfg options (answer w endpoint k))) ->
  delivered cfg options (answer w endpoint j) = Some v ->
  let run := attemptLoop cfg endpoint key options retries_ remaining attempt
               lastError w in
  fst run = Ok v
  /\ apiCalls (snd run) = (apiCalls w + S j)%nat
  /\ backoffs (trace (snd run)) = backoffs (trace w) ++ pauses attempt j
  /\ apiRequests (trace (snd run))
     = apiRequests (trace w) ++ repeat endpoint (S j).
Proof.
  induction j as [|j IH];
    intros remaining attempt lastError w v Hsum Hlt Hall Hv run; subst run;
    (destruct remaining as [|remaining]; [lia|]);
    cbn [Amadeus.attemptLoop]; unfold bind.
  - unfold answer in Hv. rewrite Nat.add_0_r in Hv.
    pose proof (attemptOnce_delivers endpoint key options retries_ attempt w v Hv)
      as Hgood.
    pose proof (attemptOnce_outcome endpoint key options retries_ attempt w)
      as Hone.
    cbv zeta in Hgood, Hone.
    destruct (attemptOnce cfg endpoint key options retries_ attempt w)
      as [turn w1]; cbn [fst snd] in *.
    destruct Hgood as (-> & Hback & Hreq).
    destruct Hone as (_ & _ & _ & _ & _ & Hcalls & _).
    unfold ret. cbn [fst snd]. split; [reflexivity|]. split; [lia|].
    split; [rewrite Hback; unfold pauses; cbn; rewrite app_nil_r; reflexivity|].
    exact Hreq.
  - destruct (Hall 0%nat ltac:(lia)) as [e0 He0].
    unfold answer in He0. rewrite Nat.add_0_r in He0.
    pose proof (attemptOnce_fails endpoint key options retries_ attempt w e0 He0
                  ltac:(lia)) as Hone.
    cbv zeta in Hone.
    destruct (attemptOnce cfg endpoint key options retries_ attempt w)
      as [turn w1]; cbn [fst snd] in Hone.
    destruct Hone as (Hsame & Hcalls & Hreq
                      & [(Hat & _)|(Hat & [le ->] & Hback)]); [lia|].
    destruct Hsame as (_ & _ & _ & _ & _ & Hserver).
    specialize (IH remaining (attempt + 1) le w1 v ltac:(lia) ltac:(lia)).
    cbv zeta in IH.
    destruct IH as (G1 & G2 & G3 & G4).
    + intros k Hk. unfold answer. rewrite Hserver, Hcalls.
      replace (S (apiCalls w) + k)%nat with (apiCalls w + S k)%nat by lia.
      apply (Hall (S k)). lia.
    + unfold answer in *. rewrite Hserver, Hcalls.
      replace (S (apiCalls w) + j)%nat with (apiCalls w + S j)%nat by lia.
      exact Hv.
    + split; [exact G1|]. split; [lia|]. split.
      * rewrite G3, Hback, <- app_assoc, pauses_cons. reflexivity.
      * rewrite G4, Hreq, <- app_assoc. reflexivity.
Qed.

(** With a token to be had, [getToken] returns one. *)
Lemma getToken_available (w : World) :
  tokenAvailable cfg w ->
  exists tok, fst (getToken cfg JSON_stringify w) = Ok tok.
Proof.
  intros [Hfresh|(latency & tok & life & Hgrant)].
  - destruct (getToken_fresh w Hfresh) as [tok ->]. exists tok. reflexivity.
  - assert (Hr : exists t, fst (refreshToken JSON_stringify w) = Ok t).
    { unfold refreshToken, tryCatch, fetchToken, dateNow, bind, gets, modify, log,
        elapse, throw, ret.
      cbn. rewrite Hgrant. cbn. eexists. reflexivity. }
    unfold getToken, dateNow, bind, gets. cbv beta iota.
    destruct (cachedToken w) as [c|]; [|exact Hr].
    destruct (clock w <? expiresAt c - TOKEN_BUFFER cfg); [|exact Hr].
    eexists. reflexivity.
Qed.

(** After a miss, with room in the window and a token to be had, the
    request arrives at the retry loop without having touched the API or
    the cache. *)
Lemma request_reaches_loop (endpoint : string) (options : RequestOptions)
    (w : World) :
  cacheMiss cfg endpoint w ->
  windowOpen cfg "global" w ->
  tokenAvailable cfg w ->
  exists w2,
    request cfg JSON_stringify endpoint options w
    = attemptLoop cfg endpoint (cacheKeyOf endpoint) options
        (attempts cfg options) (Z.to_nat (attempts cfg options)) 0 None w2
    /\ apiCalls w2 = apiCalls w /\ apiServer w2 = apiServer w
    /\ requestCache w2 = requestCache w
    /\ backoffs (trace w2) = backoffs (trace w)
    /\ apiRequests (trace w2) = apiRequests (trace w).
Proof.
  intros Hmiss Hopen Htoken. rewrite (request_miss _ _ _ Hmiss).
  unfold bind.
  destruct (checkRateLimit_frame "global"
              (logEvent (CacheLookup (cacheKeyOf endpoint) false) w))
    as (granted & w1 & -> & Hgranted & Htok1 & Hcache1 & Hauth1 & Hcalls1
        & Hasrv1 & Hsrv1 & Hclock1 & Hback1 & Hreq1).
  assert (granted = true) as -> by (apply Hgranted; exact Hopen).
  cbn [negb].
  cbn [cachedToken requestCache authCalls apiCalls authServer apiServer clock
       logEvent] in *.
  assert (Htoken1 : tokenAvailable cfg w1).
  { unfold tokenAvailable, tokenFresh in *.
    rewrite Htok1, Hclock1, Hauth1, Hasrv1. exact Htoken. }
  destruct (getToken_available w1 Htoken1) as [tok Hok].
  pose proof (getToken_frame w1) as (Hcache2 & _ & Hcalls2 & Hsrv2 & Hback2 & Hreq2).
  destruct (getToken cfg JSON_stringify w1) as [r w2]; cbn [fst snd] in *.
  subst r. exists w2. split; [reflexivity|].
  assert (Hb : backoffs (trace (logEvent (CacheLookup (cacheKeyOf endpoint) false) w))
               = backoffs (trace w)).
  { cbn. unfold backoffs. rewrite omap_app. cbn. apply app_nil_r. }
  assert (Hq : apiRequests (trace (logEvent (CacheLookup (cacheKeyOf endpoint) false) w))
               = apiRequests (trace w)).
  { cbn. unfold apiRequests. rewrite omap_app. cbn. apply app_nil_r. }
  repeat split; congruence.
Qed.

(** *** Properties of [request] *)

(** A request whose answer is in the cache and younger than the time to
    live returns that answer and does nothing else: it takes no slot of
    the rate limiter, asks for no token and sends nothing to the API. *)
Theorem request_served_from_cache (endpoint : string) (options : RequestOptions)
    (w : World) (c : CacheEntry) :
  requestCache w !! cacheKeyOf endpoint = Some c ->
  clock w - timestamp c < CACHE_TTL cfg ->
  request cfg JSON_stringify endpoint options w
  = (Ok (data c), logEvent (CacheLookup (cacheKeyOf endpoint) true) w).
Proof. apply request_hit. Qed.

(** A request that misses the cache while the window of the limiter is
    full throws the rate-limit error at once: no token is asked for, the
    API is not called, and the token, the cache and the clock are as they
    were. *)
Theorem request_refused_by_limiter (endpoint : string) (options : RequestOptions)
    (w : World) :
  cacheMiss cfg endpoint w ->
  ~ windowOpen cfg "global" w ->
  let run := request cfg JSON_stringify endpoint options w in
  fst run
  = Throw (Error "Rate limit exceeded. Please wait before making another request.")
  /\ authCalls (snd run) = authCalls w
  /\ apiCalls (snd run) = apiCalls w
  /\ cachedToken (snd run) = cachedToken w
  /\ requestCache (snd run) = requestCache w
  /\ clock (snd run) = clock w.
Proof.
  intros Hmiss Hfull run. subst run. rewrite (request_miss _ _ _ Hmiss).
  unfold bind.
  destruct (checkRateLimit_frame "global"
              (logEvent (CacheLookup (cacheKeyOf endpoint) false) w))
    as (granted & w1 & -> & Hgranted & Htok1 & Hcache1 & Hauth1 & Hcalls1
        & _ & _ & Hclock1 & _).
  destruct granted; [exfalso; apply Hfull, Hgranted; reflexivity|].
  cbn. repeat split; assumption.
Qed.

Lemma request_retries_all (endpoint : string) (options : RequestOptions)
    (w : World) (e : JsError) :
  cacheMiss cfg endpoint w ->
  windowOpen cfg "global" w ->
  tokenAvailable cfg w ->
  0 < attempts cfg options ->
  (forall k, (k < Z.to_nat (attempts cfg options))%nat ->
     is_Some (lastAttemptError cfg options (answer w endpoint k))) ->
  lastAttemptError cfg options
    (answer w endpoint (Z.to_nat (attempts cfg options) - 1)) = Some e ->
  let run := request cfg JSON_stringify endpoint options w in
  fst run = Throw e
  /\ apiCalls (snd run) = (apiCalls w + Z.to_nat (attempts cfg options))%nat
  /\ backoffs (trace (snd run))
     = backoffs (trace w) ++ pauses 0 (Z.to_nat (attempts cfg options) - 1)
  /\ requestCache (snd run) = requestCache w.
Proof.
  intros Hmiss Hopen Htoken Hpos Hall Hlast run. subst run.
  pose proof (request_outcome endpoint options w Hmiss) as Hout. cbv zeta in Hout.
  destruct (request_reaches_loop endpoint options w Hmiss Hopen Htoken)
    as (w2 & Heq & Hcalls & Hsrv & Hcache & Hback & Hreq).
  rewrite Heq in *.
  pose proof (attemptLoop_fails endpoint (cacheKeyOf endpoint) options
                (attempts cfg options) (Z.to_nat (attempts cfg options))
                0 None w2 e) as Hloop.
  cbv zeta in Hloop.
  destruct Hloop as (H1 & H2 & H3 & H4).
  - lia.
  - lia.
  - intros k Hk. unfold answer. rewrite Hsrv, Hcalls. apply Hall, Hk.
  - unfold answer in *. rewrite Hsrv, Hcalls. exact Hlast.
  - rewrite H1 in Hout. split; [exact H1|]. split; [lia|].
    split; [rewrite H3, Hback; reflexivity|]. exact Hout.
Qed.

(** When none of the attempts delivers data, [request] makes all of them,
    whatever the status of the answers, pauses [1000], [2000], ...
    milliseconds between them, throws the error of the last attempt and
    leaves the cache as it was. *)
Theorem request_throws_last_error (endpoint : string) (options : RequestOptions)
    (w : World) (e : JsError) :
  cacheMiss cfg endpoint w ->
  windowOpen cfg "global" w ->
  tokenAvailable cfg w ->
  0 < attempts cfg options ->
  (forall k, (k < Z.to_nat (attempts cfg options))%nat ->
     is_Some (lastAttemptError cfg options (answer w endpoint k))) ->
  lastAttemptError cfg options
    (answer w endpoint (Z.to_nat (attempts cfg options) - 1)) = Some e ->
  let run := request cfg JSON_stringify endpoint options w in
  fst run = Throw e
  /\ apiCalls (snd run) = (apiCalls w + Z.to_nat (attempts cfg options))%nat
  /\ backoffs (trace (snd run))
     = backoffs (trace w) ++ pauses 0 (Z.to_nat (attempts cfg options) - 1)
  /\ requestCache (snd run) = requestCache w.
Proof. apply request_retries_all. Qed.

(** When an attempt delivers data after [j] attempts that did not,
    [request] returns that data after [j + 1] calls to the API and [j]
    pauses, and stores it in the cache with the time of the return. *)
Lemma request_recovers (endpoint : string) (options : RequestOptions)
    (w : World) (j : nat) (v : JsVal) :
  cacheMiss cfg endpoint w ->
  windowOpen cfg "global" w ->
  tokenAvailable cfg w ->
  (j < Z.to_nat (attempts cfg options))%nat ->
  (forall k, (k < j)%nat ->
     is_Some (lastAttemptError cfg options (answer w endpoint k))) ->
  delivered cfg options (answer w endpoint j) = Some v ->
  let run := request cfg JSON_stringify endpoint options w in
  fst run = Ok v
  /\ apiCalls (snd run) = (apiCalls w + S j)%nat
  /\ backoffs (trace (snd run)) = backoffs (trace w) ++ pauses 0 j
  /\ requestCache (snd run) !! cacheKeyOf endpoint
     = Some {| data := v; timestamp := clock (snd run) |}.
Proof.
  intros Hmiss Hopen Htoken Hlt Hall Hv run. subst run.
  pose proof (request_outcome endpoint options w Hmiss) as Hout. cbv zeta in Hout.
  destruct (request_reaches_loop endpoint options w Hmiss Hopen Htoken)
    as (w2 & Heq & Hcalls & Hsrv & Hcache & Hback & Hreq).
  rewrite Heq in *.
  pose proof (attemptLoop_recovers endpoint (cacheKeyOf endpoint) options
                (attempts cfg options) j (Z.to_nat (attempts cfg options))
                0 None w2 v) as Hloop.
  cbv zeta in Hloop.
  destruct Hloop as (H1 & H2 & H3 & H4).
  - lia.
  - exact Hlt.
  - intros k Hk. unfold answer. rewrite Hsrv, Hcalls. apply Hall, Hk.
  - unfold answer in *. rewrite Hsrv, Hcalls. exact Hv.
  - rewrite H1 in Hout. split; [exact H1|]. split; [lia|].
    split; [rewrite H3, Hback; reflexivity|]. apply Hout.
Qed.

(** An attempt that delivers data after [j] failed ones ends the request:
    the data is returned after [j + 1] calls and [j] pauses, and is in the
    cache under the key of the request, stamped with the time of the
    return. *)
Theorem request_returns_first_delivery (endpoint : string)
    (options : RequestOptions) (w : World) (j : nat) (v : JsVal) :
  cacheMiss cfg endpoint w ->
  windowOpen cfg "global" w ->
  tokenAvailable cfg w ->
  (j < Z.to_nat (attempts cfg options))%nat ->
  (forall k, (k < j)%nat ->
     is_Some (lastAttemptError cfg options (answer w endpoint k))) ->
  delivered cfg options (answer w endpoint j) = Some v ->
  let run := request cfg JSON_stringify endpoint options w in
  fst run = Ok v
  /\ apiCalls (snd run) = (apiCalls w + S j)%nat
  /\ backoffs (trace (snd run)) = backoffs (trace w) ++ pauses 0 j
  /\ requestCache (snd run) !! cacheKeyOf endpoint
     = Some {| data := v; timestamp := clock (snd run) |}.
Proof. apply request_recovers. Qed.

(** An answer with a client-error status is retried like any other
    failure: the error raised for it inside the [try] is caught by the
    [catch] of the same attempt.  If the next attempt delivers data, the
    request returns it after a pause of one second. *)
Theorem client_error_is_retried (endpoint : string) (options : RequestOptions)
    (w : World) (latency st : Z) (b : Body) (v : JsVal) :
  cacheMiss cfg endpoint w ->
  windowOpen cfg "global" w ->
  tokenAvailable cfg w ->
  2 <= attempts cfg options ->
  answer w endpoint 0 = (latency, Responds st b) ->
  latency < Js.numOr (timeout options) (REQUEST_TIMEOUT cfg) ->
  300 <= st < 500 -> st <> 429 ->
  delivered cfg options (answer w endpoint 1) = Some v ->
  let run := request cfg JSON_stringify endpoint options w in
  fst run = Ok v
  /\ apiCalls (snd run) = (apiCalls w + 2)%nat
  /\ backoffs (trace (snd run)) = backoffs (trace w) ++ [1000].
Proof.
  intros Hmiss Hopen Htoken Htwo Hfirst Hlat Hst Hne Hv run. subst run.
  pose proof (request_recovers endpoint options w 1 v Hmiss Hopen Htoken
                ltac:(lia)) as Hrun.
  cbv zeta in Hrun.
  destruct Hrun as (H1 & H2 & H3 & _).
  - intros k Hk. assert (k = 0%nat) by lia. subst k.
    rewrite Hfirst. unfold lastAttemptError.
    assert (E1 : (latency <? Js.numOr (timeout options) (REQUEST_TIMEOUT cfg)) = true)
      by lia.
    assert (E2 : ((200 <=? st) && (st <=? 299)) = false) by lia.
    assert (E3 : (negb (st =? 429) && (st <? 500)) = true) by lia.
    rewrite E1, E2, E3. eexists. reflexivity.
  - exact Hv.
  - split; [exact H1|]. split; [exact H2|]. rewrite H3. reflexivity.
Qed.

(** When every attempt is answered in time with a status that asks for a
    retry (429 or 5xx), the request does not end with the text of the
    upstream error: the last attempt reads the body of its answer a
    second time, and what is thrown is the rejection of that read. *)
Theorem retryable_statuses_end_in_body_error (endpoint : string)
    (options : RequestOptions) (w : World) :
  cacheMiss cfg endpoint w ->
  windowOpen cfg "global" w ->
  tokenAvailable cfg w ->
  0 < attempts cfg options ->
  (forall k, (k < Z.to_nat (attempts cfg options))%nat ->
     exists latency st b,
       answer w endpoint k = (latency, Responds st b)
       /\ latency < Js.numOr (timeout options) (REQUEST_TIMEOUT cfg)
       /\ (st = 429 \/ 500 <= st)) ->
  let run := request cfg JSON_stringify endpoint options w in
  fst run = Throw bodyUsedError
  /\ apiCalls (snd run) = (apiCalls w + Z.to_nat (attempts cfg options))%nat.
Proof.
  intros Hmiss Hopen Htoken Hpos Hall run. subst run.
  assert (Herr : forall k, (k < Z.to_nat (attempts cfg options))%nat ->
            lastAttemptError cfg options (answer w endpoint k) = Some bodyUsedError).
  { intros k Hk. destruct (Hall k Hk) as (latency & st & b & -> & Hlat & Hst).
    unfold lastAttemptError.
    assert (E1 : (latency <? Js.numOr (timeout options) (REQUEST_TIMEOUT cfg)) = true)
      by lia.
    assert (E2 : ((200 <=? st) && (st <=? 299)) = false) by lia.
    assert (E3 : (negb (st =? 429) && (st <? 500)) = false) by lia.
    rewrite E1, E2, E3. reflexivity. }
  pose proof (request_retries_all endpoint options w bodyUsedError Hmiss Hopen
                Htoken Hpos) as Hrun.
  cbv zeta in Hrun. destruct Hrun as (H1 & H2 & _).
  - intros k Hk. rewrite (Herr k Hk). eexists. reflexivity.
  - apply Herr. lia.
  - split; assumption.
Qed.

(** A request that throws leaves the cache exactly as it found it. *)
Theorem request_failure_keeps_cache (endpoint : string) (options : RequestOptions)
    (w : World) (e : JsError) :
  fst (request cfg JSON_stringify endpoint options w) = Throw e ->
  requestCache (snd (request cfg JSON_stringify endpoint options w))
  = requestCache w.
Proof.
  intros Hthrow.
  destruct (hit_or_miss endpoint w) as [(c & Hc & Hfresh)|Hmiss].
  - rewrite (request_hit endpoint options w c Hc Hfresh) in Hthrow.
    discriminate Hthrow.
  - pose proof (request_outcome endpoint options w Hmiss) as Hout.
    cbv zeta in Hout. rewrite Hthrow in Hout. exact Hout.
Qed.

(** What a request returns is in the cache afterwards, and a request for
    the same endpoint made while that entry is younger than the time to
    live returns the same data without reaching the limiter, the token
    manager or the API. *)
Theorem request_answer_is_cached (endpoint : string) (options : RequestOptions)
    (w : World) (v : JsVal) :
  0 < CACHE_TTL cfg ->
  fst (request cfg JSON_stringify endpoint options w) = Ok v ->
  let w' := snd (request cfg JSON_stringify endpoint options w) in
  exists c,
    requestCache w' !! cacheKeyOf endpoint = Some c
    /\ data c = v
    /\ clock w' - timestamp c < CACHE_TTL cfg
    /\ forall (t : Z) (options' : RequestOptions),
         t - timestamp c < CACHE_TTL cfg ->
         request cfg JSON_stringify endpoint options' (setClock t w')
         = (Ok v, logEvent (CacheLookup (cacheKeyOf endpoint) true) (setClock t w')).
Proof.
  intros Httl Hok w'. subst w'.
  assert (Hentry : exists c,
    requestCache (snd (request cfg JSON_stringify endpoint options w))
      !! cacheKeyOf endpoint = Some c
    /\ data c = v
    /\ clock (snd (request cfg JSON_stringify endpoint options w)) - timestamp c
       < CACHE_TTL cfg).
  { destruct (hit_or_miss endpoint w) as [(c & Hc & Hfresh)|Hmiss].
    - rewrite (request_hit endpoint options w c Hc Hfresh) in *.
      cbn in *. exists c. split; [exact Hc|]. split; [congruence|]. exact Hfresh.
    - pose proof (request_outcome endpoint options w Hmiss) as Hout.
      cbv zeta in Hout. rewrite Hok in Hout. destruct Hout as [Hkey _].
      eexists. split; [exact Hkey|]. cbn. split; [reflexivity|]. lia. }
  destruct Hentry as (c & Hc & Hdata & Hyoung).
  exists c. split; [exact Hc|]. split; [exact Hdata|]. split; [exact Hyoung|].
  intros t options' Ht. rewrite <- Hdata.
  apply request_hit; [exact Hc | exact Ht].
Qed.

(** *** The cache and the limiter: which comes first *)

Lemma getToken_admissions (w : World) :
  admissions (trace (snd (getToken cfg JSON_stringify w))) = admissions (trace w).
Proof.
  assert (Hr : admissions (trace (snd (refreshToken JSON_stringify w)))
               = admissions (trace w)).
  { unfold refreshToken, tryCatch, fetchToken, dateNow, bind, gets, modify, log,
      elapse, throw, ret.
    cbn.
    destruct (authServer w (authCalls w)) as [latency [e|st error|e|tok life]];
      cbn; unfold admissions; rewrite !omap_app; cbn;
      rewrite !app_nil_r; reflexivity. }
  unfold getToken, dateNow, bind, gets. cbv beta iota.
  destruct (cachedToken w) as [c|]; [|exact Hr].
  destruct (clock w <? expiresAt c - TOKEN_BUFFER cfg); [|exact Hr].
  reflexivity.
Qed.

Ltac settle_admissions :=
  step; unfold admissions; rewrite ?omap_app; step; rewrite ?app_nil_r;
  try reflexivity.

Lemma attemptOnce_admissions (endpoint key : string) (options : RequestOptions)
    (retries_ attempt : Z) (w : World) :
  admissions (trace (snd (attemptOnce cfg endpoint key options retries_ attempt w)))
  = admissions (trace w).
Proof.
  run_attempt.
  destruct (apiServer w (apiCalls w) endpoint) as [latency reply].
  destruct reply as [err| |st b].
  - destruct (latency <? Js.numOr (timeout options) (REQUEST_TIMEOUT cfg));
      step; destruct (attempt =? retries_ - 1); settle_admissions.
  - step; destruct (attempt =? retries_ - 1); settle_admissions.
  - destruct (latency <? Js.numOr (timeout options) (REQUEST_TIMEOUT cfg));
      [|step; destruct (attempt =? retries_ - 1); settle_admissions].
    unfold ok, json. step.
    destruct ((200 <=? st) && (st <=? 299)) eqn:Hok.
    + destruct b as [|v]; step.
      * destruct (attempt =? retries_ - 1); settle_admissions.
      * settle_admissions.
    + destruct b as [|v]; step;
        (destruct (negb (st =? 429) && (st <? 500)); step;
         destruct (attempt =? retries_ - 1); step;
         destruct (attempt <? retries_ - 1); settle_admissions).
Qed.

Lemma attemptLoop_admissions (endpoint key : string) (options : RequestOptions)
    (retries_ : Z) (remaining : nat) :
  forall (attempt : Z) (lastError : option JsError) (w : World),
  admissions (trace (snd (attemptLoop cfg endpoint key options retries_ remaining
                            attempt lastError w)))
  = admissions (trace w).
Proof.
  induction remaining as [|remaining IH]; intros attempt lastError w.
  - reflexivity.
  - cbn [Amadeus.attemptLoop]. unfold bind.
    pose proof (attemptOnce_admissions endpoint key options retries_ attempt w) as Hone.
    destruct (attemptOnce cfg endpoint key options retries_ attempt w)
      as [[[lastError'|v]|e] w1]; cbn [fst snd] in *.
    + rewrite IH. exact Hone.
    + exact Hone.
    + exact Hone.
Qed.

(** One check of the limiter, spelled out. *)
Lemma checkRateLimit_run (key : string) (w : World) :
  let window := currentWindow cfg (clock w) (rateLimitMap w !! key) in
  let granted := negb (RATE_LIMIT cfg <=? requestCount window) in
  exists w',
    checkRateLimit cfg key w = (Ok granted, w')
    /\ trace w' = trace w ++ [RateLimitCheck key granted]
    /\ (granted = true ->
          rateLimitMap w' !! key
          = Some {| requestCount := requestCount window + 1;
                    resetTime := resetTime window |}).
Proof.
  intros window granted. subst window granted.
  unfold checkRateLimit, dateNow, bind, gets, modify, log, ret. cbv beta iota.
  destruct (RATE_LIMIT cfg <=? requestCount
              (currentWindow cfg (clock w) (rateLimitMap w !! key)));
    eexists; (split; [reflexivity|]); cbn; (split; [reflexivity|]).
  - discriminate.
  - intros _. apply lookup_insert_eq.
Qed.

(** What the limiter does to its table does not depend on the log. *)
Lemma checkRateLimit_table (key : string) (e : Event) (w : World) :
  rateLimitMap (snd (checkRateLimit cfg key (logEvent e w)))
  = rateLimitMap (snd (checkRateLimit cfg key w)).
Proof.
  unfold checkRateLimit, dateNow, bind, gets, modify, log, ret. cbv beta iota.
  cbn [clock rateLimitMap logEvent].
  destruct (RATE_LIMIT cfg <=? requestCount
              (currentWindow cfg (clock w) (rateLimitMap w !! key)));
    reflexivity.
Qed.

(** C1 (amended).  [request] looks into the cache first.  A call that
    finds a fresh entry returns its data, is recorded as a cache lookup
    and nothing else, and leaves the table of the limiter, hence the
    count of the window, as it was.  Only a call that misses the cache
    goes on to the limiter: the lookup is followed by one check of the
    key [global], the table is what that check makes of it, the count of
    the window goes up by one when the call is granted, and a call that
    is not granted throws the rate-limit error. *)
Theorem request_consults_cache_before_limiter (endpoint : string)
    (options : RequestOptions) (w : World) :
  let run := request cfg JSON_stringify endpoint options w in
  let key := cacheKeyOf endpoint in
  let window := currentWindow cfg (clock w) (rateLimitMap w !! "global") in
  (forall c, requestCache w !! key = Some c ->
     clock w - timestamp c < CACHE_TTL cfg ->
     fst run = Ok (data c)
     /\ rateLimitMap (snd run) = rateLimitMap w
     /\ admissions (trace (snd run))
        = admissions (trace w) ++ [CacheLookup key true])
  /\ (cacheMiss cfg endpoint w ->
      exists granted,
        (granted = true <-> windowOpen cfg "global" w)
        /\ admissions (trace (snd run))
           = admissions (trace w)
             ++ [CacheLookup key false; RateLimitCheck "global" granted]
        /\ rateLimitMap (snd run)
           = rateLimitMap (snd (checkRateLimit cfg "global" w))
        /\ (granted = true ->
              rateLimitMap (snd run) !! "global"
              = Some {| requestCount := requestCount window + 1;
                        resetTime := resetTime window |})
        /\ (granted = false ->
              fst run
              = Throw (Error "Rate limit exceeded. Please wait before making another request."))).
Proof.
  intros run key window. subst run key window. split.
  - intros c Hc Hfresh. rewrite (request_hit endpoint options w c Hc Hfresh).
    cbn [fst snd rateLimitMap trace logEvent]. split; [reflexivity|].
    split; [reflexivity|].
    unfold admissions. rewrite omap_app. reflexivity.
  - intros Hmiss. rewrite (request_miss _ _ _ Hmiss). unfold bind.
    pose proof (checkRateLimit_table "global"
                  (CacheLookup (cacheKeyOf endpoint) false) w) as Htable.
    destruct (checkRateLimit_run "global"
                (logEvent (CacheLookup (cacheKeyOf endpoint) false) w))
      as (w1 & Hrun & Htrace & Hcount).
    cbn [clock rateLimitMap trace logEvent] in Hrun, Htrace, Hcount.
    rewrite Hrun in *. cbn [snd] in Htable.
    assert (Hadm : admissions (trace w1)
                     = admissions (trace w)
                       ++ [CacheLookup (cacheKeyOf endpoint) false;
                           RateLimitCheck "global"
                             (negb (RATE_LIMIT cfg <=? requestCount
                                      (currentWindow cfg (clock w)
                                         (rateLimitMap w !! "global"))))]).
    { rewrite Htrace. unfold admissions. rewrite !omap_app, <- app_assoc.
      reflexivity. }
    exists (negb (RATE_LIMIT cfg <=? requestCount
                    (currentWindow cfg (clock w) (rateLimitMap w !! "global")))).
    split.
    { unfold windowOpen.
      destruct (RATE_LIMIT cfg <=? requestCount
                  (currentWindow cfg (clock w) (rateLimitMap w !! "global")))
        eqn:Hfull; cbn [negb]; split; intros H; try reflexivity;
        try discriminate H; lia. }
    destruct (RATE_LIMIT cfg <=? requestCount
                (currentWindow cfg (clock w) (rateLimitMap w !! "global")));
      cbn [negb] in *.
    + cbn [fst snd throw]. split; [exact Hadm|]. split; [exact Htable|].
      split; [discriminate | reflexivity].
    + pose proof (getToken_frame w1) as (_ & Hlim2 & _).
      pose proof (getToken_admissions w1) as Hadm2.
      destruct (getToken cfg JSON_stringify w1) as [[tok|e] w2];
        cbn [fst snd] in *.
      * pose proof (attemptLoop_outcome endpoint (cacheKeyOf endpoint) options
                      (attempts cfg options) (Z.to_nat (attempts cfg options))
                      0 None w2) as Hloop.
        cbv zeta in Hloop. destruct Hloop as (_ & Hlim3 & _).
        rewrite attemptLoop_admissions, Hlim3, Hlim2, Hadm2.
        split; [exact Hadm|]. split; [exact Htable|].
        split; [intros _; apply Hcount; reflexivity | discriminate].
      * rewrite Hlim2, Hadm2.
        split; [exact Hadm|]. split; [exact Htable|].
        split; [intros _; apply Hcount; reflexivity | discriminate].
Qed.

(** *** Retries that run out *)

Lemma retryable_fails (options : RequestOptions) (a : Z * FetchReply) :
  retryable a -> is_Some (lastAttemptError cfg options a).
Proof.
  destruct a as [latency [err| |st b]]; cbn [retryable lastAttemptError];
    intros H; try (eexists; reflexivity).
  unfold lastAttemptError.
  destruct (latency <? Js.numOr (timeout options) (REQUEST_TIMEOUT cfg));
    [|eexists; reflexivity].
  assert (E2 : ((200 <=? st) && (st <=? 299)) = false) by lia.
  assert (E3 : (negb (st =? 429) && (st <? 500)) = false) by lia.
  rewrite E2, E3. eexists. reflexivity.
Qed.

(** C4 (as the code behaves).  When every attempt ends in an answer that
    asks for a retry, [request] makes all its attempts and throws the
    error that the last attempt raised.  For a transport failure that is
    the error of the transport.  For a response with status 429 or 5xx
    it is not the error made of the upstream detail: that error is
    assigned to [lastError], the body is then read a second time, and
    the rejection of that read is what the call throws. *)
Theorem retryable_failures_throw_last_attempt_error (endpoint : string)
    (options : RequestOptions) (w : World) :
  cacheMiss cfg endpoint w ->
  windowOpen cfg "global" w ->
  tokenAvailable cfg w ->
  0 < attempts cfg options ->
  (forall k, (k < Z.to_nat (attempts cfg options))%nat ->
     retryable (answer w endpoint k)) ->
  let run := request cfg JSON_stringify endpoint options w in
  let final := answer w endpoint (Z.to_nat (attempts cfg options) - 1) in
  let timeout_ := Js.numOr (timeout options) (REQUEST_TIMEOUT cfg) in
  exists e,
    fst run = Throw e
    /\ apiCalls (snd run) = (apiCalls w + Z.to_nat (attempts cfg options))%nat
    /\ (forall latency err,
          final = (latency, Rejects err) -> latency < timeout_ -> e = err)
    /\ (forall latency st body_,
          final = (latency, Responds st body_) -> latency < timeout_ ->
          e = bodyUsedError
          /\ e <> Error (formatError
                           (match body_ with Parsed v => v | Unparsable => VObj [] end))).
Proof.
  intros Hmiss Hopen Htoken Hpos Hall run final timeout_.
  assert (Hlast : (Z.to_nat (attempts cfg options) - 1
                   < Z.to_nat (attempts cfg options))%nat) by lia.
  destruct (retryable_fails options _ (Hall _ Hlast)) as [e He].
  pose proof (request_retries_all endpoint options w e Hmiss Hopen Htoken Hpos)
    as Hrun.
  cbv zeta in Hrun. destruct Hrun as (H1 & H2 & _).
  - intros k Hk. apply retryable_fails, Hall, Hk.
  - exact He.
  - exists e. split; [exact H1|]. split; [exact H2|]. split.
    + intros latency err Hfinal Hlat. fold final in He. rewrite Hfinal in He.
      unfold lastAttemptError in He. fold timeout_ in He.
      assert (E : (latency <? timeout_) = true) by lia.
      rewrite E in He. injection He as <-. reflexivity.
    + intros latency st body_ Hfinal Hlat.
      pose proof (Hall _ Hlast) as Hretry. fold final in He, Hretry.
      rewrite Hfinal in He, Hretry. cbn [retryable] in Hretry.
      unfold lastAttemptError in He. fold timeout_ in He.
      assert (E1 : (latency <? timeout_) = true) by lia.
      assert (E2 : ((200 <=? st) && (st <=? 299)) = false) by lia.
      assert (E3 : (negb (st =? 429) && (st <? 500)) = false) by lia.
      rewrite E1, E2, E3 in He. injection He as <-.
      split; [reflexivity | discriminate].
Qed.

End Requests.

(** A second call for the same endpoint is answered from the cache: the
    limiter is not consulted and the count of the window stays at one,
    although the claim has it raised by every call. *)
Lemma cached_call_is_not_counted :
  let first := request defaultConfig stringifyStub jfkEndpoint noOptions
                 (newWorld grantingAuth healthyApi) in
  let second := request defaultConfig stringifyStub jfkEndpoint noOptions
                  (snd first) in
  fst first = Ok jfkPayload
  /\ fst second = Ok jfkPayload
  /\ requestCount <$> rateLimitMap (snd first) !! "global" = Some 1
  /\ requestCount <$> rateLimitMap (snd second) !! "global" = Some 1
  /\ trace (snd second)
     = [CacheLookup (cacheKeyOf jfkEndpoint) false; RateLimitCheck "global" true;
        TokenRequest; ApiRequest jfkEndpoint; CacheStore (cacheKeyOf jfkEndpoint);
        CacheLookup (cacheKeyOf jfkEndpoint) true].
Proof. vm_compute. repeat split; reflexivity. Qed.

(** With the window used up, a call is still answered when the cache
    holds its answer: the cache is read before the limiter is asked. *)
Example cached_call_passes_full_window :
  let w := setRateLimitMap
             {[ "global" := {| requestCount := 30; resetTime := 60000 |} ]}
             warmWorld in
  fst (request defaultConfig stringifyStub jfkEndpoint noOptions w) = Ok jfkPayload
  /\ fst (checkRateLimit defaultConfig "global" w) = Ok false.
Proof. vm_compute. split; reflexivity. Qed.

(** Three answers of status 503 with the detail [Service unavailable]:
    the call ends with the error of the second read of the body. *)
Lemma retryable_failures_throw_last_attempt_error_witness :
  fst (request defaultConfig stringifyStub jfkEndpoint noOptions
         (newWorld grantingAuth unavailableApi))
  = Throw bodyUsedError
  /\ formatError unavailableBody = "Service unavailable".
Proof.
  destruct (retryable_failures_throw_last_attempt_error defaultConfig stringifyStub
              jfkEndpoint noOptions (newWorld grantingAuth unavailableApi))
    as (e & H1 & _ & _ & H4).
  - vm_compute. exact I.
  - vm_compute. reflexivity.
  - right. exists 100, "token-1", 600. reflexivity.
  - vm_compute. reflexivity.
  - intros k _. right. vm_compute. discriminate.
  - destruct (H4 50 503 (Parsed unavailableBody) eq_refl) as [He _].
    + vm_compute. reflexivity.
    + rewrite He in H1. split; [exact H1 | reflexivity].
Defined.

(** The same with an API that cannot be reached: the error of the
    transport is what the call throws. *)
Example unreachable_api_error :
  fst (request defaultConfig stringifyStub jfkEndpoint noOptions
         (newWorld grantingAuth unreachableApi))
  = Throw {| name := "TypeError"; message := "fetch failed" |}.
Proof. vm_compute. reflexivity. Qed.

Lemma request_served_from_cache_witness :
  request defaultConfig stringifyStub jfkEndpoint noOptions warmWorld
  = (Ok jfkPayload, logEvent (CacheLookup (cacheKeyOf jfkEndpoint) true) warmWorld).
Proof.
  apply (request_served_from_cache defaultConfig stringifyStub jfkEndpoint
           noOptions warmWorld {| data := jfkPayload; timestamp := 1000 |}).
  - vm_compute. reflexivity.
  - vm_compute. reflexivity.
Defined.

Lemma request_refused_by_limiter_witness :
  fst (request defaultConfig stringifyStub jfkEndpoint noOptions exhaustedWorld)
  = Throw (Error "Rate limit exceeded. Please wait before making another request.")
  /\ apiCalls (snd (request defaultConfig stringifyStub jfkEndpoint noOptions
                     exhaustedWorld)) = 0%nat.
Proof.
  destruct (request_refused_by_limiter defaultConfig stringifyStub jfkEndpoint
              noOptions exhaustedWorld) as (H1 & _ & H3 & _).
  - vm_compute. exact I.
  - vm_compute. discriminate.
  - split; [exact H1 | exact H3].
Defined.

Lemma request_throws_last_error_witness :
  fst (request defaultConfig stringifyStub jfkEndpoint noOptions
         (newWorld grantingAuth unreachableApi))
  = Throw {| name := "TypeError"; message := "fetch failed" |}
  /\ apiCalls (snd (request defaultConfig stringifyStub jfkEndpoint noOptions
                     (newWorld grantingAuth unreachableApi))) = 3%nat.
Proof.
  destruct (request_throws_last_error defaultConfig stringifyStub jfkEndpoint
              noOptions (newWorld grantingAuth unreachableApi)
              {| name := "TypeError"; message := "fetch failed" |})
    as (H1 & H2 & _).
  - vm_compute. exact I.
  - vm_compute. reflexivity.
  - right. exists 100, "token-1", 600. reflexivity.
  - vm_compute. reflexivity.
  - intros k _. eexists. reflexivity.
  - reflexivity.
  - split; [exact H1 | exact H2].
Defined.

Lemma retryable_statuses_end_in_body_error_witness :
  fst (request defaultConfig stringifyStub jfkEndpoint noOptions
         (newWorld grantingAuth unavailableApi))
  = Throw bodyUsedError.
Proof.
  apply (retryable_statuses_end_in_body_error defaultConfig stringifyStub
           jfkEndpoint noOptions (newWorld grantingAuth unavailableApi)).
  - vm_compute. exact I.
  - vm_compute. reflexivity.
  - right. exists 100, "token-1", 600. reflexivity.
  - vm_compute. reflexivity.
  - intros k _. exists 50, 503, (Parsed unavailableBody).
    split; [reflexivity|]. split; [vm_compute; reflexivity | right; lia].
Defined.

Lemma request_returns_first_delivery_witness :
  fst (request defaultConfig stringifyStub jfkEndpoint noOptions
         (newWorld grantingAuth recoveringApi))
  = Ok jfkPayload.
Proof.
  apply (request_returns_first_delivery defaultConfig stringifyStub jfkEndpoint
           noOptions (newWorld grantingAuth recoveringApi) 1 jfkPayload).
  - vm_compute. exact I.
  - vm_compute. reflexivity.
  - right. exists 100, "token-1", 600. reflexivity.
  - vm_compute. lia.
  - intros k Hk. assert (k = 0%nat) as -> by lia. eexists. reflexivity.
  - reflexivity.
Defined.

Lemma client_error_is_retried_witness :
  fst (request defaultConfig stringifyStub jfkEndpoint noOptions
         (newWorld grantingAuth recoveringApi))
  = Ok jfkPayload
  /\ backoffs (trace (snd (request defaultConfig stringifyStub jfkEndpoint
                             noOptions (newWorld grantingAuth recoveringApi))))
     = [1000].
Proof.
  destruct (client_error_is_retried defaultConfig stringifyStub jfkEndpoint
              noOptions (newWorld grantingAuth recoveringApi) 50 404
              (Parsed (VObj [("title", VStr "Not Found")])) jfkPayload)
    as (H1 & _ & H3).
  - vm_compute. exact I.
  - vm_compute. reflexivity.
  - right. exists 100, "token-1", 600. reflexivity.
  - vm_compute. discriminate.
  - reflexivity.
  - vm_compute. reflexivity.
  - lia.
  - lia.
  - reflexivity.
  - split; [exact H1 | exact H3].
Defined.

Lemma request_failure_keeps_cache_witness :
  requestCache (snd (request defaultConfig stringifyStub jfkEndpoint noOptions
                       exhaustedWorld))
  = requestCache exhaustedWorld.
Proof.
  apply (request_failure_keeps_cache defaultConfig stringifyStub jfkEndpoint
           noOptions exhaustedWorld
           (Error "Rate limit exceeded. Please wait before making another request.")).
  vm_compute. reflexivity.
Defined.

Lemma request_answer_is_cached_witness :
  exists c,
    requestCache (snd (request defaultConfig stringifyStub jfkEndpoint noOptions
                         (newWorld grantingAuth healthyApi)))
      !! cacheKeyOf jfkEndpoint = Some c
    /\ data c = jfkPayload.
Proof.
  destruct (request_answer_is_cached defaultConfig stringifyStub jfkEndpoint
              noOptions (newWorld grantingAuth healthyApi) jfkPayload)
    as (c & H1 & H2 & _).
  - vm_compute. reflexivity.
  - vm_compute. reflexivity.
  - exists c. split; [exact H1 | exact H2].
Defined.

End RequestPath.

(* ================================================================== *)
(** * The token manager and the limiter on their own *)
(* ================================================================== *)

Module ClientServices.
Import Amadeus Statements ClientStatements Samples.

Local Open Scope Z_scope.

Section Services.
Variable cfg : Config.
Variable JSON_stringify : JsVal -> string.

(** Every error of a refresh is wrapped once, and the token that was
    cached stays. *)
Lemma refreshToken_failure (w : World) (e : JsError) :
  fst (refreshToken JSON_stringify w) = Throw e ->
  e = Error ("Amadeus auth error: "
             ++ match snd (authServer w (authCalls w)) with
                | TokenUnreachable cause | TokenGarbled cause => message cause
                | TokenRejected st error =>
                    "Authentication failed: " ++ pretty st ++ " "
                    ++ JSON_stringify (default (VObj []) error)
                | TokenGranted _ _ => ""
                end)%string
  /\ cachedToken (snd (refreshToken JSON_stringify w)) = cachedToken w
  /\ authCalls (snd (refreshToken JSON_stringify w)) = S (authCalls w).
Proof.
  unfold refreshToken, tryCatch, fetchToken, dateNow, bind, gets, modify, log,
    elapse, throw, ret.
  cbn.
  destruct (authServer w (authCalls w)) as [latency [cause|st error|cause|tok life]];
    cbn; intros H; try discriminate H; injection H as <-; repeat split.
Qed.

(** A failure of [getToken] is always an [Error] whose text starts with
    the words of the token manager; it has cost one call to the identity
    service, and the cached token, stale as it is, is still there. *)
Theorem getToken_failure (w : World) (e : JsError) :
  fst (getToken cfg JSON_stringify w) = Throw e ->
  prefixed "Amadeus auth error: " e
  /\ ~ tokenFresh cfg w
  /\ cachedToken (snd (getToken cfg JSON_stringify w)) = cachedToken w
  /\ authCalls (snd (getToken cfg JSON_stringify w)) = S (authCalls w).
Proof.
  unfold getToken, tokenFresh, dateNow, bind, gets. cbv beta iota.
  assert (Hr : fst (refreshToken JSON_stringify w) = Throw e ->
               prefixed "Amadeus auth error: " e
               /\ cachedToken (snd (refreshToken JSON_stringify w)) = cachedToken w
               /\ authCalls (snd (refreshToken JSON_stringify w)) = S (authCalls w)).
  { intros H. destruct (refreshToken_failure w e H) as (-> & H2 & H3).
    split; [|auto]. split; [reflexivity|]. eexists. reflexivity. }
  destruct (cachedToken w) as [c|].
  - destruct (clock w <? expiresAt c - TOKEN_BUFFER cfg) eqn:Hlt.
    + intros H. discriminate H.
    + intros H. destruct (Hr H) as (H1 & H2 & H3).
      split; [exact H1|]. split; [lia|]. split; assumption.
  - intros H. destruct (Hr H) as (H1 & H2 & H3).
    split; [exact H1|]. split; [tauto|]. split; assumption.
Qed.

(** [healthCheck] never throws; it answers whether [getToken] returned,
    and leaves the client as [getToken] leaves it. *)
Theorem healthCheck_reports_token (w : World) :
  healthCheck cfg JSON_stringify w
  = (Ok (match fst (getToken cfg JSON_stringify w) with
         | Ok _ => true
         | Throw _ => false
         end),
     snd (getToken cfg JSON_stringify w)).
Proof.
  unfold healthCheck, tryCatch, bind, ret.
  destruct (getToken cfg JSON_stringify w) as [[tok|e] w']; reflexivity.
Qed.

(** After [clearTokenCache] the next [getToken] goes to the identity
    service, however fresh the token was. *)
Theorem clearTokenCache_forces_refresh (w : World) :
  authCalls (snd (getToken cfg JSON_stringify (snd (clearTokenCache w))))
  = S (authCalls w)
  /\ exists more,
       trace (snd (getToken cfg JSON_stringify (snd (clearTokenCache w))))
       = trace w ++ TokenRequest :: more.
Proof.
  unfold clearTokenCache, modify, getToken, dateNow, bind, gets.
  cbn [snd cachedToken setCachedToken].
  unfold refreshToken, tryCatch, fetchToken, dateNow, bind, gets, modify, log,
    elapse, throw, ret.
  cbn.
  destruct (authServer w (authCalls w)) as [latency [cause|st error|cause|tok life]];
    cbn; (split; [reflexivity | exists []; reflexivity]).
Qed.

(** [checkRateLimit] keeps every count of the table between nothing and
    the quota, touches no record but the one of its key, and grants
    exactly when the window of the key has room. *)
Theorem checkRateLimit_keeps_table_bounded (key : string) (w : World) :
  0 <= RATE_LIMIT cfg ->
  boundedTable cfg (rateLimitMap w) ->
  let run := checkRateLimit cfg key w in
  boundedTable cfg (rateLimitMap (snd run))
  /\ (forall other, other <> key ->
        rateLimitMap (snd run) !! other = rateLimitMap w !! other)
  /\ (fst run = Ok true <-> windowOpen cfg key w).
Proof.
  intros Hquota Hbound run. subst run.
  unfold checkRateLimit, windowOpen, dateNow, bind, gets, log, modify, ret.
  cbv beta iota zeta.
  assert (Hwin : 0 <= requestCount (currentWindow cfg (clock w) (rateLimitMap w !! key))).
  { unfold currentWindow.
    destruct (rateLimitMap w !! key) as [info|] eqn:Hk; simpl.
    - destruct (resetTime info <=? clock w); cbn; [lia|].
      apply (Hbound key info Hk).
    - destruct (clock w + RATE_LIMIT_WINDOW cfg <=? clock w); cbn; lia. }
  destruct (RATE_LIMIT cfg <=? requestCount
              (currentWindow cfg (clock w) (rateLimitMap w !! key))) eqn:Hfull;
    cbn [fst snd rateLimitMap setRateLimitMap logEvent].
  - split; [|split].
    + intros k info. destruct (rateLimitMap w !! key) as [stored|] eqn:Hk.
      * destruct (decide (k = key)) as [->|Hne].
        -- rewrite lookup_insert_eq. intros [= <-].
           unfold currentWindow. simpl.
           destruct (resetTime stored <=? clock w); cbn; [lia|].
           apply (Hbound key stored Hk).
        -- rewrite lookup_insert_ne by congruence. apply Hbound.
      * apply Hbound.
    + intros other Hne. destruct (rateLimitMap w !! key);
        [rewrite lookup_insert_ne by congruence|]; reflexivity.
    + split; [discriminate|lia].
  - split; [|split].
    + intros k info. destruct (decide (k = key)) as [->|Hne].
      * rewrite lookup_insert_eq. intros [= <-]. cbn. lia.
      * rewrite lookup_insert_ne by congruence.
        destruct (rateLimitMap w !! key) as [stored|] eqn:Hk.
        -- rewrite lookup_insert_ne by congruence. apply Hbound.
        -- apply Hbound.
    + intros other Hne. rewrite lookup_insert_ne by congruence.
      destruct (rateLimitMap w !! key);
        [rewrite lookup_insert_ne by congruence|]; reflexivity.
    + split; [lia|reflexivity].
Qed.

(** After a granted call, [getRateLimitStatus] reports one request more
    than the window held, within the quota, and a reset that lies ahead. *)
Theorem status_after_granted_call (key : string) (w : World) :
  0 < RATE_LIMIT_WINDOW cfg ->
  windowOpen cfg key w ->
  let window := currentWindow cfg (clock w) (rateLimitMap w !! key) in
  let w' := snd (checkRateLimit cfg key w) in
  fst (getRateLimitStatus cfg key w')
  = Ok (requestCount window + 1, RATE_LIMIT cfg, resetTime window - clock w)
  /\ requestCount window + 1 <= RATE_LIMIT cfg
  /\ 0 < resetTime window - clock w.
Proof.
  intros Hwindow Hopen window w'. subst window w'.
  unfold windowOpen in Hopen.
  assert (Hahead : clock w < resetTime (currentWindow cfg (clock w)
                                           (rateLimitMap w !! key))).
  { unfold currentWindow.
    destruct (rateLimitMap w !! key) as [info|]; simpl.
    - destruct (resetTime info <=? clock w) eqn:E; cbn; lia.
    - destruct (clock w + RATE_LIMIT_WINDOW cfg <=? clock w) eqn:E; cbn; lia. }
  unfold checkRateLimit, getRateLimitStatus, dateNow, bind, gets, log, modify, ret.
  cbv beta iota zeta.
  assert (Hfull : (RATE_LIMIT cfg <=? requestCount
                     (currentWindow cfg (clock w) (rateLimitMap w !! key))) = false)
    by lia.
  rewrite Hfull. cbn [fst snd rateLimitMap setRateLimitMap logEvent clock].
  rewrite lookup_insert_eq. cbn [fst requestCount resetTime].
  rewrite Z.max_r by lia.
  split; [reflexivity|]. split; lia.
Qed.

End Services.

Lemma getToken_failure_witness :
  prefixed "Amadeus auth error: "
    {| name := "Error";
       message := "Amadeus auth error: Authentication failed: 401 {}" |}.
Proof.
  apply (getToken_failure defaultConfig stringifyStub
           (newWorld refusingAuth healthyApi)).
  vm_compute. reflexivity.
Defined.

Lemma checkRateLimit_keeps_table_bounded_witness :
  boundedTable defaultConfig
    (rateLimitMap (snd (checkRateLimit defaultConfig "global" warmWorld))).
Proof.
  apply (checkRateLimit_keeps_table_bounded defaultConfig "global" warmWorld).
  - vm_compute. discriminate.
  - intros key info. unfold warmWorld. cbn [rateLimitMap].
    intros H. apply lookup_singleton_Some in H as [_ <-]. vm_compute.
    split; discriminate.
Defined.

Lemma status_after_granted_call_witness :
  fst (getRateLimitStatus defaultConfig "global"
         (snd (checkRateLimit defaultConfig "global" warmWorld)))
  = Ok (6, 30, 58000).
Proof.
  destruct (status_after_granted_call defaultConfig "global" warmWorld)
    as (H & _).
  - vm_compute. reflexivity.
  - vm_compute. reflexivity.
  - exact H.
Defined.

End ClientServices.

(* ================================================================== *)
(** * Airport look-ups of the client *)
(* ================================================================== *)

Module AirportLookup.
Import Amadeus Statements ClientStatements Samples.

Local Open Scope Z_scope.

(** The records kept by the filter all carry a code, and none is added. *)
Lemma keepWithCode_codes (items : list JsVal) :
  forall kept, keepWithCode items = Ok kept ->
    Forall (fun a => truthy (ap_iataCode a) = true) kept
    /\ (length kept <= length items)%nat.
Proof.
  induction items as [|a items IH]; cbn [keepWithCode]; intros kept H.
  - injection H as <-. split; [constructor | reflexivity].
  - destruct (nullish a); [discriminate H|].
    destruct (keepWithCode items) as [l|e]; [|discriminate H].
    destruct (IH l eq_refl) as [Hall Hlen].
    destruct (truthy (prop a "iataCode")) eqn:Hcode; injection H as <-.
    + split; [constructor; [exact Hcode | exact Hall] | cbn; lia].
    + split; [exact Hall | cbn; lia].
Qed.

Section Lookups.
Variable cfg : Config.
Variable JSON_stringify : JsVal -> string.

(** [searchAirports] does what the request for its endpoint does to the
    client; every airport it returns carries a code; and whatever goes
    wrong, in the request or in reading its answer, comes out as an
    [Error] whose text starts with the words of the search. *)
Theorem searchAirports_outcome (keyword : string) (w : World) :
  let endpoint := ("/v1/reference-data/locations?subType=AIRPORT&keyword="
                   ++ encodeURIComponent keyword)%string in
  snd (searchAirports cfg JSON_stringify keyword w)
  = snd (request cfg JSON_stringify endpoint noOptions w)
  /\ match fst (searchAirports cfg JSON_stringify keyword w) with
     | Ok airports =>
         Forall (fun a => truthy (ap_iataCode a) = true) airports
         /\ exists v, fst (request cfg JSON_stringify endpoint noOptions w) = Ok v
     | Throw e =>
         prefixed "Airport search failed: " e
         /\ forall cause,
              fst (request cfg JSON_stringify endpoint noOptions w) = Throw cause ->
              e = Error ("Airport search failed: " ++ message cause)
     end.
Proof.
  intros endpoint. subst endpoint.
  unfold searchAirports, tryCatch, bind, liftResult, throw, ret.
  destruct (request cfg JSON_stringify _ noOptions w) as [[response|cause] w'];
    cbn [fst snd].
  - destruct (nullish response).
    + split; [reflexivity|]. split; [|intros c H; discriminate H].
      split; [reflexivity | eexists; reflexivity].
    + destruct (orElse (prop response "data") (VArr [])) as [| |b|n|s|items|fields];
        try (split; [reflexivity|]; split; [|intros c H; discriminate H];
             split; [reflexivity | eexists; reflexivity]).
      destruct (keepWithCode items) as [kept|e] eqn:Hkeep.
      * split; [reflexivity|]. split; [|eexists; reflexivity].
        apply (keepWithCode_codes items kept Hkeep).
      * split; [reflexivity|]. split; [|intros c H; discriminate H].
        split; [reflexivity | eexists; reflexivity].
  - split; [reflexivity|]. split.
    + split; [reflexivity | eexists; reflexivity].
    + intros c [= <-]. reflexivity.
Qed.

(** [getAirport] never throws.  It answers [null] when the request
    fails, and an airport only when the request returned a record to take
    it from; [isValidAirport] says whether there was one. *)
Theorem getAirport_never_throws (iataCode : string) (w : World) :
  let endpoint := ("/v1/reference-data/locations?subType=AIRPORT&code="
                   ++ encodeURIComponent iataCode)%string in
  exists found,
    getAirport cfg JSON_stringify iataCode w
    = (Ok found, snd (request cfg JSON_stringify endpoint noOptions w))
    /\ isValidAirport cfg JSON_stringify iataCode w
       = (Ok (match found with Some _ => true | None => false end),
          snd (request cfg JSON_stringify endpoint noOptions w))
    /\ ((exists e, fst (request cfg JSON_stringify endpoint noOptions w) = Throw e)
        -> found = None)
    /\ (forall airport, found = Some airport ->
          exists response record,
            fst (request cfg JSON_stringify endpoint noOptions w) = Ok response
            /\ first (prop response "data") = record
            /\ truthy record = true
            /\ airport = toAirport record).
Proof.
  intros endpoint. subst endpoint.
  unfold isValidAirport, getAirport, tryCatch, bind, throw, ret.
  destruct (request cfg JSON_stringify _ noOptions w) as [[response|cause] w'];
    cbn [fst snd].
  - destruct (nullish response).
    + exists None. split; [reflexivity|]. split; [reflexivity|].
      split; [reflexivity|]. intros airport H. discriminate H.
    + destruct (nullish (prop response "data")) eqn:Hdata.
      * exists None. cbn. split; [reflexivity|]. split; [reflexivity|].
        split; [reflexivity|]. intros airport H. discriminate H.
      * destruct (truthy (first (prop response "data"))) eqn:Hrecord; cbn [negb].
        -- eexists. split; [reflexivity|]. split; [reflexivity|].
           split; [intros [e H]; discriminate H|].
           intros airport [= <-]. exists response, (first (prop response "data")).
           repeat split. exact Hrecord.
        -- exists None. split; [reflexivity|]. split; [reflexivity|].
           split; [reflexivity|]. intros airport H. discriminate H.
  - exists None. split; [reflexivity|]. split; [reflexivity|].
    split; [reflexivity|]. intros airport H. discriminate H.
Qed.

(** C10.  When the request of the lookup fails, whatever the error it
    throws, [getAirport] returns [null] and throws nothing, and
    [isValidAirport] returns [false]; the client is left as the failed
    request left it. *)
Theorem getAirport_absent_on_failure (iataCode : string) (w : World) (e : JsError) :
  let lookup := request cfg JSON_stringify
                  ("/v1/reference-data/locations?subType=AIRPORT&code="
                   ++ encodeURIComponent iataCode)%string noOptions w in
  fst lookup = Throw e ->
  getAirport cfg JSON_stringify iataCode w = (Ok None, snd lookup)
  /\ isValidAirport cfg JSON_stringify iataCode w = (Ok false, snd lookup).
Proof.
  intros lookup. subst lookup.
  unfold isValidAirport, getAirport, tryCatch, bind, throw, ret.
  destruct (request cfg JSON_stringify _ noOptions w) as [[response|cause] w'];
    cbn [fst snd]; intros H; [discriminate H|].
  split; reflexivity.
Qed.

End Lookups.

(** The lookup of [JFK] against an API that cannot be reached, one that
    never answers, one that answers with status 503, and with the window
    of the limiter used up. *)
Lemma getAirport_absent_on_failure_witness :
  (fst (getAirport defaultConfig stringifyStub "JFK"
          (newWorld grantingAuth unreachableApi)) = Ok None
   /\ fst (isValidAirport defaultConfig stringifyStub "JFK"
             (newWorld grantingAuth unreachableApi)) = Ok false)
  /\ (fst (getAirport defaultConfig stringifyStub "JFK"
             (newWorld grantingAuth silentApi)) = Ok None
      /\ fst (isValidAirport defaultConfig stringifyStub "JFK"
                (newWorld grantingAuth silentApi)) = Ok false)
  /\ (fst (getAirport defaultConfig stringifyStub "JFK"
             (newWorld grantingAuth unavailableApi)) = Ok None
      /\ fst (isValidAirport defaultConfig stringifyStub "JFK"
                (newWorld grantingAuth unavailableApi)) = Ok false)
  /\ (fst (getAirport defaultConfig stringifyStub "JFK" exhaustedWorld) = Ok None
      /\ fst (isValidAirport defaultConfig stringifyStub "JFK" exhaustedWorld)
         = Ok false).
Proof.
  split; [|split; [|split]].
  - destruct (getAirport_absent_on_failure defaultConfig stringifyStub "JFK"
                (newWorld grantingAuth unreachableApi)
                {| name := "TypeError"; message := "fetch failed" |}) as [H1 H2].
    + vm_compute. reflexivity.
    + rewrite H1, H2. split; reflexivity.
  - destruct (getAirport_absent_on_failure defaultConfig stringifyStub "JFK"
                (newWorld grantingAuth silentApi) abortError) as [H1 H2].
    + vm_compute. reflexivity.
    + rewrite H1, H2. split; reflexivity.
  - destruct (getAirport_absent_on_failure defaultConfig stringifyStub "JFK"
                (newWorld grantingAuth unavailableApi) bodyUsedError) as [H1 H2].
    + vm_compute. reflexivity.
    + rewrite H1, H2. split; reflexivity.
  - destruct (getAirport_absent_on_failure defaultConfig stringifyStub "JFK"
                exhaustedWorld
                (Error "Rate limit exceeded. Please wait before making another request."))
      as [H1 H2].
    + vm_compute. reflexivity.
    + rewrite H1, H2. split; reflexivity.
Defined.

End AirportLookup.

(* ================================================================== *)
(** * The ranking of airports *)
(* ================================================================== *)

Module AirportRanking.
Import AirportsRoute AirportsHandler AirportStatements FlightUtils MoreStatements.

Local Open Scope Z_scope.

(** ** The edit distance of the matrix *)

Lemma editDistance_zero (s : string) :
  forall t, editDistance s t = 0 <-> s = t.
Proof.
  induction s as [|a s IHs]; intros t.
  - rewrite FuzzyMatcher.editDistance_nil_l. destruct t as [|b t].
    + split; reflexivity.
    + rewrite FuzzyMatcher.len_cons. pose proof (FuzzyMatcher.len_nonneg t).
      split; [lia | discriminate].
  - destruct t as [|b t].
    + rewrite FuzzyMatcher.editDistance_nil_r, FuzzyMatcher.len_cons.
      pose proof (FuzzyMatcher.len_nonneg s). split; [lia | discriminate].
    + rewrite FuzzyMatcher.editDistance_cons.
      pose proof (FuzzyMatcher.editDistance_nonneg s t).
      pose proof (FuzzyMatcher.editDistance_nonneg (String a s) t).
      pose proof (FuzzyMatcher.editDistance_nonneg s (String b t)).
      pose proof (FuzzyMatcher.cost_range a b) as Hcost.
      split.
      * intros Hzero.
        assert (Hd : editDistance s t + Statements.cost a b = 0)
          by (unfold min3 in Hzero; lia).
        assert (Hst : editDistance s t = 0) by lia.
        assert (Hc : Statements.cost a b = 0) by lia.
        apply IHs in Hst. subst t. unfold Statements.cost in Hc.
        destruct (Ascii.eqb a b) eqn:E; [|discriminate Hc].
        apply Ascii.eqb_eq in E. subst b. reflexivity.
      * intros [= <- <-].
        assert (Hst : editDistance s s = 0) by (apply IHs; reflexivity).
        unfold Statements.cost. rewrite Ascii.eqb_refl. unfold min3. lia.
Qed.

Lemma editDistance_lower (s : string) :
  forall t, Js.len s - Js.len t <= editDistance s t.
Proof.
  induction s as [|a s IHs]; intros t.
  - rewrite FuzzyMatcher.editDistance_nil_l.
    pose proof (FuzzyMatcher.len_nonneg t). change (Js.len "") with 0. lia.
  - induction t as [|b t IHt].
    + rewrite FuzzyMatcher.editDistance_nil_r. change (Js.len "") with 0. lia.
    + rewrite FuzzyMatcher.editDistance_cons, !FuzzyMatcher.len_cons in *.
      pose proof (IHs t). pose proof (IHs (String b t)) as H2.
      rewrite FuzzyMatcher.len_cons in H2.
      pose proof (FuzzyMatcher.cost_range a b). unfold min3. lia.
Qed.

(** The number that [levenshteinDistance] reads from the last cell of its
    matrix is the edit distance of the two strings: it is symmetric, zero
    exactly for equal strings, at least the difference of the lengths and
    at most the greater length. *)
Theorem levenshteinDistance_is_a_distance (s1 s2 : string) :
  levenshteinDistance s1 s2 = editDistance s1 s2
  /\ levenshteinDistance s1 s2 = levenshteinDistance s2 s1
  /\ (levenshteinDistance s1 s2 = 0 <-> s1 = s2)
  /\ Z.abs (Js.len s1 - Js.len s2) <= levenshteinDistance s1 s2
     <= Z.max (Js.len s1) (Js.len s2).
Proof.
  rewrite !FuzzyMatcher.levenshteinDistance_correct.
  split; [reflexivity|]. split; [apply FuzzyMatcher.editDistance_sym|].
  split; [apply editDistance_zero|]. split.
  - pose proof (editDistance_lower s1 s2).
    pose proof (editDistance_lower s2 s1) as H2.
    rewrite (FuzzyMatcher.editDistance_sym s2 s1) in H2. lia.
  - apply FuzzyMatcher.editDistance_upper.
Qed.

(** ** The score of one airport *)


Lemma mathMax_right (a b : Q) : (b <= mathMax a b)%Q.
Proof.
  unfold mathMax. destruct (Qle_bool a b) eqn:E; [apply Qle_refl|].
  destruct (Qlt_le_dec b a) as [H|H]; [apply Qlt_le_weak, H|].
  apply Qle_bool_iff in H. congruence.
Qed.



(** ** The ranking *)



Lemma sliceTo_take {A : Type} (limit : Z) (l : list A) :
  0 <= limit -> sliceTo limit l = take (Z.to_nat limit) l.
Proof.
  intros Hpos. unfold sliceTo. cbv zeta.
  assert (E : (limit <? 0) = false) by lia. rewrite E.
  destruct (Z_le_gt_dec limit (Z.of_nat (length l))) as [Hle|Hgt].
  - rewrite Z.min_l by lia. reflexivity.
  - rewrite Z.min_r by lia. rewrite Nat2Z.id.
    rewrite !firstn_all2 by lia. reflexivity.
Qed.




(** The product of 0.2 and 1.5 is rounded upwards: the airport [abx],
    whose exact weighted score for the query [abcde] would be 0.3, is
    kept. *)
Example rounded_score_passes_threshold :
  List.map (fun r => (iataCode (airport r), score r))
    (normalizeAndScoreAirports [abx] "abcde" 10)
  = [("ABX", 1351079888211149 # 4503599627370496)]
  /\ threshold = 5404319552844595 # 18014398509481984.
Proof. split; vm_compute; reflexivity. Qed.


End AirportRanking.

(* ================================================================== *)
(** * The handlers of the airport search *)
(* ================================================================== *)

Module AirportsEndpoint.
Import AirportsRoute AirportsHandler AirportStatements FlightUtils.

Local Open Scope Z_scope.

Lemma nothing_to_rank (query : string) (limit : Z) :
  normalizeAndScoreAirports [] query limit = [].
Proof.
  unfold normalizeAndScoreAirports, sliceTo. cbn. apply firstn_nil.
Qed.

Lemma ranked_at_most_50 (airports : list Airport) (query : string) (limit : Z) :
  1 <= limit <= 50 ->
  (length (normalizeAndScoreAirports airports query limit) <= 50)%nat.
Proof.
  intros H. unfold normalizeAndScoreAirports.
  rewrite AirportRanking.sliceTo_take by lia.
  etransitivity; [apply firstn_le_length|]. lia.
Qed.

(** What validation lets through: a trimmed query that was between 1 and
    100 characters long before the trimming, and a limit between 1 and
    50. *)
Lemma parseSearchParams_valid (queryParams : list (string * string))
    (query : string) (limit : Z) :
  parseSearchParams queryParams = Some (query, limit) ->
  1 <= limit <= 50
  /\ exists rawQ, FlightsRoute.get queryParams "q" = Some rawQ
                  /\ query = trim rawQ /\ 1 <= Js.len rawQ <= 100.
Proof.
  unfold parseSearchParams, airportSearchSchema.
  destruct (FlightsRoute.get queryParams "q") as [rawQ|];
    cbn -[Js.len Js.parseInt Z.leb trim]; [|discriminate].
  destruct rawQ as [|c rawQ]; [discriminate|].
  cbn -[Js.len Js.parseInt Z.leb trim].
  destruct ((1 <=? Js.len (String c rawQ)) && (Js.len (String c rawQ) <=? 100))
    eqn:Hlen; [|discriminate].
  destruct (Js.parseInt _) as [val|]; [|discriminate].
  destruct ((1 <=? val) && (val <=? 50)) eqn:Hval; [|discriminate].
  intros [= <- <-]. split; [lia|]. exists (String c rawQ).
  split; [reflexivity|]. split; [reflexivity|]. lia.
Qed.

Section Handler.
Variable client : option ClientOps.

(** The GET handler answers with one of five statuses; it leaves the
    cache alone unless it answers 200 with a list that is not empty and
    did not come from the cache, which it then stores under the key of
    the request; and a list it returns from the client has at most 50
    entries. *)
Theorem GET_statuses_and_cache (now later : Z) (airportCache : AirportCache)
    (queryParams : list (string * string)) :
  let response := fst (GET client now later airportCache queryParams) in
  let airportCache' := snd (GET client now later airportCache queryParams) in
  In (status response) [200; 400; 429; 500; 504]
  /\ (airportCache' = airportCache
      \/ exists query limit data_,
           response = listing data_ false query (Some limit)
           /\ data_ <> []
           /\ airportCache'
              = <[(Js.toLowerCase query ++ ":" ++ pretty limit)%string
                  := {| results := data_; timestamp := later |}]> airportCache)
  /\ (forall data_ count query limit,
        body response = Success data_ count false query limit ->
        (length data_ <= 50)%nat /\ count = Z.of_nat (length data_)).
Proof.
  intros response airportCache'. subst response airportCache'.
  unfold GET.
  destruct (parseSearchParams queryParams) as [[query limit]|] eqn:Hparse.
  2:{ cbn. split; [tauto|]. split; [left; reflexivity|]. intros; discriminate. }
  apply parseSearchParams_valid in Hparse as [Hlimit _].
  cbv zeta.
  destruct (match airportCache !! _ with Some c => _ | None => None end) as [c|].
  { cbn. split; [tauto|]. split; [left; reflexivity|]. intros; discriminate. }
  destruct client as [ops|].
  2:{ cbn. split; [tauto|]. split; [left; reflexivity|]. intros; discriminate. }
  assert (Hrank : forall airports,
    let results_ := normalizeAndScoreAirports airports query limit in
    let run :=
      ({| status := 200;
          body := Success (List.map airport results_) (Z.of_nat (length results_))
                    false query (Some limit);
          cacheControl :=
            Some "public, s-maxage=3600, stale-while-revalidate=86400" |},
       if 0 <? Z.of_nat (length results_)
       then <[(Js.toLowerCase query ++ ":" ++ pretty limit)%string
              := {| results := List.map airport results_; timestamp := later |}]>
              airportCache
       else airportCache) in
    In (status (fst run)) [200; 400; 429; 500; 504]
    /\ (snd run = airportCache
        \/ exists query0 limit0 data_,
             fst run = listing data_ false query0 (Some limit0)
             /\ data_ <> []
             /\ snd run
                = <[(Js.toLowerCase query0 ++ ":" ++ pretty limit0)%string
                    := {| results := data_; timestamp := later |}]> airportCache)
    /\ (forall data_ count query0 limit0,
          body (fst run) = Success data_ count false query0 limit0 ->
          (length data_ <= 50)%nat /\ count = Z.of_nat (length data_))).
  { intros airports results_ run. subst run. cbn [fst snd status body].
    split; [cbn; tauto|]. split.
    - destruct (0 <? Z.of_nat (length results_)) eqn:Hlen; [|left; reflexivity].
      right. exists query, limit, (List.map airport results_).
      split; [unfold listing; rewrite length_map; reflexivity|].
      split; [|reflexivity].
      destruct results_; [cbn in Hlen; discriminate Hlen | discriminate].
    - intros data_ count query0 limit0 [= <- <- _ _].
      rewrite length_map. split; [|reflexivity].
      apply ranked_at_most_50, Hlimit. }
  destruct (lookUp ops query) as [airports|errorMessage].
  - apply Hrank.
  - destruct (Js.includes errorMessage "Rate limit").
    { cbn. split; [tauto|]. split; [left; reflexivity|]. intros; discriminate. }
    destruct (Js.includes errorMessage "timeout").
    { cbn. split; [tauto|]. split; [left; reflexivity|]. intros; discriminate. }
    apply Hrank.
Qed.

(** A failure of the client that is neither a rate limit nor a timeout
    is answered with 200 and an empty list, and nothing enters the
    cache. *)
Theorem GET_swallows_client_errors (now later : Z) (airportCache : AirportCache)
    (queryParams : list (string * string)) (ops : ClientOps)
    (query errorMessage : string) (limit : Z) :
  client = Some ops ->
  parseSearchParams queryParams = Some (query, limit) ->
  airportCache !! (Js.toLowerCase query ++ ":" ++ pretty limit)%string = None ->
  lookUp ops query = Throw errorMessage ->
  Js.includes errorMessage "Rate limit" = false ->
  Js.includes errorMessage "timeout" = false ->
  GET client now later airportCache queryParams
  = (listing [] false query (Some limit), airportCache).
Proof.
  intros -> Hparse Hmiss Hthrow Hrate Htimeout.
  unfold GET. rewrite Hparse. cbv zeta. rewrite Hmiss, Hthrow, Hrate, Htimeout.
  rewrite nothing_to_rank. reflexivity.
Qed.

End Handler.

(** A list that one request has fetched and stored is served to every
    request with the same limit whose query differs at most in letter
    case, for 24 hours from the write, whatever client is at hand then:
    the key of the cache is the query in lower case. *)
Theorem GET_serves_stored_list (client client' : option ClientOps)
    (now later now' later' : Z) (airportCache : AirportCache)
    (queryParams queryParams' : list (string * string))
    (query query' : string) (limit : Z) (data_ : list Airport) :
  parseSearchParams queryParams = Some (query, limit) ->
  fst (GET client now later airportCache queryParams)
  = listing data_ false query (Some limit) ->
  data_ <> [] ->
  parseSearchParams queryParams' = Some (query', limit) ->
  Js.toLowerCase query' = Js.toLowerCase query ->
  now' - later < CACHE_TTL ->
  let airportCache' := snd (GET client now later airportCache queryParams) in
  GET client' now' later' airportCache' queryParams'
  = (listing data_ true query' None, airportCache').
Proof.
  intros Hparse Hresp Hdata Hparse' Hcase Hyoung airportCache'.
  assert (Hstored : airportCache'
            = <[(Js.toLowerCase query ++ ":" ++ pretty limit)%string
                := {| results := data_; timestamp := later |}]> airportCache).
  { subst airportCache'. revert Hresp. unfold GET. rewrite Hparse. cbv zeta.
    destruct (match airportCache !! _ with Some c => _ | None => None end) as [c|];
      [cbn; discriminate|].
    destruct client as [ops|]; [|cbn; discriminate].
    assert (Hrank : forall airports,
      let results_ := normalizeAndScoreAirports airports query limit in
      {| status := 200;
         body := Success (List.map airport results_) (Z.of_nat (length results_))
                   false query (Some limit);
         cacheControl :=
           Some "public, s-maxage=3600, stale-while-revalidate=86400" |}
      = listing data_ false query (Some limit) ->
      (if 0 <? Z.of_nat (length results_)
       then <[(Js.toLowerCase query ++ ":" ++ pretty limit)%string
              := {| results := List.map airport results_; timestamp := later |}]>
              airportCache
       else airportCache)
      = <[(Js.toLowerCase query ++ ":" ++ pretty limit)%string
          := {| results := data_; timestamp := later |}]> airportCache).
    { intros airports results_. unfold listing. intros [= Hmap _].
      rewrite Hmap.
      destruct results_; [cbn in Hmap; congruence|]. reflexivity. }
    destruct (lookUp ops query) as [airports|errorMessage].
    - cbn [fst snd]. apply Hrank.
    - destruct (Js.includes errorMessage "Rate limit"); [cbn; discriminate|].
      destruct (Js.includes errorMessage "timeout"); [cbn; discriminate|].
      cbn [fst snd]. apply Hrank. }
  rewrite Hstored. unfold GET. rewrite Hparse'. cbv zeta.
  rewrite Hcase, lookup_insert_eq. cbn [timestamp results].
  assert (E : (now' - later <? CACHE_TTL) = true) by lia. rewrite E.
  reflexivity.
Qed.

Lemma GET_swallows_client_errors_witness :
  GET (Some failingClient) 0 10 ∅ [("q", "london")]
  = (listing [] false "london" (Some 10), ∅).
Proof.
  apply (GET_swallows_client_errors (Some failingClient) 0 10 ∅ [("q", "london")]
           failingClient "london" "Airport search failed: Service unavailable" 10).
  - reflexivity.
  - vm_compute. reflexivity.
  - apply lookup_empty.
  - reflexivity.
  - vm_compute. reflexivity.
  - vm_compute. reflexivity.
Defined.

Lemma GET_serves_stored_list_witness :
  exists data_,
    data_ <> []
    /\ fst (GET None 1000 1000
              (snd (GET (Some keywordOnly) 0 10 ∅ [("q", "jfk")]))
              [("q", "JFK")])
       = listing data_ true "JFK" None.
Proof.
  exists [kennedy]. split; [discriminate|].
  rewrite (GET_serves_stored_list (Some keywordOnly) None 0 10 1000 1000 ∅
             [("q", "jfk")] [("q", "JFK")] "jfk" "JFK" 10 [kennedy]).
  - reflexivity.
  - vm_compute. reflexivity.
  - vm_compute. reflexivity.
  - discriminate.
  - vm_compute. reflexivity.
  - reflexivity.
  - vm_compute. reflexivity.
Defined.

End AirportsEndpoint.

(* ================================================================== *)
(** * The handler of the flight search *)
(* ================================================================== *)

Module FlightsEndpoint.
Import FlightsRoute FlightStatements Samples.

Local Open Scope Z_scope.

Section Handler.
Variable dateValue : string -> option Z.
Variable todayStart : Z.
Variable nowISO : string.

Lemma intSchema_range (lo hi : Z) (val : string) (n : Z) :
  intSchema lo hi val = Some n -> lo <= n <= hi.
Proof.
  unfold intSchema. destruct (Js.parseInt val) as [m|]; [|discriminate].
  destruct ((lo <=? m) && (m <=? hi)) eqn:E; [|discriminate].
  intros [= <-]. lia.
Qed.

(** What the schema lets through is well formed. *)
Lemma parseSearchParams_wellFormed (queryParams : list (string * string))
    (validated : FlightSearchInput) :
  data (parseSearchParams dateValue todayStart queryParams) = Some validated ->
  valid (parseSearchParams dateValue todayStart queryParams) = true
  /\ wellFormed dateValue todayStart (buildSearchParams validated).
Proof.
  unfold parseSearchParams. cbv zeta.
  destruct (flightSearchSchema _ _ _ _ _ _ _ _) as [v|] eqn:Hs; cbn [data valid];
    [|discriminate].
  intros [= <-]. split; [reflexivity|].
  unfold flightSearchSchema in Hs.
  apply bind_Some in Hs as (dep & Hdep & Hs).
  apply bind_Some in Hs as (arr & Harr & Hs).
  apply bind_Some in Hs as (dd & Hdd & Hs).
  apply bind_Some in Hs as (ad & Had & Hs).
  apply bind_Some in Hs as (ch & Hch & Hs).
  apply bind_Some in Hs as (mx & Hmx & Hs).
  injection Hs as <-.
  unfold wellFormed. cbn.
  apply FlightsValidation.codeSchema_accepts in Hdep as [Hdep ->].
  apply FlightsValidation.codeSchema_accepts in Harr as [Harr ->].
  apply intSchema_range in Had, Hch, Hmx.
  unfold departDateSchema in Hdd.
  destruct (isDatePattern _) eqn:Hpat; [|discriminate].
  destruct (notBeforeToday dateValue todayStart _) eqn:Hday; [|discriminate].
  injection Hdd as <-. repeat split; try assumption; lia.
Qed.

(** The handler answers with one of six statuses; it hands to the client
    only parameters that passed validation, so that two clients that
    agree on well-formed parameters get the same answer; and a request
    that fails validation is answered 400 whatever the client, also when
    no client can be constructed. *)
Theorem GET_searches_only_valid_input
    (search search' : SearchParams -> Result string (list ProcessedFlight))
    (queryParams : list (string * string)) :
  (forall p, wellFormed dateValue todayStart p -> search p = search' p) ->
  GET dateValue todayStart nowISO (Some search) queryParams
  = GET dateValue todayStart nowISO (Some search') queryParams
  /\ In (status (GET dateValue todayStart nowISO (Some search) queryParams))
        [200; 400; 401; 429; 500; 504]
  /\ (data (parseSearchParams dateValue todayStart queryParams) = None ->
      forall client,
        GET dateValue todayStart nowISO client queryParams
        = json 400 (Failure "Validation failed" None (Some []))).
Proof.
  intros Hagree.
  pose proof (parseSearchParams_wellFormed queryParams) as Hwf.
  assert (Hshape :
    (exists validated,
       parseSearchParams dateValue todayStart queryParams
       = {| valid := true; data := Some validated; errors := None |})
    \/ parseSearchParams dateValue todayStart queryParams
       = {| valid := false; data := None; errors := Some [] |}).
  { unfold parseSearchParams.
    destruct (flightSearchSchema _ _ _ _ _ _ _ _) as [validated|];
      [left; exists validated|right]; reflexivity. }
  unfold GET.
  destruct Hshape as [[validated Hp]|Hp]; rewrite Hp in *; cbn [valid data errors].
  - destruct (Hwf validated eq_refl) as [_ Hok].
    rewrite <- (Hagree _ Hok).
    split; [reflexivity|]. split; [|discriminate].
    destruct (search (buildSearchParams validated)) as [flights|errorMessage];
      [cbn; tauto|].
    destruct (Js.includes errorMessage "Rate limit"); [cbn; tauto|].
    destruct (Js.includes errorMessage "Authentication"); [cbn; tauto|].
    destruct (Js.includes errorMessage "timeout"); cbn; tauto.
  - split; [reflexivity|]. split; [cbn; tauto|].
    intros _ client. reflexivity.
Qed.

End Handler.

Lemma GET_searches_only_valid_input_witness :
  GET IsoDate.getTime sampleToday sampleNowISO (Some findsOne)
    uppercaseArrivalQuery
  = GET IsoDate.getTime sampleToday sampleNowISO (Some findsForCodes)
      uppercaseArrivalQuery.
Proof.
  apply (GET_searches_only_valid_input IsoDate.getTime sampleToday sampleNowISO
           findsOne findsForCodes uppercaseArrivalQuery).
  intros p (Hdep & _). unfold findsOne, findsForCodes. rewrite Hdep. reflexivity.
Defined.

End FlightsEndpoint.
